(** * tnt::Buffer — a segmented I/O buffer (src/Buffer/Buffer.hpp)

    A shallow embedding of the block list, the begin/end cursors, the
    iterator registry and the public operations of [Buffer<N, allocator>],
    followed by the properties established about them.

    Conventions of the embedding
    - [size_t] values, block ids and offsets are [Z]; the only place where
      the source relies on unsigned wrap-around ([iterator::operator-]) has
      the reduction modulo [2^64] written out.
    - A [char *] into a block's data area is a pair (block, offset from
      [block->begin()]); [block->end()] is offset [DATA_SIZE].  Blocks are
      named by their [id], which is unique among the blocks alive at any
      moment.  Two such pointers are equal iff both components are: the data
      areas of distinct chunks are disjoint and the address past a data area
      is the chunk end, which is never a data address of another chunk.
    - Undefined behaviour (walking off the block list, copying outside a
      data area) is [None].  A thrown allocation failure is [Threw].
    - [assert] depends on the build.  The assertions of [dropBack] are
      written out, under the flag [ndebug] ([true] when the code is
      compiled with [NDEBUG], so that they vanish): the one inside its loop
      is checked after [block] has been moved to the surviving block, and so
      it decides calls that meet the documented precondition.  A failed
      assertion aborts; like undefined behaviour, the call gives no result,
      [None].  The assertions elsewhere only test the preconditions of their
      call and are left to the hypotheses of the theorems.
    - The two operands of a binary operator are evaluated in an order the
      language does not fix; where the result depends on it ([flush]) the
      order is a parameter. *)

From Stdlib Require Import ZArith List Lia Bool.
From Stdlib Require Import Strings.Byte.
Import ListNotations.
Open Scope Z_scope.

Definition char := Byte.byte.

(** ** Pool allocator *)

(** Modelled from the spec: the pool allocator adaptor (Utils/Mempool.hpp),
    of which the buffer uses [allocate], [deallocate] and [REAL_SIZE].
    The state is the number of chunks the pool can still hand out;
    [allocate] raises when there is none, [deallocate] never fails. *)
Definition allocator := nat.

Definition allocate (a : allocator) : option allocator :=
  match a with
  | O => None
  | S a' => Some a'
  end.

Definition deallocate (a : allocator) : allocator := S a.

(** ** Blocks and pointers *)

Record Block := mkBlock { id : Z; data : list char }.

Record ptr := mkPtr { p_block : Z; p_off : Z }.

Definition ptr_eqb (p q : ptr) : bool :=
  (p_block p =? p_block q) && (p_off p =? p_off q).

Definition ptr_add (p : ptr) (n : Z) : ptr := mkPtr (p_block p) (p_off p + n).

(** ** Iterators *)

Record iterator := mkIter { m_block : Z; m_position : ptr }.

(** ** The buffer *)

Record Buffer := mkBuffer {
  m_blocks : list Block;
  m_iterators : list iterator;
  m_blockId : Z;
  m_begin : ptr;
  m_end : ptr;
  m_all : allocator
}.

(** Outcome of an operation that may throw. *)
Inductive outcome (A : Type) : Type :=
| Returned (a : A)
| Threw (a : A).
Arguments Returned {A} a.
Arguments Threw {A} a.

Definition uninit : char := x00.

Section WithDataSize.

(** [Block::DATA_SIZE = allocator::REAL_SIZE - sizeof(SingleLink<Block>) -
    sizeof(id)]; the allocator is a template parameter. *)
Variable DATA_SIZE : Z.

Definition Block_begin (b : Block) : ptr := mkPtr (id b) 0.
Definition Block_end (b : Block) : ptr := mkPtr (id b) DATA_SIZE.

(** *** Raw memory access inside data areas *)

Definition in_area (off n : Z) : bool :=
  (0 <=? off) && (0 <=? n) && (off + n <=? DATA_SIZE).

Definition splice (d : list char) (off : Z) (bytes : list char) : list char :=
  firstn (Z.to_nat off) d ++ bytes ++
  skipn (Z.to_nat off + length bytes) d.

(** [memcpy(p, bytes, |bytes|)] into whichever block of [bs] owns [p]. *)
Fixpoint store (bs : list Block) (p : ptr) (bytes : list char)
  : option (list Block) :=
  match bs with
  | [] => None
  | b :: bs' =>
      if id b =? p_block p then
        if in_area (p_off p) (Z.of_nat (length bytes))
        then Some (mkBlock (id b) (splice (data b) (p_off p) bytes) :: bs')
        else None
      else option_map (cons b) (store bs' p bytes)
  end.

(** The [n] bytes found at [p]. *)
Fixpoint load (bs : list Block) (p : ptr) (n : Z) : option (list char) :=
  match bs with
  | [] => None
  | b :: bs' =>
      if id b =? p_block p then
        if in_area (p_off p) n
        then Some (firstn (Z.to_nat n) (skipn (Z.to_nat (p_off p)) (data b)))
        else None
      else load bs' p n
  end.

(** [memmove(dst, src, n)]. *)
Definition memmove (bs : list Block) (dst src : ptr) (n : Z)
  : option (list Block) :=
  match load bs src n with
  | Some bytes => store bs dst bytes
  | None => None
  end.

(** *** List navigation: [first], [last], [next], [prev] by block id *)

Definition first_block (bs : list Block) : option Block := hd_error bs.
Definition last_block (bs : list Block) : option Block := hd_error (rev bs).

Fixpoint next_block (bs : list Block) (b : Z) : option Block :=
  match bs with
  | [] => None
  | x :: bs' => if id x =? b then hd_error bs' else next_block bs' b
  end.

Definition prev_block (bs : list Block) (b : Z) : option Block :=
  next_block (rev bs) b.

(** The blocks from the one named [b] to the tail, in list order. *)
Fixpoint blocks_from (bs : list Block) (b : Z) : list Block :=
  match bs with
  | [] => []
  | x :: bs' => if id x =? b then bs else blocks_from bs' b
  end.

(** *** newBlock, delBlock *)

(** [newBlock(addToList)]: the new block goes to the back of [addToList]
    and takes the id [m_blockId++].  [None] when [allocate] throws. *)
Definition newBlock (all : allocator) (blockId : Z) (addTo : list Block)
  : option (allocator * Z * list Block * Block) :=
  match allocate all with
  | None => None
  | Some all' =>
      let b := mkBlock blockId (repeat uninit (Z.to_nat DATA_SIZE)) in
      Some (all', blockId + 1, addTo ++ [b], b)
  end.

(** [Blocks::~Blocks]: every block still owned by the transient list is
    deallocated and [m_blockId] decremented once per block. *)
Fixpoint Blocks_dtor (new_blocks : list Block) (all : allocator) (blockId : Z)
  : allocator * Z :=
  match new_blocks with
  | [] => (all, blockId)
  | _ :: rest => Blocks_dtor rest (deallocate all) (blockId - 1)
  end.

(** Pointer difference [p - q] of two pointers into the same data area. *)
Definition ptr_diff (p q : ptr) : Z := p_off p - p_off q.

(** [memcpy(p, buf, n)] where [p] points into the main list or into the
    transient list. *)
Definition memcpy2 (blocks new_blocks : list Block) (p : ptr)
  (bytes : list char) : option (list Block * list Block) :=
  match store new_blocks p bytes with
  | Some nb => Some (blocks, nb)
  | None =>
      match store blocks p bytes with
      | Some bs => Some (bs, new_blocks)
      | None => None
      end
  end.

(** *** addBack(wrap::Data) *)

Inductive loop_exit : Type :=
| LoopDone (blocks new_blocks : list Block) (all : allocator) (blockId : Z)
    (new_end : ptr) (buf : list char) (size : Z)
| LoopThrew (blocks new_blocks : list Block) (all : allocator) (blockId : Z).

(** The [do ... while (size >= left_in_block)] loop.  [fuel] bounds the
    number of iterations. *)
Fixpoint addBack_loop (fuel : nat) (blocks new_blocks : list Block)
  (all : allocator) (blockId : Z) (new_end : ptr) (buf : list char)
  (size left_in_block : Z) : option loop_exit :=
  match fuel with
  | O => None
  | S fuel' =>
      match memcpy2 blocks new_blocks new_end
              (firstn (Z.to_nat left_in_block) buf) with
      | None => None
      | Some (blocks1, new_blocks1) =>
          match newBlock all blockId new_blocks1 with
          | None => Some (LoopThrew blocks1 new_blocks1 all blockId)
          | Some (all', blockId', new_blocks2, b) =>
              let new_end' := Block_begin b in
              let size' := size - left_in_block in
              let buf' := skipn (Z.to_nat left_in_block) buf in
              let left_in_block' := DATA_SIZE in
              if size' >=? left_in_block'
              then addBack_loop fuel' blocks1 new_blocks2 all' blockId'
                     new_end' buf' size' left_in_block'
              else Some (LoopDone blocks1 new_blocks2 all' blockId'
                           new_end' buf' size')
          end
      end
  end.

Definition set_end (b : Buffer) (blocks : list Block) (e : ptr) : Buffer :=
  mkBuffer blocks (m_iterators b) (m_blockId b) (m_begin b) e (m_all b).

Definition addBack (b : Buffer) (buf : list char) : option (outcome Buffer) :=
  let size := Z.of_nat (length buf) in
  match last_block (m_blocks b) with
  | None => None
  | Some last =>
      let left_in_block := ptr_diff (Block_end last) (m_end b) in
      if left_in_block >? size then
        match store (m_blocks b) (m_end b) buf with
        | None => None
        | Some blocks => Some (Returned (set_end b blocks (ptr_add (m_end b) size)))
        end
      else
        match addBack_loop (S (Z.to_nat size)) (m_blocks b) [] (m_all b)
                (m_blockId b) (m_end b) buf size left_in_block with
        | None => None
        | Some (LoopThrew blocks new_blocks all blockId) =>
            let '(all', blockId') := Blocks_dtor new_blocks all blockId in
            Some (Threw (mkBuffer blocks (m_iterators b) blockId'
                           (m_begin b) (m_end b) all'))
        | Some (LoopDone blocks new_blocks all blockId new_end buf' size') =>
            match memcpy2 blocks new_blocks new_end buf' with
            | None => None
            | Some (blocks1, new_blocks1) =>
                Some (Returned (mkBuffer (blocks1 ++ new_blocks1)
                                  (m_iterators b) blockId (m_begin b)
                                  (ptr_add new_end size') all))
            end
        end
  end.

(** *** Buffer::Buffer *)

Definition Buffer_ctor (all : allocator) : outcome (option Buffer) :=
  match newBlock all 0 [] with
  | None => Threw None
  | Some (all', blockId, blocks, b) =>
      Returned (Some (mkBuffer blocks [] blockId (Block_begin b)
                        (Block_begin b) all'))
  end.

(** *** get(itr, buf, size) *)

(** The [while (size > 0)] loop of [get]; [cur :: rest] is the block list
    from the current block on, so [block->next()] is the head of [rest]. *)
Fixpoint get_loop (blocks : list Block) (cur : Block) (rest : list Block)
  (pos : ptr) (left_in_block size : Z) : option (list char) :=
  if size >? 0 then
    let copy_sz := Z.min size left_in_block in
    match load blocks pos copy_sz with
    | None => None
    | Some bytes =>
        let size' := size - copy_sz in
        if size' =? 0 then Some bytes
        else
          match rest with
          | [] => None
          | nb :: rest' =>
              option_map (app bytes)
                (get_loop blocks nb rest' (Block_begin nb) DATA_SIZE size')
          end
    end
  else Some [].

Definition get (b : Buffer) (itr : iterator) (size : Z) : option (list char) :=
  match blocks_from (m_blocks b) (m_block itr) with
  | [] => None
  | block :: rest =>
      get_loop (m_blocks b) block rest (m_position itr)
        (ptr_diff (Block_end block) (m_position itr)) size
  end.

(** *** begin(), end() *)

(** [begin()] registers the new iterator at the head of the registry,
    [end()] at its tail. *)
Definition begin_ (b : Buffer) : option (iterator * Buffer) :=
  match first_block (m_blocks b) with
  | None => None
  | Some f =>
      let it := mkIter (id f) (m_begin b) in
      Some (it, mkBuffer (m_blocks b) (it :: m_iterators b) (m_blockId b)
                  (m_begin b) (m_end b) (m_all b))
  end.

Definition end_ (b : Buffer) : option (iterator * Buffer) :=
  match last_block (m_blocks b) with
  | None => None
  | Some l =>
      let it := mkIter (id l) (m_end b) in
      Some (it, mkBuffer (m_blocks b) (m_iterators b ++ [it]) (m_blockId b)
                  (m_begin b) (m_end b) (m_all b))
  end.

(** *** addBack(wrap::Advance) *)

Inductive advance_exit : Type :=
| AdvDone (new_blocks : list Block) (all : allocator) (blockId : Z)
    (new_end : ptr) (size : Z)
| AdvThrew (new_blocks : list Block) (all : allocator) (blockId : Z).

Fixpoint advance_loop (fuel : nat) (new_blocks : list Block)
  (all : allocator) (blockId : Z) (size left_in_block : Z)
  : option advance_exit :=
  match fuel with
  | O => None
  | S fuel' =>
      match newBlock all blockId new_blocks with
      | None => Some (AdvThrew new_blocks all blockId)
      | Some (all', blockId', new_blocks1, b) =>
          let new_end := Block_begin b in
          let size' := size - left_in_block in
          let left_in_block' := DATA_SIZE in
          if size' >=? left_in_block'
          then advance_loop fuel' new_blocks1 all' blockId' size'
                 left_in_block'
          else Some (AdvDone new_blocks1 all' blockId' new_end size')
      end
  end.

Definition advance (b : Buffer) (size : Z) : option (outcome Buffer) :=
  match last_block (m_blocks b) with
  | None => None
  | Some last =>
      let left_in_block := ptr_diff (Block_end last) (m_end b) in
      if left_in_block >? size then
        Some (Returned (set_end b (m_blocks b) (ptr_add (m_end b) size)))
      else
        match advance_loop (S (Z.to_nat size)) [] (m_all b) (m_blockId b)
                size left_in_block with
        | None => None
        | Some (AdvThrew new_blocks all blockId) =>
            let '(all', blockId') := Blocks_dtor new_blocks all blockId in
            Some (Threw (mkBuffer (m_blocks b) (m_iterators b) blockId'
                           (m_begin b) (m_end b) all'))
        | Some (AdvDone new_blocks all blockId new_end size') =>
            Some (Returned (mkBuffer (m_blocks b ++ new_blocks)
                              (m_iterators b) blockId (m_begin b)
                              (ptr_add new_end size') all))
        end
  end.

(** *** addBack(CStr<C...>) *)

(** Utils/CStr.hpp is not part of the sources at hand: a compile-time
    string is taken as its three members, [data] (the characters, padded
    to [rnd_size] bytes), [size] and [rnd_size]. *)
Definition addBack_CStr (b : Buffer) (data : list char) (size rnd_size : Z)
  : option (outcome Buffer) :=
  if size =? 0 then Some (Returned b)
  else
    match last_block (m_blocks b) with
    | None => None
    | Some last =>
        let left_in_block := ptr_diff (Block_end last) (m_end b) in
        if left_in_block >? rnd_size then
          match store (m_blocks b) (m_end b)
                  (firstn (Z.to_nat rnd_size) data) with
          | None => None
          | Some blocks =>
              Some (Returned (set_end b blocks (ptr_add (m_end b) size)))
          end
        else addBack b (firstn (Z.to_nat size) data)
    end.

(** *** dropBack, dropFront *)

(** [assert(c)]: nothing with [NDEBUG], else [c] has to hold. *)
Definition assert (ndebug c : bool) : bool := ndebug || c.

(** [m_iterators.last()], when the registry is not empty. *)
Definition last_iterator (its : list iterator) : option iterator :=
  hd_error (rev its).

(** [m_iterators.isEmpty() || m_iterators.last().m_block != block] *)
Definition last_not_in (its : list iterator) (block : Block) : bool :=
  match last_iterator its with
  | None => true
  | Some l => negb (m_block l =? id block)
  end.

(** The loop of [dropBack] over the block list read from the tail:
    [block] is the head of [rblocks], [block->prev()] the one after it.
    [delBlockAndPrev] deallocates the block and decrements [m_blockId];
    the assertion that follows it sees the block it returned, [tmp]. *)
Fixpoint dropBack_loop (ndebug : bool) (its : list iterator)
  (rblocks : list Block) (all : allocator) (blockId : Z)
  (m_end : ptr) (size left_in_block : Z)
  : option (list Block * allocator * Z * ptr * Z) :=
  match rblocks with
  | [] => None
  | block :: prevs =>
      if size >? left_in_block then
        match prevs with
        | [] => None
        | tmp :: _ =>
            if assert ndebug (last_not_in its tmp) then
              dropBack_loop ndebug its prevs (deallocate all) (blockId - 1)
                (Block_end tmp) (size - left_in_block) DATA_SIZE
            else None
        end
      else Some (rblocks, all, blockId, m_end, size)
  end.

(** The checks under [#ifndef NDEBUG] that close [dropBack]: [block] is
    the tail block left by the loop, [e] the new [m_end] (a position of
    [block]).  Positions of one block are compared by their offsets. *)
Definition dropBack_sanity (its : list iterator) (rblocks : list Block)
  (block : Block) (m_begin e : ptr) : bool :=
  (0 <=? p_off e) &&
  match last_iterator its with
  | Some l =>
      if m_block l =? id block then p_off (m_position l) <=? p_off e
      else true
  | None => true
  end &&
  match first_block (rev rblocks) with
  | Some f => if id f =? id block then p_off m_begin <=? p_off e else true
  | None => true
  end.

Definition dropBack (ndebug : bool) (b : Buffer) (size : Z)
  : option Buffer :=
  if assert ndebug (negb (size =? 0)) then
    match rev (m_blocks b) with
    | [] => None
    | block :: _ =>
        let left_in_block := ptr_diff (m_end b) (Block_begin block) in
        match dropBack_loop ndebug (m_iterators b) (rev (m_blocks b))
                (m_all b) (m_blockId b) (m_end b) size left_in_block with
        | Some (block' :: prevs, all, blockId, e, size') =>
            let e' := ptr_add e (- size') in
            if assert ndebug
                 (dropBack_sanity (m_iterators b) (block' :: prevs) block'
                    (m_begin b) e')
            then Some (mkBuffer (rev (block' :: prevs)) (m_iterators b)
                         blockId (m_begin b) e' all)
            else None
        | _ => None
        end
    end
  else None.

(** [delBlockAndNext] deallocates and leaves [m_blockId] alone. *)
Fixpoint dropFront_loop (blocks : list Block) (all : allocator)
  (m_begin : ptr) (size left_in_block : Z)
  : option (list Block * allocator * ptr * Z) :=
  match blocks with
  | [] => None
  | block :: nexts =>
      if size >? left_in_block then
        match nexts with
        | [] => None
        | tmp :: _ =>
            dropFront_loop nexts (deallocate all) (Block_begin tmp)
              (size - left_in_block) DATA_SIZE
        end
      else Some (blocks, all, m_begin, size)
  end.

Definition dropFront (b : Buffer) (size : Z) : option Buffer :=
  match m_blocks b with
  | [] => None
  | block :: _ =>
      let left_in_block := ptr_diff (Block_end block) (m_begin b) in
      match dropFront_loop (m_blocks b) (m_all b) (m_begin b) size
              left_in_block with
      | None => None
      | Some (blocks, all, bg, size') =>
          Some (mkBuffer blocks (m_iterators b) (m_blockId b)
                  (ptr_add bg size') (m_end b) all)
      end
  end.

(** *** Iterator operations *)

Definition iter_eqb (i a : iterator) : bool :=
  ptr_eqb (m_position i) (m_position a).

(** [operator<]: [std::tie(m_block->id, m_position)] compared
    lexicographically. *)
Definition iter_ltb (i a : iterator) : bool :=
  (m_block i <? m_block a) ||
  ((m_block i =? m_block a) && (p_off (m_position i) <? p_off (m_position a))).

Definition size_t_wrap (z : Z) : Z := z mod 2 ^ 64.

(** [operator-]: [i - a], every step reduced modulo [2^64]. *)
Definition iter_sub (i a : iterator) : Z :=
  let res := size_t_wrap ((m_block i - m_block a) * DATA_SIZE) in
  let res := size_t_wrap (res - ptr_diff (m_position a) (mkPtr (m_block a) 0)) in
  let res := size_t_wrap (res + ptr_diff (m_position i) (mkPtr (m_block i) 0)) in
  res.

Fixpoint moveForward_loop (cur : Block) (rest : list Block) (pos : ptr)
  (step : Z) : option iterator :=
  if step >=? ptr_diff (Block_end cur) pos then
    match rest with
    | [] => None
    | nb :: rest' =>
        moveForward_loop nb rest' (Block_begin nb)
          (step - ptr_diff (Block_end cur) pos)
    end
  else Some (mkIter (id cur) (ptr_add pos step)).

Definition moveForward (blocks : list Block) (i : iterator) (step : Z)
  : option iterator :=
  match blocks_from blocks (m_block i) with
  | [] => None
  | cur :: rest => moveForward_loop cur rest (m_position i) step
  end.

Fixpoint moveBackward_loop (cur : Block) (prevs : list Block) (pos : ptr)
  (step : Z) : option iterator :=
  if step >? ptr_diff pos (Block_begin cur) then
    match prevs with
    | [] => None
    | pb :: prevs' =>
        moveBackward_loop pb prevs' (Block_end pb)
          (step - ptr_diff pos (Block_begin cur))
    end
  else Some (mkIter (id cur) (ptr_add pos (- step))).

Definition moveBackward (blocks : list Block) (i : iterator) (step : Z)
  : option iterator :=
  match blocks_from (rev blocks) (m_block i) with
  | [] => None
  | cur :: prevs => moveBackward_loop cur prevs (m_position i) step
  end.

(** The position reached by [operator++] ([moveForward(1)]; the following
    [adjustPositionForward] only relinks the iterator in the registry). *)
Definition iter_incr (blocks : list Block) (i : iterator) : option iterator :=
  moveForward blocks i 1.

(** *** getIOV(start, end, vecs, max_size) *)

Record iovec := mkIov { iov_base : ptr; iov_len : Z }.

(** Returns the descriptors written to [vecs[0..]] and the final [vec_cnt]. *)
Fixpoint getIOV_loop (block : Block) (rest : list Block) (last_block : Z)
  (end_position pos : ptr) (vec_cnt max_size : Z) : option (list iovec * Z) :=
  if vec_cnt <? max_size then
    let vec_cnt' := vec_cnt + 1 in
    if id block =? last_block then
      Some ([mkIov pos (ptr_diff end_position pos)], vec_cnt')
    else
      let vec := mkIov pos (ptr_diff (Block_end block) pos) in
      match rest with
      | [] => None
      | nb :: rest' =>
          match getIOV_loop nb rest' last_block end_position (Block_begin nb)
                  vec_cnt' max_size with
          | None => None
          | Some (vecs, n) => Some (vec :: vecs, n)
          end
      end
  else Some ([], vec_cnt).

Definition getIOV (b : Buffer) (start end' : iterator) (max_size : Z)
  : option (list iovec * Z) :=
  match blocks_from (m_blocks b) (m_block start) with
  | [] => None
  | block :: rest =>
      getIOV_loop block rest (m_block end') (m_position end')
        (m_position start) 0 max_size
  end.

(** *** set(itr, buf, size) *)

Fixpoint set_loop (blocks : list Block) (cur : Block) (rest : list Block)
  (pos : ptr) (left_in_block : Z) (buf_pos : list char) (size : Z)
  : option (list Block) :=
  if size >? 0 then
    let copy_sz := Z.min size left_in_block in
    match store blocks pos (firstn (Z.to_nat copy_sz) buf_pos) with
    | None => None
    | Some blocks' =>
        let size' := size - copy_sz in
        let buf_pos' := skipn (Z.to_nat copy_sz) buf_pos in
        if size' =? 0 then Some blocks'
        else
          match rest with
          | [] => None
          | nb :: rest' =>
              set_loop blocks' nb rest' (Block_begin nb) DATA_SIZE buf_pos'
                size'
          end
    end
  else Some blocks.

Definition with_blocks (b : Buffer) (blocks : list Block) : Buffer :=
  mkBuffer blocks (m_iterators b) (m_blockId b) (m_begin b) (m_end b)
    (m_all b).

Definition set (b : Buffer) (itr : iterator) (buf : list char) (size : Z)
  : option Buffer :=
  match blocks_from (m_blocks b) (m_block itr) with
  | [] => None
  | block :: rest =>
      option_map (with_blocks b)
        (set_loop (m_blocks b) block rest (m_position itr)
           (ptr_diff (Block_end block) (m_position itr)) buf size)
  end.

(** Typed forms: [t] is the object representation, [sizeof(t) = |t|]. *)
Definition set_T (b : Buffer) (itr : iterator) (t : list char)
  : option Buffer :=
  let t_size := Z.of_nat (length t) in
  if t_size <=? ptr_diff (mkPtr (m_block itr) DATA_SIZE) (m_position itr)
  then option_map (with_blocks b) (store (m_blocks b) (m_position itr) t)
  else set b itr t t_size.

Definition get_T (b : Buffer) (itr : iterator) (sizeof_T : Z)
  : option (list char) :=
  if sizeof_T <=? ptr_diff (mkPtr (m_block itr) DATA_SIZE) (m_position itr)
  then load (m_blocks b) (m_position itr) sizeof_T
  else get b itr sizeof_T.

(** *** flush *)

(** Which operand of [m_iterators.first() - begin()] is evaluated first.
    [begin()] registers its temporary at the head of the registry, so
    [m_iterators.first()] evaluated after it is that temporary. *)
Inductive operand_order : Type :=
| first_then_begin
| begin_then_first.

(** [distance]; the temporaries made by [begin()] and [end()] are gone
    before [dropFront] runs. *)
Definition flush_distance (order : operand_order) (b : Buffer) : option Z :=
  match begin_ b with
  | None => None
  | Some (bg, b1) =>
      match m_iterators b with
      | [] =>
          match end_ b with
          | None => None
          | Some (e, _) => Some (iter_sub e bg)
          end
      | first :: _ =>
          match order with
          | first_then_begin => Some (iter_sub first bg)
          | begin_then_first =>
              match m_iterators b1 with
              | [] => None
              | first' :: _ => Some (iter_sub first' bg)
              end
          end
      end
  end.

Definition flush (order : operand_order) (b : Buffer) : option Buffer :=
  match flush_distance order b with
  | None => None
  | Some distance => if distance >? 0 then dropFront b distance else Some b
  end.

(** *** insert(itr, size) *)

Definition begin_of (blk : Z) : ptr := mkPtr blk 0.
Definition end_of (blk : Z) : ptr := mkPtr blk DATA_SIZE.

(** The macro [src_block_begin]. *)
Definition src_block_begin (itr : iterator) (src_block : Z) : ptr :=
  if src_block =? m_block itr then m_position itr else begin_of src_block.

(** The [for (;;)] loop of [insert]; blocks are named by id. *)
Fixpoint insert_loop (fuel : nat) (itr : iterator) (blocks : list Block)
  (src_block dst_block : Z) (src dst : ptr)
  (left_in_src_block left_in_dst_block copy_chunk_sz : Z)
  : option (list Block) :=
  match fuel with
  | O => None
  | S fuel' =>
      match memmove blocks dst src copy_chunk_sz with
      | None => None
      | Some blocks' =>
          if left_in_dst_block >? left_in_src_block then
            let left_in_dst_block' := left_in_dst_block - copy_chunk_sz in
            if src_block =? m_block itr then Some blocks'
            else
              match prev_block blocks' src_block with
              | None => None
              | Some pb =>
                  let src_block' := id pb in
                  let src' := ptr_add (end_of src_block') (- left_in_dst_block') in
                  let left_in_src_block' :=
                    ptr_diff (end_of src_block') (src_block_begin itr src_block') in
                  let dst' := begin_of dst_block in
                  insert_loop fuel' itr blocks' src_block' dst_block src' dst'
                    left_in_src_block' left_in_dst_block' left_in_dst_block'
              end
          else
            let left_in_src_block' := left_in_src_block - copy_chunk_sz in
            match prev_block blocks' dst_block with
            | None => None
            | Some pb =>
                let dst_block' := id pb in
                let dst' := ptr_add (end_of dst_block') (- left_in_src_block') in
                let src' := begin_of src_block in
                insert_loop fuel' itr blocks' src_block dst_block' src' dst'
                  left_in_src_block' DATA_SIZE left_in_src_block'
            end
      end
  end.

(** [for (tmp = &m_iterators.last(); *tmp != itr; tmp = &tmp->prev())
    tmp->move(size)], over the registry read from its tail. *)
Fixpoint shift_iterators (move : iterator -> option iterator)
  (ritrs : list iterator) (itr : iterator) : option (list iterator) :=
  match ritrs with
  | [] => None
  | tmp :: rest =>
      if negb (iter_eqb tmp itr) then
        match move tmp, shift_iterators move rest itr with
        | Some tmp', Some rest' => Some (tmp' :: rest')
        | _, _ => None
        end
      else Some ritrs
  end.

Definition insert (b : Buffer) (itr : iterator) (size : Z)
  : option (outcome Buffer) :=
  match last_block (m_blocks b) with
  | None => None
  | Some sb =>
      let src_block := id sb in
      let src_block_end := m_end b in
      match advance b size with
      | None => None
      | Some (Threw b') => Some (Threw b')
      | Some (Returned b1) =>
          match last_block (m_blocks b1) with
          | None => None
          | Some db =>
              let dst_block := id db in
              let left_in_dst_block := ptr_diff (m_end b1) (begin_of dst_block) in
              let left_in_src_block :=
                ptr_diff src_block_end (src_block_begin itr src_block) in
              let '(src, dst) :=
                if left_in_dst_block >? left_in_src_block
                then (src_block_begin itr src_block,
                      ptr_add (m_end b1) (- left_in_src_block))
                else (ptr_add src_block_end (- left_in_dst_block),
                      begin_of dst_block) in
              let copy_chunk_sz := Z.min left_in_src_block left_in_dst_block in
              match insert_loop (S (2 * length (m_blocks b1))) itr
                      (m_blocks b1) src_block dst_block src dst
                      left_in_src_block left_in_dst_block copy_chunk_sz with
              | None => None
              | Some blocks' =>
                  match shift_iterators
                          (fun tmp => moveForward blocks' tmp size)
                          (rev (m_iterators b1)) itr with
                  | None => None
                  | Some ritrs =>
                      Some (Returned
                              (mkBuffer blocks' (rev ritrs) (m_blockId b1)
                                 (m_begin b1) (m_end b1) (m_all b1)))
                  end
              end
          end
      end
  end.

(** *** release(itr, size) *)

(** The first loop of [release]: locate [itr + size]. *)
Fixpoint locate_loop (cur : Block) (rest : list Block) (src : ptr) (step : Z)
  : option (Z * ptr) :=
  if step >=? ptr_diff (Block_end cur) src then
    match rest with
    | [] => None
    | nb :: rest' =>
        locate_loop nb rest' (Block_begin nb)
          (step - ptr_diff (Block_end cur) src)
    end
  else Some (id cur, ptr_add src step).

Fixpoint release_loop (fuel : nat) (last : Z) (blocks : list Block)
  (src_block dst_block : Z) (src dst : ptr)
  (left_in_src_block left_in_dst_block copy_chunk_sz : Z)
  : option (list Block) :=
  match fuel with
  | O => None
  | S fuel' =>
      match memmove blocks dst src copy_chunk_sz with
      | None => None
      | Some blocks' =>
          if left_in_dst_block >? left_in_src_block then
            let left_in_dst_block' := left_in_dst_block - copy_chunk_sz in
            if src_block =? last then Some blocks'
            else
              match next_block blocks' src_block with
              | None => None
              | Some nb =>
                  release_loop fuel' last blocks' (id nb) dst_block
                    (begin_of (id nb)) (ptr_add dst copy_chunk_sz)
                    DATA_SIZE left_in_dst_block' left_in_dst_block'
              end
          else
            let left_in_src_block' := left_in_src_block - copy_chunk_sz in
            match next_block blocks' dst_block with
            | None => None
            | Some nb =>
                release_loop fuel' last blocks' src_block (id nb)
                  (ptr_add src copy_chunk_sz) (begin_of (id nb))
                  left_in_src_block' DATA_SIZE left_in_src_block'
            end
      end
  end.

Definition release (ndebug : bool) (b : Buffer) (itr : iterator) (size : Z)
  : option Buffer :=
  match blocks_from (m_blocks b) (m_block itr), last_block (m_blocks b) with
  | cur :: rest, Some lb =>
      match locate_loop cur rest (m_position itr) size with
      | None => None
      | Some (src_block, src) =>
          let dst_block := m_block itr in
          let dst := m_position itr in
          let left_in_dst_block := ptr_diff (end_of dst_block) dst in
          let left_in_src_block := ptr_diff (end_of src_block) src in
          let copy_chunk_sz := Z.min left_in_src_block left_in_dst_block in
          match release_loop (S (2 * length (m_blocks b))) (id lb)
                  (m_blocks b) src_block dst_block src dst
                  left_in_src_block left_in_dst_block copy_chunk_sz with
          | None => None
          | Some blocks' =>
              match shift_iterators
                      (fun tmp => moveBackward blocks' tmp size)
                      (rev (m_iterators b)) itr with
              | None => None
              | Some ritrs =>
                  dropBack ndebug
                    (mkBuffer blocks' (rev ritrs) (m_blockId b)
                       (m_begin b) (m_end b) (m_all b)) size
              end
          end
      end
  | _, _ => None
  end.

Definition resize (ndebug : bool) (b : Buffer) (itr : iterator)
  (size new_size : Z) : option (outcome Buffer) :=
  if new_size >? size then insert b itr (new_size - size)
  else option_map Returned (release ndebug b itr (size - new_size)).


(** *** has(itr, size) *)

(** The [while (block != last_block)] loop of [has] followed by the final
    comparison; [have] is a [size_t], so the pointer difference is reduced
    modulo [2^64]. *)
Fixpoint has_loop (block : Block) (rest : list Block) (last_block : Z)
  (m_end pos : ptr) (size : Z) : option bool :=
  if negb (id block =? last_block) then
    if size <=? DATA_SIZE then Some true
    else
      match rest with
      | [] => None
      | nb :: rest' =>
          has_loop nb rest' last_block m_end (Block_begin nb)
            (size - DATA_SIZE)
      end
  else Some (size <=? size_t_wrap (ptr_diff m_end pos)).

Definition has (b : Buffer) (itr : iterator) (size : Z) : option bool :=
  match blocks_from (m_blocks b) (m_block itr), last_block (m_blocks b) with
  | block :: rest, Some lb =>
      if negb (id block =? id lb) then
        let have := size_t_wrap (ptr_diff (Block_end block) (m_position itr)) in
        if size <=? have then Some true
        else
          match rest with
          | [] => None
          | nb :: rest' =>
              has_loop nb rest' (id lb) (m_end b) (Block_begin nb)
                (size - have)
          end
      else has_loop block rest (id lb) (m_end b) (m_position itr) size
  | _, _ => None
  end.

(** *** empty, getIOV(itr, vecs, max_size) *)

Definition empty (b : Buffer) : bool := ptr_eqb (m_begin b) (m_end b).

(** The temporary made by [end()] is gone when the call returns. *)
Definition getIOV_to_end (b : Buffer) (itr : iterator) (max_size : Z)
  : option (list iovec * Z) :=
  match end_ b with
  | None => None
  | Some (e, b') => getIOV b' itr e max_size
  end.

(** *** ~Buffer *)

(** The destructor deallocates every block; what is left is the pool. *)
Fixpoint Buffer_dtor_loop (blocks : list Block) (all : allocator) : allocator :=
  match blocks with
  | [] => all
  | _ :: rest => Buffer_dtor_loop rest (deallocate all)
  end.

Definition Buffer_dtor (b : Buffer) : allocator :=
  Buffer_dtor_loop (m_blocks b) (m_all b).

(** *** debugSelfCheck *)

(** The loop over [m_blocks]: returns [res] and the final [expectedId]. *)
Fixpoint check_blocks (blocks : list Block) (first : bool) (expectedId : Z)
  (res : Z) : Z * Z :=
  match blocks with
  | [] => (res, expectedId)
  | block :: rest =>
      let res' :=
        if first then res
        else if negb (id block =? expectedId) then Z.lor res 1 else res in
      check_blocks rest false (id block + 1) res'
  end.

(** The loop over [m_iterators]; a position is compared with the bounds of
    the block the iterator names. *)
Fixpoint check_iterators (itrs : list iterator) (res : Z) : Z :=
  match itrs with
  | [] => res
  | itr :: rest =>
      let res1 :=
        if p_off (m_position itr) >=? DATA_SIZE then Z.lor res 4 else res in
      let res2 :=
        if p_off (m_position itr) <? 0 then Z.lor res1 8 else res1 in
      check_iterators rest res2
  end.

Definition debugSelfCheck (b : Buffer) : Z :=
  let '(res, expectedId) := check_blocks (m_blocks b) true (m_blockId b) 0 in
  let res := if negb (expectedId =? m_blockId b) then Z.lor res 2 else res in
  check_iterators (m_iterators b) res.

End WithDataSize.

(** * Invariants of a buffer state *)

Section Invariants.

Variable DATA_SIZE : Z.

(** Blocks carry consecutive ids starting at [h], and each data area has
    [DATA_SIZE] bytes. *)
Fixpoint chain (h : Z) (bs : list Block) : Prop :=
  match bs with
  | [] => True
  | b :: rest =>
      id b = h /\ Z.of_nat (length (data b)) = DATA_SIZE /\ chain (h + 1) rest
  end.

Definition head_id (b : Buffer) : Z :=
  match m_blocks b with
  | x :: _ => id x
  | [] => 0
  end.

Definition nblocks (b : Buffer) : Z := Z.of_nat (length (m_blocks b)).

(** The tail block owns [m_end] and has at least one free byte. *)
Definition tail_has_room (b : Buffer) : Prop :=
  exists last, last_block (m_blocks b) = Some last /\
               p_block (m_end b) = id last /\
               0 <= p_off (m_end b) < DATA_SIZE.

Record wf (b : Buffer) : Prop := mk_wf {
  wf_chain : chain (head_id b) (m_blocks b);
  wf_nonempty : 0 < nblocks b;
  wf_blockId : m_blockId b = head_id b + nblocks b;
  wf_end_block : p_block (m_end b) = m_blockId b - 1;
  wf_end_off : 0 <= p_off (m_end b) < DATA_SIZE;
  wf_begin_block : p_block (m_begin b) = head_id b;
  wf_begin_off : 0 <= p_off (m_begin b) <= DATA_SIZE;
  wf_order : nblocks b = 1 -> p_off (m_begin b) <= p_off (m_end b)
}.

(** Position of a pointer on the line of all data bytes ever allocated. *)
Definition lin (p : ptr) : Z := p_block p * DATA_SIZE + p_off p.

(** Number of bytes between [m_begin] and [m_end]. *)
Definition byte_count (b : Buffer) : Z := lin (m_end b) - lin (m_begin b).

(** A live iterator: it names a block of the list and sits inside that
    block's data area, before its end. *)
Definition live (b : Buffer) (i : iterator) : Prop :=
  p_block (m_position i) = m_block i /\
  head_id b <= m_block i < m_blockId b /\
  0 <= p_off (m_position i) < DATA_SIZE.

(** All data areas in list order. *)
Definition flat (bs : list Block) : list char := concat (map data bs).

(** The logical byte sequence between [m_begin] and [m_end]. *)
Definition contents (b : Buffer) : list char :=
  firstn (Z.to_nat (byte_count b))
    (skipn (Z.to_nat (lin (m_begin b) - head_id b * DATA_SIZE))
       (flat (m_blocks b))).


(** Index on the flat sequence of a pointer into a chain starting at [h]. *)
Definition index (h : Z) (p : ptr) : Z := (p_block p - h) * DATA_SIZE + p_off p.

(** What the [do ... while] loop of [addBack] guarantees when entered with
    main list [blocks], transient list [nb], allocator [all], the bytes [P]
    lying before [new_end], and [buf] still to be copied. *)
Definition addBack_loop_post (h : Z) (blocks nb : list Block)
  (all : allocator) (P buf : list char) (r : loop_exit) : Prop :=
  match r with
  | LoopThrew b1 n1 all' bid' =>
      length b1 = length blocks /\ map id b1 = map id blocks /\
      chain h (b1 ++ n1) /\ bid' = h + Z.of_nat (length (b1 ++ n1)) /\
      firstn (length P) (flat (b1 ++ n1)) = P /\
      (all' + length n1 = all + length nb)%nat
  | LoopDone b1 n1 all' bid' ne buf' size' =>
      length b1 = length blocks /\ map id b1 = map id blocks /\
      chain h (b1 ++ n1) /\ bid' = h + Z.of_nat (length (b1 ++ n1)) /\
      flat (b1 ++ n1)
      = P ++ firstn (length buf - length buf') buf ++
        repeat uninit (Z.to_nat DATA_SIZE) /\
      buf' = skipn (length buf - length buf') buf /\
      size' = Z.of_nat (length buf') /\ size' < DATA_SIZE /\
      (length buf' <= length buf)%nat /\
      ne = mkPtr (bid' - 1) 0 /\
      (length nb < length n1)%nat /\
      (all' + length n1 = all + length nb)%nat
  end.


(** What [addBack(buf)] guarantees of its outcome on a well-formed
    buffer [b]. *)
Definition addBack_post (b : Buffer) (buf : list char) (o : outcome Buffer)
  : Prop :=
  let E := Z.to_nat (index (head_id b) (m_end b)) in
  match o with
  | Returned b' =>
      wf b' /\ head_id b' = head_id b /\ m_begin b' = m_begin b /\
      m_iterators b' = m_iterators b /\
      lin (m_end b') = lin (m_end b) + Z.of_nat (length buf) /\
      (exists G, flat (m_blocks b')
                 = firstn E (flat (m_blocks b)) ++ buf ++ G) /\
      (nblocks b <= nblocks b') /\
      (DATA_SIZE - p_off (m_end b) <= Z.of_nat (length buf) ->
       nblocks b < nblocks b' /\
       (m_all b' + length (m_blocks b') = m_all b + length (m_blocks b))%nat)
  | Threw b' =>
      m_begin b' = m_begin b /\ m_end b' = m_end b /\
      map id (m_blocks b') = map id (m_blocks b) /\
      m_blockId b' = m_blockId b /\ m_iterators b' = m_iterators b /\
      m_all b' = m_all b /\
      firstn E (flat (m_blocks b')) = firstn E (flat (m_blocks b))
  end.


(** What [get] and [set] must leave alone: the cursors (hence the byte
    count), the registry, the block list's shape, the id counter and the
    pool. *)
Definition frame (b b' : Buffer) : Prop :=
  byte_count b' = byte_count b /\
  m_begin b' = m_begin b /\ m_end b' = m_end b /\
  m_iterators b' = m_iterators b /\
  map id (m_blocks b') = map id (m_blocks b) /\ nblocks b' = nblocks b /\
  m_blockId b' = m_blockId b /\ m_all b' = m_all b.


(** [n] applications of [operator++]. *)
Fixpoint iter_steps (blocks : list Block) (n : nat) (i : iterator)
  : option iterator :=
  match n with
  | O => Some i
  | S n' =>
      match iter_incr DATA_SIZE blocks i with
      | Some i' => iter_steps blocks n' i'
      | None => None
      end
  end.

(** The distance formula of the documentation, over the integers. *)
Definition distance (j i : iterator) : Z :=
  (m_block j - m_block i) * DATA_SIZE
  + p_off (m_position j) - p_off (m_position i).


(** An iterator that names a block of the list and lies in its data area,
    the area's end included (where [begin()] may rest after [dropFront]). *)
Definition positioned (b : Buffer) (i : iterator) : Prop :=
  p_block (m_position i) = m_block i /\
  head_id b <= m_block i < m_blockId b /\
  0 <= p_off (m_position i) <= DATA_SIZE.

(** The descriptor of the [k]-th block traversed from [start] to [end']:
    it starts at [start.m_position] in the first block and at the block's
    begin in the others, and ends at [end'.m_position] in the last block
    and at the block's end in the others. *)
Definition span_of (start end' : iterator) (k : nat) : iovec :=
  let blk := m_block start + Z.of_nat k in
  let base := match k with O => m_position start | S _ => mkPtr blk 0 end in
  mkIov base
    ((if blk =? m_block end' then p_off (m_position end') else DATA_SIZE)
     - p_off base).

(** The bytes the descriptors of [vecs] point at, concatenated. *)
Fixpoint iov_bytes (blocks : list Block) (vecs : list iovec)
  : option (list char) :=
  match vecs with
  | [] => Some []
  | v :: vs =>
      match load DATA_SIZE blocks (iov_base v) (iov_len v),
            iov_bytes blocks vs with
      | Some x, Some y => Some (x ++ y)
      | _, _ => None
      end
  end.


(** Blocks read from the tail: ids going down by one from [top]. *)
Fixpoint dchain (top : Z) (bs : list Block) : Prop :=
  match bs with
  | [] => True
  | b :: rest => id b = top /\ dchain (top - 1) rest
  end.


(** Chunks held by the buffer plus chunks left in the pool. *)
Definition chunks (b : Buffer) : nat := (m_all b + length (m_blocks b))%nat.


(** Every block's id is one more than its predecessor's, [prev] being the
    id before the first. *)
Fixpoint consecutive (prev : Z) (bs : list Block) : Prop :=
  match bs with
  | [] => True
  | b :: rest => id b = prev + 1 /\ consecutive (id b) rest
  end.

Definition ids_consecutive (bs : list Block) : Prop :=
  match bs with
  | [] => True
  | b :: rest => consecutive (id b) rest
  end.

Definition in_block (i : iterator) : Prop :=
  0 <= p_off (m_position i) < DATA_SIZE.


(** The precondition under which [insert] and [release] stay inside the
    tail block: [itr] is registered and lies in the tail block, and the
    iterators registered after it lie in the tail block too, at offsets
    from [lo] to [m_end]. *)
Definition in_tail (b : Buffer) (itr : iterator) (lo : Z)
  (pre post : list iterator) : Prop :=
  m_iterators b = pre ++ itr :: post /\
  m_block itr = m_blockId b - 1 /\
  p_block (m_position itr) = m_blockId b - 1 /\
  0 <= p_off (m_position itr) <= p_off (m_end b) /\
  Forall (fun j => m_block j = m_blockId b - 1 /\
                   p_block (m_position j) = m_blockId b - 1 /\
                   p_off (m_position itr) < p_off (m_position j) /\
                   lo <= p_off (m_position j) <= p_off (m_end b)) post.

(** What the assertions of [dropBack(k)] ask of the last registered
    iterator: its block lies wholly before the new end, or no block is
    freed and it is in the tail block, at or before the new end. *)
Definition clear_of_drop (b : Buffer) (k : Z) (l : iterator) : Prop :=
  (m_block l + 1) * DATA_SIZE <= lin (m_end b) - k \/
  (k <= p_off (m_end b) /\ m_block l = p_block (m_end b) /\
   p_off (m_position l) <= p_off (m_end b) - k).

(** The build has no assertion, or the registry is empty or ends with an
    iterator clear of the drop. *)
Definition dropBack_asserts (ndebug : bool) (b : Buffer) (k : Z) : Prop :=
  ndebug = true \/
  forall l, last_iterator (m_iterators b) = Some l -> clear_of_drop b k l.

(** An iterator moved by [n] bytes inside its block. *)
Definition shifted (n : Z) (j : iterator) : iterator :=
  mkIter (m_block j) (ptr_add (m_position j) n).

End Invariants.

(** * Sample buffers, with [DATA_SIZE = 16] *)

(** The state [Buffer::Buffer] leaves behind when the pool then has [all]
    chunks left. *)
Definition sample_fresh (all : allocator) : Buffer :=
  mkBuffer [mkBlock 0 (repeat uninit 16)] [] 1 (mkPtr 0 0) (mkPtr 0 0) all.

Definition returned_of (o : option (outcome Buffer)) : Buffer :=
  match o with
  | Some (Returned b) => b
  | _ => sample_fresh 0%nat
  end.

Definition threw_of (o : option (outcome Buffer)) : Buffer :=
  match o with
  | Some (Threw b) => b
  | _ => sample_fresh 0%nat
  end.

Definition with_iterators (b : Buffer) (its : list iterator) : Buffer :=
  mkBuffer (m_blocks b) its (m_blockId b) (m_begin b) (m_end b) (m_all b).

(** "ABCDEFGHIJKLMNO" *)
Definition letters15 : list char :=
  [x41; x42; x43; x44; x45; x46; x47; x48; x49; x4a; x4b; x4c; x4d; x4e; x4f].

(** "ABCDEABCDEFGHIJKO" *)
Definition letters17_inserted : list char :=
  [x41; x42; x43; x44; x45; x41; x42; x43; x44; x45; x46; x47; x48; x49; x4a;
   x4b; x4f].

(** "ABCABCDEFGHIJKO" *)
Definition letters15_damaged : list char :=
  [x41; x42; x43; x41; x42; x43; x44; x45; x46; x47; x48; x49; x4a; x4b; x4f].

(** Fifteen bytes in one block; iterators at offsets 3, 5 and 15. *)
Definition sample15 : Buffer :=
  Eval vm_compute in
    with_iterators (returned_of (addBack 16 (sample_fresh 4%nat) letters15))
      [mkIter 0 (mkPtr 0 3); mkIter 0 (mkPtr 0 5); mkIter 0 (mkPtr 0 15)].

(** Twenty bytes over two blocks, no iterator. *)
Definition sample20 : Buffer :=
  Eval vm_compute in
    returned_of (addBack 16 (sample_fresh 4%nat)
                   (letters15 ++ [x50; x51; x52; x53; x54])).

(** The same with one iterator at byte 16, the first byte of block 1. *)
Definition sample20_it : Buffer :=
  Eval vm_compute in with_iterators sample20 [mkIter 1 (mkPtr 1 0)].

(** The same with one iterator at byte 7. *)
Definition sample20_it7 : Buffer :=
  Eval vm_compute in with_iterators sample20 [mkIter 0 (mkPtr 0 7)].

(** A fresh buffer whose pool has one chunk left, and what a 40-byte
    append leaves of it. *)
Definition sample_starved : Buffer := sample_fresh 1%nat.

Definition sample_starved_after : Buffer :=
  Eval vm_compute in threw_of (addBack 16 sample_starved (repeat x61 40%nat)).

Definition some_of (o : option Buffer) : Buffer :=
  match o with
  | Some b => b
  | None => sample_fresh 0%nat
  end.

(** "ABCDEFGHIJKLMNOPQRST" *)
Definition letters20 : list char := letters15 ++ [x50; x51; x52; x53; x54].

(** [sample20] after [dropBack(5)]. *)
Definition sample20_dropped : Buffer :=
  Eval vm_compute in some_of (dropBack 16 false sample20 5).

(** [sample20_it] after [dropFront(16)]: four bytes left, [m_begin] at the
    end of block 0. *)
Definition sample20_flushed : Buffer :=
  Eval vm_compute in some_of (dropFront 16 sample20_it 16).

(** A fresh buffer after an append that fills its block exactly. *)
Definition sample_exact : Buffer :=
  Eval vm_compute in
    returned_of (addBack 16 (sample_fresh 4%nat) (repeat x61 16%nat)).

(** [sample15] after [insert(i, 2)] at the iterator of offset 3, and after
    the [release(i, 2)] that follows, in a build with [NDEBUG]. *)
Definition sample15_inserted : Buffer :=
  Eval vm_compute in returned_of (insert 16 sample15 (mkIter 0 (mkPtr 0 3)) 2).

Definition sample15_released : Buffer :=
  Eval vm_compute in
    some_of (release 16 true sample15_inserted (mkIter 0 (mkPtr 0 3)) 2).

(** Eight bytes in one block; iterators at offsets 3, 5 and 8. *)
Definition sample8 : Buffer :=
  Eval vm_compute in
    with_iterators
      (returned_of (addBack 16 (sample_fresh 4%nat) (firstn 8 letters15)))
      [mkIter 0 (mkPtr 0 3); mkIter 0 (mkPtr 0 5); mkIter 0 (mkPtr 0 8)].

(** [sample8] after an append of four bytes, which fit in its block, and
    after one of ten bytes, which take a second block. *)
Definition sample8_plus4 : Buffer :=
  Eval vm_compute in returned_of (addBack 16 sample8 [x61; x62; x63; x64]).

Definition sample8_plus10 : Buffer :=
  Eval vm_compute in returned_of (addBack 16 sample8 (repeat x61 10%nat)).

(** A fresh buffer after [addBack] of a three-character literal padded to
    eight bytes. *)
Definition sample_cstr : Buffer :=
  Eval vm_compute in
    returned_of (addBack_CStr 16 (sample_fresh 4%nat) (firstn 8 letters15)
                   3 8).

(** * Properties *)

Section Properties.

Variable DATA_SIZE : Z.
Hypothesis DATA_SIZE_pos : 0 < DATA_SIZE.

Abbreviation chain := (chain DATA_SIZE).
Abbreviation wf := (wf DATA_SIZE).
Abbreviation live := (live DATA_SIZE).
Abbreviation lin := (lin DATA_SIZE).
Abbreviation index := (index DATA_SIZE).

(** ** Block list navigation *)

Lemma last_block_snoc (l : list Block) (x : Block) :
  last_block (l ++ [x]) = Some x.
Proof. unfold last_block. rewrite rev_app_distr. reflexivity. Qed.

Lemma chain_app (h : Z) (l1 l2 : list Block) :
  chain h (l1 ++ l2) <-> chain h l1 /\ chain (h + Z.of_nat (length l1)) l2.
Proof.
  revert h. induction l1 as [|x l1 IH]; intros h; simpl.
  - rewrite Z.add_0_r. tauto.
  - rewrite IH. replace (h + 1 + Z.of_nat (length l1))
      with (h + Z.pos (Pos.of_succ_nat (length l1))) by lia. tauto.
Qed.

Lemma blocks_from_chain (h i : Z) (l : list Block) :
  chain h l -> h <= i < h + Z.of_nat (length l) ->
  exists cur rest, blocks_from l i = cur :: rest /\ id cur = i /\
                   chain i (cur :: rest) /\
                   l = firstn (Z.to_nat (i - h)) l ++ cur :: rest.
Proof.
  revert h. induction l as [|x l IH]; intros h Hc Hi; simpl in *; [lia|].
  destruct Hc as (Hid & Hlen & Hc).
  destruct (Z.eqb_spec (id x) i) as [E|E].
  - exists x, l. subst. replace (id x - id x) with 0 by lia. simpl. tauto.
  - destruct (IH (h + 1) Hc) as (cur & rest & H1 & H2 & H3 & H4); [lia|].
    exists cur, rest. repeat split; try tauto.
    replace (Z.to_nat (i - h)) with (S (Z.to_nat (i - (h + 1)))) by lia.
    simpl. now rewrite <- H4.
Qed.

Lemma wf_blocks_from (b : Buffer) (i : Z) :
  wf b -> head_id b <= i < m_blockId b ->
  exists cur rest, blocks_from (m_blocks b) i = cur :: rest /\ id cur = i /\
                   chain i (cur :: rest).
Proof.
  intros W Hi.
  destruct (blocks_from_chain (head_id b) i (m_blocks b))
    as (cur & rest & H1 & H2 & H3 & _).
  - apply W.
  - rewrite (wf_blockId _ _ W) in Hi. unfold nblocks in Hi. lia.
  - eauto.
Qed.

(** ** getIOV *)

Lemma getIOV_loop_count (block : Block) (rest : list Block) (last : Z)
  (e pos : ptr) (cnt max : Z) (vecs : list iovec) (n : Z) :
  getIOV_loop DATA_SIZE block rest last e pos cnt max = Some (vecs, n) ->
  n = cnt + Z.of_nat (length vecs) /\ (cnt < max -> cnt < n) /\
  (cnt <= max -> n <= max).
Proof.
  revert block pos cnt vecs n.
  induction rest as [|nb rest IH]; intros block pos cnt vecs n; simpl;
    destruct (Z.ltb_spec cnt max); try (intros [= <- <-]; simpl; lia);
    destruct (id block =? last); try (intros [= <- <-]; simpl; lia);
    try discriminate.
  destruct (getIOV_loop _ nb rest last e _ (cnt + 1) max) as [[vs m]|] eqn:E;
    [|discriminate].
  intros [= <- <-]. apply IH in E. simpl. lia.
Qed.


(** C10.  For an empty range ([start == end], both lying in the block
    list, be it at a block's end as [begin()] may) and
    [max_size >= 1], [getIOV] returns 1 after writing the single
    descriptor [{start.m_position, 0}]; and whatever the range, a call with
    [max_size >= 1] that returns has written at least one descriptor. *)
Theorem getIOV_empty_range :
  (forall (b : Buffer) (start end' : iterator) (max_size : Z),
      wf b -> positioned DATA_SIZE b start -> positioned DATA_SIZE b end' ->
      iter_eqb start end' = true -> 1 <= max_size ->
      getIOV DATA_SIZE b start end' max_size
      = Some ([mkIov (m_position start) 0], 1)) /\
  (forall (b : Buffer) (start end' : iterator) (max_size : Z)
          (vecs : list iovec) (n : Z),
      getIOV DATA_SIZE b start end' max_size = Some (vecs, n) ->
      1 <= max_size -> 1 <= n /\ n = Z.of_nat (length vecs)).
Proof.
  split.
  - intros b start end' max_size W (Hp & Hb & Ho) (Hp' & Hb' & Ho') Heq Hmax.
    unfold getIOV.
    destruct (wf_blocks_from b (m_block start) W Hb)
      as (cur & rest & -> & Hid & _).
    unfold iter_eqb, ptr_eqb in Heq. apply andb_prop in Heq as [E1 E2].
    apply Z.eqb_eq in E1, E2.
    destruct rest; simpl;
      (destruct (Z.ltb_spec 0 max_size); [|lia]);
      (destruct (Z.eqb_spec (id cur) (m_block end')); [|congruence]);
      unfold ptr_diff; rewrite E2, Z.sub_diag; reflexivity.
  - intros b start end' max_size vecs n H Hmax. unfold getIOV in H.
    destruct (blocks_from (m_blocks b) (m_block start)); [discriminate|].
    apply getIOV_loop_count in H. lia.
Qed.


(** ** dropBack *)

Lemma dropBack_loop_counts (ndebug : bool) (its : list iterator)
  (rb : list Block) (all : allocator) (bid : Z)
  (e : ptr) (size left : Z) rb' all' bid' e' size' :
  dropBack_loop DATA_SIZE ndebug its rb all bid e size left
  = Some (rb', all', bid', e', size') ->
  bid' = bid - (Z.of_nat (length rb) - Z.of_nat (length rb')) /\
  (length rb' <= length rb)%nat /\
  (size <= left -> rb' = rb /\ e' = e /\ size' = size) /\
  (size > left -> (length rb' < length rb)%nat).
Proof.
  revert all bid e size left.
  induction rb as [|block prevs IH]; intros all bid e size left;
    cbn [dropBack_loop]; [discriminate|].
  destruct (Z.gtb_spec size left) as [G|G].
  - destruct prevs as [|tmp prevs']; [discriminate|].
    destruct (assert ndebug (last_not_in its tmp)); [|discriminate].
    intros H. apply IH in H. destruct H as (E1 & E2 & _ & _).
    cbn [length] in *. repeat split; try lia; intros; exfalso; lia.
  - intros [= <- <- <- <- <-]. repeat split; lia.
Qed.

(** What a returning [dropBack] went through. *)
Lemma dropBack_inv (ndebug : bool) (b b' : Buffer) (k : Z) :
  dropBack DATA_SIZE ndebug b k = Some b' ->
  exists rb' all' bid' e' size',
    dropBack_loop DATA_SIZE ndebug (m_iterators b) (rev (m_blocks b))
      (m_all b) (m_blockId b) (m_end b) k (p_off (m_end b))
    = Some (rb', all', bid', e', size') /\
    rb' <> [] /\ m_blocks b <> [] /\
    b' = mkBuffer (rev rb') (m_iterators b) bid' (m_begin b)
           (ptr_add e' (- size')) all'.
Proof.
  unfold dropBack. intros H.
  destruct (assert ndebug (negb (k =? 0))); [|discriminate].
  destruct (rev (m_blocks b)) as [|block prevs] eqn:Er; [discriminate|].
  unfold ptr_diff, Block_begin in H. cbn [p_off] in H.
  rewrite Z.sub_0_r in H.
  destruct (dropBack_loop _ _ _ _ _ _ _ _ _)
    as [[[[[[|block' prevs'] all'] bid'] e'] size']|] eqn:El;
    try discriminate.
  destruct (assert ndebug _); [|discriminate].
  injection H as <-.
  exists (block' :: prevs'), all', bid', e', size'.
  repeat split; try reflexivity; try discriminate.
  intros E. rewrite E in Er. discriminate.
Qed.

(** The assertions only take outcomes away. *)
Lemma dropBack_loop_ndebug (ndebug : bool) (its : list iterator)
  (rb : list Block) :
  forall (all : allocator) (bid : Z) (e : ptr) (size left : Z) r,
    dropBack_loop DATA_SIZE ndebug its rb all bid e size left = Some r ->
    dropBack_loop DATA_SIZE true its rb all bid e size left = Some r.
Proof.
  induction rb as [|block prevs IH]; intros all bid e size left r;
    cbn [dropBack_loop]; [discriminate|].
  destruct (size >? left); [|trivial].
  destruct prevs as [|tmp prevs']; [discriminate|].
  destruct (assert ndebug (last_not_in its tmp)); [|discriminate].
  cbn [assert orb]. apply IH.
Qed.

Lemma dropBack_ndebug (ndebug : bool) (b b' : Buffer) (k : Z) :
  dropBack DATA_SIZE ndebug b k = Some b' ->
  dropBack DATA_SIZE true b k = Some b'.
Proof.
  intros H. destruct (dropBack_inv _ _ _ _ H)
    as (rb' & all' & bid' & e' & size' & El & Hrb & Hb & ->).
  apply dropBack_loop_ndebug in El.
  unfold dropBack. cbn [assert orb].
  destruct (rev (m_blocks b)) as [|block prevs] eqn:Er.
  { exfalso. apply Hb. rewrite <- (rev_involutive (m_blocks b)), Er.
    reflexivity. }
  unfold ptr_diff, Block_begin. cbn [p_off]. rewrite Z.sub_0_r, El.
  destruct rb' as [|block' prevs']; [contradiction|]. reflexivity.
Qed.

(** C2 (as the code has it).  [dropBack] goes through [delBlockAndPrev],
    which decrements [m_blockId]: after [dropBack(k)] the counter equals
    its previous value minus the number of blocks freed.  It keeps its
    value exactly when [k] does not exceed the bytes held by the tail
    block, and is strictly smaller otherwise, with and without
    [NDEBUG]. *)
Theorem dropBack_blockId (ndebug : bool) (b b' : Buffer) (k : Z) :
  dropBack DATA_SIZE ndebug b k = Some b' ->
  m_blockId b' = m_blockId b - (nblocks b - nblocks b') /\
  (k <= p_off (m_end b) -> m_blockId b' = m_blockId b) /\
  (k > p_off (m_end b) -> m_blockId b' < m_blockId b).
Proof.
  unfold nblocks. intros H.
  destruct (dropBack_inv _ _ _ _ H)
    as (rb' & all' & bid' & e' & size' & El & _ & _ & ->).
  cbn [m_blockId m_blocks].
  apply dropBack_loop_counts in El.
  rewrite !length_rev in *.
  destruct El as (E1 & E2 & E3 & E4). repeat split.
  - lia.
  - intros Hk. destruct (E3 Hk) as (-> & _). rewrite length_rev in E1. lia.
  - intros Hk. specialize (E4 Hk). lia.
Qed.


(** ** Memory seen as one flat byte sequence *)

Lemma splice_length (d : list char) (off : Z) (bytes : list char) :
  0 <= off -> off + Z.of_nat (length bytes) <= Z.of_nat (length d) ->
  length (splice d off bytes) = length d.
Proof.
  intros H1 H2. unfold splice.
  rewrite !length_app, length_firstn, length_skipn. lia.
Qed.

Lemma splice_app_l (d r : list char) (off : Z) (bytes : list char) :
  0 <= off -> off + Z.of_nat (length bytes) <= Z.of_nat (length d) ->
  splice (d ++ r) off bytes = splice d off bytes ++ r.
Proof.
  intros H1 H2. unfold splice.
  rewrite firstn_app, skipn_app.
  replace (Z.to_nat off - length d)%nat with 0%nat by lia.
  replace (Z.to_nat off + length bytes - length d)%nat with 0%nat by lia.
  simpl. rewrite app_nil_r, <- !app_assoc. reflexivity.
Qed.

Lemma splice_app_r (d r : list char) (off : Z) (bytes : list char) :
  0 <= off ->
  splice (d ++ r) (Z.of_nat (length d) + off) bytes = d ++ splice r off bytes.
Proof.
  intros H1. unfold splice.
  rewrite firstn_app, skipn_app.
  replace (Z.to_nat (Z.of_nat (length d) + off)) with
    (length d + Z.to_nat off)%nat by lia.
  rewrite firstn_all2 by lia. rewrite skipn_all2 by lia.
  replace (length d + Z.to_nat off - length d)%nat with (Z.to_nat off) by lia.
  replace (length d + Z.to_nat off + length bytes - length d)%nat
    with (Z.to_nat off + length bytes)%nat by lia.
  simpl. rewrite <- app_assoc. reflexivity.
Qed.

Lemma flat_app (l1 l2 : list Block) : flat (l1 ++ l2) = flat l1 ++ flat l2.
Proof. unfold flat. now rewrite map_app, concat_app. Qed.

Lemma chain_flat_length (h : Z) (bs : list Block) :
  chain h bs ->
  Z.of_nat (length (flat bs)) = Z.of_nat (length bs) * DATA_SIZE.
Proof.
  revert h. induction bs as [|b bs IH]; intros h Hc; [reflexivity|].
  destruct Hc as (_ & Hl & Hc). apply IH in Hc.
  change (flat (b :: bs)) with (data b ++ flat bs).
  rewrite length_app. cbn [length]. lia.
Qed.

Lemma store_chain (h : Z) (bs : list Block) (p : ptr) (bytes : list char) :
  chain h bs -> h <= p_block p < h + Z.of_nat (length bs) ->
  0 <= p_off p -> p_off p + Z.of_nat (length bytes) <= DATA_SIZE ->
  exists bs', store DATA_SIZE bs p bytes = Some bs' /\ chain h bs' /\
              map id bs' = map id bs /\
              flat bs' = splice (flat bs) (index h p) bytes.
Proof.
  revert h. induction bs as [|b bs IH]; intros h Hc Hb H0 H1;
    cbn [length] in Hb; [lia|].
  destruct Hc as (Hid & Hl & Hc). cbn [store].
  destruct (Z.eqb_spec (id b) (p_block p)) as [E|E].
  - unfold in_area.
    replace (0 <=? p_off p) with true by (symmetry; apply Z.leb_le; lia).
    replace (0 <=? Z.of_nat (length bytes)) with true
      by (symmetry; apply Z.leb_le; lia).
    replace (p_off p + Z.of_nat (length bytes) <=? DATA_SIZE) with true
      by (symmetry; apply Z.leb_le; lia).
    cbn [andb]. eexists. split; [reflexivity|]. split; [|split].
    + cbn [chain id data]. rewrite splice_length by lia. tauto.
    + reflexivity.
    + unfold index. replace (p_block p - h) with 0 by lia.
      rewrite Z.mul_0_l, Z.add_0_l.
      change (flat (b :: bs)) with (data b ++ flat bs).
      rewrite splice_app_l by lia. reflexivity.
  - destruct (IH (h + 1) Hc) as (bs' & E1 & E2 & E3 & E4); try lia.
    rewrite E1. cbn [option_map]. eexists. split; [reflexivity|].
    split; [|split].
    + cbn [chain]. tauto.
    + cbn [map]. now rewrite E3.
    + change (flat (b :: bs')) with (data b ++ flat bs').
      change (flat (b :: bs)) with (data b ++ flat bs).
      rewrite E4. unfold index.
      replace ((p_block p - h) * DATA_SIZE + p_off p) with
        (Z.of_nat (length (data b)) +
         ((p_block p - (h + 1)) * DATA_SIZE + p_off p)) by lia.
      rewrite splice_app_r; [reflexivity|]. nia.
Qed.

Lemma load_chain (h : Z) (bs : list Block) (p : ptr) (n : Z) :
  chain h bs -> h <= p_block p < h + Z.of_nat (length bs) ->
  0 <= p_off p -> 0 <= n -> p_off p + n <= DATA_SIZE ->
  load DATA_SIZE bs p n
  = Some (firstn (Z.to_nat n) (skipn (Z.to_nat (index h p)) (flat bs))).
Proof.
  revert h. induction bs as [|b bs IH]; intros h Hc Hb H0 Hn H1;
    cbn [length] in Hb; [lia|].
  destruct Hc as (Hid & Hl & Hc). cbn [load].
  change (flat (b :: bs)) with (data b ++ flat bs).
  destruct (Z.eqb_spec (id b) (p_block p)) as [E|E].
  - unfold in_area.
    replace (0 <=? p_off p) with true by (symmetry; apply Z.leb_le; lia).
    replace (0 <=? n) with true by (symmetry; apply Z.leb_le; lia).
    replace (p_off p + n <=? DATA_SIZE) with true
      by (symmetry; apply Z.leb_le; lia).
    cbn [andb]. f_equal. unfold index.
    replace (p_block p - h) with 0 by lia. rewrite Z.mul_0_l, Z.add_0_l.
    rewrite skipn_app, firstn_app, length_skipn.
    replace (Z.to_nat n - (length (data b) - Z.to_nat (p_off p)))%nat
      with 0%nat by lia.
    cbn [firstn]. now rewrite app_nil_r.
  - rewrite (IH (h + 1)) by (assumption || lia). f_equal. unfold index.
    rewrite skipn_app.
    assert (Hk : 0 <= (p_block p - (h + 1)) * DATA_SIZE)
      by (apply Z.mul_nonneg_nonneg; lia).
    replace ((p_block p - h) * DATA_SIZE)
      with ((p_block p - (h + 1)) * DATA_SIZE + DATA_SIZE) by ring.
    replace (Z.to_nat ((p_block p - (h + 1)) * DATA_SIZE + DATA_SIZE + p_off p) -
             length (data b))%nat
      with (Z.to_nat ((p_block p - (h + 1)) * DATA_SIZE + p_off p)) by lia.
    rewrite (@skipn_all2 _ _ (data b)) by lia. reflexivity.
Qed.


Lemma splice_tail (P G bytes : list char) :
  splice (P ++ G) (Z.of_nat (length P)) bytes
  = P ++ bytes ++ skipn (length bytes) G.
Proof.
  unfold splice. rewrite Nat2Z.id, firstn_app, skipn_app.
  rewrite firstn_all, Nat.sub_diag. cbn [firstn]. rewrite app_nil_r.
  rewrite (@skipn_all2 _ _ P) by lia.
  replace (length P + length bytes - length P)%nat with (length bytes) by lia.
  reflexivity.
Qed.

Lemma firstn_firstn_skipn (A : Type) (a b : nat) (l : list A) :
  firstn a l ++ firstn b (skipn a l) = firstn (a + b) l.
Proof.
  revert l. induction a as [|a IH]; intros l; [reflexivity|].
  destruct l as [|x l]; cbn [firstn skipn Nat.add app].
  - now rewrite firstn_nil.
  - now rewrite IH.
Qed.

Lemma memcpy2_chain (h : Z) (blocks nb : list Block) (p : ptr)
  (bytes : list char) :
  chain h (blocks ++ nb) -> (0 < length blocks)%nat ->
  p_block p = h + Z.of_nat (length (blocks ++ nb)) - 1 ->
  0 <= p_off p -> p_off p + Z.of_nat (length bytes) <= DATA_SIZE ->
  exists b1 n1,
    memcpy2 DATA_SIZE blocks nb p bytes = Some (b1, n1) /\
    chain h (b1 ++ n1) /\ length b1 = length blocks /\
    length n1 = length nb /\ map id b1 = map id blocks /\
    flat (b1 ++ n1) = splice (flat (blocks ++ nb)) (index h p) bytes.
Proof.
  intros Hc Hne Hp H0 H1. rewrite length_app in Hp.
  apply chain_app in Hc as [Hc1 Hc2]. unfold memcpy2.
  destruct nb as [|x nb'].
  - cbn [store]. cbn [length] in Hp.
    assert (Hr : h <= p_block p < h + Z.of_nat (length blocks)) by lia.
    destruct (store_chain h blocks p bytes Hc1 Hr H0 H1)
      as (bs' & E1 & E2 & E3 & E4).
    rewrite E1. exists bs', []. rewrite !app_nil_r.
    assert (length bs' = length blocks)
      by (rewrite <- (length_map id bs'), E3; apply length_map).
    repeat split; auto.
  - assert (Hr : h + Z.of_nat (length blocks) <= p_block p
                 < h + Z.of_nat (length blocks) + Z.of_nat (length (x :: nb')))
      by (cbn [length] in *; lia).
    destruct (store_chain _ (x :: nb') p bytes Hc2 Hr H0 H1)
      as (bs' & E1 & E2 & E3 & E4).
    rewrite E1. exists blocks, bs'.
    assert (length bs' = length (x :: nb'))
      by (rewrite <- (length_map id bs'), E3; apply length_map).
    repeat split; auto.
    + apply chain_app. split; assumption.
    + rewrite !flat_app, E4. unfold index.
      pose proof (chain_flat_length h blocks Hc1) as Hl.
      replace ((p_block p - h) * DATA_SIZE + p_off p) with
        (Z.of_nat (length (flat blocks)) +
         ((p_block p - (h + Z.of_nat (length blocks))) * DATA_SIZE + p_off p))
        by (rewrite Hl; ring).
      rewrite splice_app_r; [reflexivity|].
      cbn [length] in Hp.
      assert (0 <= (p_block p - (h + Z.of_nat (length blocks))) * DATA_SIZE)
        by (apply Z.mul_nonneg_nonneg; lia).
      lia.
Qed.


(** ** addBack *)

Lemma firstn_prefix (A : Type) (P Q X : list A) :
  firstn (length (P ++ Q)) X = P ++ Q -> firstn (length P) X = P.
Proof.
  intros H.
  replace (firstn (length P) X)
    with (firstn (length P) (firstn (length (P ++ Q)) X)).
  - rewrite H, firstn_app, firstn_all, Nat.sub_diag. cbn [firstn].
    apply app_nil_r.
  - rewrite firstn_firstn. f_equal. rewrite length_app. lia.
Qed.

Lemma addBack_loop_spec (fuel : nat) :
  forall (blocks nb : list Block) (all : allocator) (bid : Z) (new_end : ptr)
         (buf : list char) (size left h : Z) (P G : list char),
    chain h (blocks ++ nb) -> (0 < length blocks)%nat ->
    bid = h + Z.of_nat (length (blocks ++ nb)) ->
    p_block new_end = bid - 1 -> p_off new_end = DATA_SIZE - left ->
    0 < left <= DATA_SIZE ->
    flat (blocks ++ nb) = P ++ G -> Z.of_nat (length G) = left ->
    Z.of_nat (length buf) = size -> left <= size ->
    size - left < Z.of_nat fuel ->
    exists r,
      addBack_loop DATA_SIZE fuel blocks nb all bid new_end buf size left
      = Some r /\
      addBack_loop_post DATA_SIZE h blocks nb all P buf r.
Proof.
  induction fuel as [|f IH];
    intros blocks nb all bid new_end buf size left h P G
           Hc Hne Hbid Hpb Hpo Hleft Hflat HG Hbuf Hle Hfuel; [lia|].
  cbn [addBack_loop].
  set (bytes := firstn (Z.to_nat left) buf).
  assert (Hbytes : length bytes = Z.to_nat left)
    by (unfold bytes; rewrite length_firstn; lia).
  assert (HP : Z.of_nat (length P) = index h new_end).
  { pose proof (chain_flat_length _ _ Hc) as Hl.
    rewrite Hflat, length_app in Hl. unfold index.
    rewrite Hpb, Hpo, Hbid. lia. }
  destruct (memcpy2_chain h blocks nb new_end bytes Hc Hne)
    as (b1 & n1 & E & Hc1 & Hl1 & Hln & Hid1 & Hf1); try lia.
  rewrite E. rewrite <- HP, Hflat, splice_tail in Hf1.
  rewrite skipn_all2, app_nil_r in Hf1 by lia.
  assert (Hlen1 : length (b1 ++ n1) = length (blocks ++ nb))
    by (rewrite !length_app; lia).
  unfold newBlock. destruct all as [|all']; cbn [allocate].
  - eexists. split; [reflexivity|]. cbn [addBack_loop_post].
    repeat split; auto; try lia; try (rewrite Hlen1; exact Hbid).
    rewrite Hf1, firstn_app, firstn_all, Nat.sub_diag. cbn [firstn].
    apply app_nil_r.
  - set (b := mkBlock bid (repeat uninit (Z.to_nat DATA_SIZE))).
    assert (Hc2 : chain h (b1 ++ n1 ++ [b])).
    { rewrite app_assoc. apply chain_app. split; [assumption|].
      cbn [chain b id data]. rewrite repeat_length, Hlen1. lia. }
    assert (Hf2 : flat (b1 ++ n1 ++ [b])
                  = (P ++ bytes) ++ repeat uninit (Z.to_nat DATA_SIZE)).
    { rewrite app_assoc, flat_app, Hf1. unfold flat. cbn [map concat b data].
      now rewrite app_nil_r. }
    assert (Hskip : length (skipn (Z.to_nat left) buf)
                    = (length buf - Z.to_nat left)%nat)
      by apply length_skipn.
    destruct (Z.geb_spec (size - left) DATA_SIZE) as [Hge|Hlt].
    + destruct (IH b1 (n1 ++ [b]) all' (bid + 1) (Block_begin b)
                  (skipn (Z.to_nat left) buf) (size - left) DATA_SIZE h
                  (P ++ bytes) (repeat uninit (Z.to_nat DATA_SIZE)))
        as (r & Er & Hpost); try assumption; try lia.
      * rewrite !length_app in *. cbn [length]. lia.
      * cbn [Block_begin b id p_block]. lia.
      * cbn [Block_begin p_off]. lia.
      * rewrite repeat_length. lia.
      * rewrite Er. exists r. split; [reflexivity|].
        destruct r as [b1' n1' all'' bid' ne buf' size'|b1' n1' all'' bid'];
          cbn [addBack_loop_post] in *.
        -- destruct Hpost as (Q1 & Q2 & Q3 & Q4 & Q5 & Q6 & Q7 & Q8 & Q9 &
                              Q10 & Q11 & Q12).
           rewrite Hskip in *. rewrite length_app in *. cbn [length] in *.
           repeat split; try assumption; try congruence; try lia.
           ++ rewrite Q5, <- !app_assoc. f_equal. rewrite app_assoc. f_equal.
              unfold bytes. rewrite firstn_firstn_skipn. f_equal. lia.
           ++ rewrite Q6 at 1. rewrite skipn_skipn. f_equal. lia.
        -- destruct Hpost as (Q1 & Q2 & Q3 & Q4 & Q5 & Q6).
           rewrite length_app in *. cbn [length] in *.
           repeat split; try assumption; try congruence; try lia.
           eapply firstn_prefix. rewrite length_app. exact Q5.
    + eexists. split; [reflexivity|]. cbn [addBack_loop_post].
      rewrite Hskip, !length_app in *. cbn [length] in *.
      replace (length buf - (length buf - Z.to_nat left))%nat
        with (Z.to_nat left) by lia.
      repeat split; try assumption; try lia.
      * rewrite Hf2, <- app_assoc. reflexivity.
      * unfold Block_begin, b. cbn [id]. f_equal. lia.
Qed.


Lemma head_id_map (b b' : Buffer) :
  map id (m_blocks b') = map id (m_blocks b) -> head_id b' = head_id b.
Proof.
  unfold head_id. destruct (m_blocks b'), (m_blocks b); cbn [map];
    congruence.
Qed.

Lemma last_block_chain (h : Z) (bs : list Block) :
  chain h bs -> (0 < length bs)%nat ->
  exists last, last_block bs = Some last /\
               id last = h + Z.of_nat (length bs) - 1.
Proof.
  intros Hc Hl. destruct (rev bs) as [|x r] eqn:E.
  - apply (f_equal (@length _)) in E. rewrite length_rev in E.
    cbn [length] in E. lia.
  - apply (f_equal (@rev _)) in E. rewrite rev_involutive in E.
    cbn [rev] in E. subst bs. exists x. rewrite last_block_snoc.
    split; [reflexivity|]. apply chain_app in Hc as [_ Hc].
    cbn [chain] in Hc. rewrite length_app. cbn [length]. lia.
Qed.

Lemma Blocks_dtor_spec (nb : list Block) (all : allocator) (bid : Z) :
  Blocks_dtor nb all bid
  = ((all + length nb)%nat, bid - Z.of_nat (length nb)).
Proof.
  revert all bid. induction nb as [|x nb IH]; intros all bid;
    cbn [Blocks_dtor length].
  - f_equal; lia.
  - rewrite IH. unfold deallocate. f_equal; lia.
Qed.


Lemma length_map_id (l1 l2 : list Block) :
  map id l1 = map id l2 -> length l1 = length l2.
Proof.
  intros H. rewrite <- (length_map id l1), H. apply length_map.
Qed.

Lemma index_end (b : Buffer) :
  wf b ->
  index (head_id b) (m_end b)
  = (nblocks b - 1) * DATA_SIZE + p_off (m_end b).
Proof.
  intros W. unfold index.
  rewrite (wf_end_block _ _ W), (wf_blockId _ _ W). f_equal. f_equal. lia.
Qed.

Lemma addBack_fast (b : Buffer) (buf : list char) :
  wf b -> DATA_SIZE - p_off (m_end b) > Z.of_nat (length buf) ->
  exists b', addBack DATA_SIZE b buf = Some (Returned b') /\
             addBack_post DATA_SIZE b buf (Returned b').
Proof.
  intros W Hfast.
  pose proof (wf_chain _ _ W) as Hc. pose proof (wf_nonempty _ _ W) as Hn.
  pose proof (wf_blockId _ _ W) as Hbid.
  pose proof (wf_end_block _ _ W) as Heb.
  pose proof (wf_end_off _ _ W) as Heo.
  unfold nblocks in *.
  destruct (last_block_chain _ _ Hc) as (last & El & Hlast); [lia|].
  unfold addBack. rewrite El. unfold ptr_diff, Block_end. cbn [p_off].
  destruct (Z.gtb_spec (DATA_SIZE - p_off (m_end b)) (Z.of_nat (length buf)))
    as [_|F]; [|lia].
  destruct (store_chain (head_id b) (m_blocks b) (m_end b) buf Hc)
    as (bs' & E1 & E2 & E3 & E4); try lia.
  rewrite E1. eexists. split; [reflexivity|].
  pose proof (length_map_id _ _ E3) as Hlen.
  assert (Hh : head_id (set_end b bs' (ptr_add (m_end b) (Z.of_nat (length buf))))
               = head_id b) by (apply head_id_map; exact E3).
  cbn [addBack_post]. repeat split; try rewrite Hh;
    unfold nblocks, set_end, ptr_add, lin;
    cbn [m_blocks m_blockId m_end m_begin m_iterators m_all p_block p_off];
    try rewrite Hlen; try assumption; try lia; try apply W.
  - intros H1. pose proof (wf_order _ _ W). unfold nblocks in *. lia.
  - eexists. rewrite E4. unfold splice. reflexivity.
Qed.


Lemma hd_id_app (l1 l2 l : list Block) :
  map id l1 = map id l -> (0 < length l)%nat ->
  match l1 ++ l2 with x :: _ => id x | [] => 0 end
  = match l with x :: _ => id x | [] => 0 end.
Proof.
  destruct l1, l; cbn [map length app]; intros H Hl;
    try discriminate; try lia. congruence.
Qed.

Lemma addBack_slow (b : Buffer) (buf : list char) :
  wf b -> DATA_SIZE - p_off (m_end b) <= Z.of_nat (length buf) ->
  exists o, addBack DATA_SIZE b buf = Some o /\
            addBack_post DATA_SIZE b buf o.
Proof.
  intros W Hslow.
  pose proof (wf_chain _ _ W) as Hc. pose proof (wf_nonempty _ _ W) as Hn.
  pose proof (wf_blockId _ _ W) as Hbid.
  pose proof (wf_end_block _ _ W) as Heb.
  pose proof (wf_end_off _ _ W) as Heo.
  pose proof (index_end b W) as HE.
  pose proof (chain_flat_length _ _ Hc) as HF.
  unfold nblocks in *.
  destruct (last_block_chain _ _ Hc) as (last & El & Hlast); [lia|].
  unfold addBack. rewrite El. unfold ptr_diff, Block_end. cbn [p_off].
  destruct (Z.gtb_spec (DATA_SIZE - p_off (m_end b)) (Z.of_nat (length buf)))
    as [F|_]; [lia|].
  set (E := Z.to_nat (index (head_id b) (m_end b))).
  assert (HEl : (E <= length (flat (m_blocks b)))%nat) by (unfold E; nia).
  destruct (addBack_loop_spec (S (Z.to_nat (Z.of_nat (length buf))))
              (m_blocks b) [] (m_all b) (m_blockId b) (m_end b) buf
              (Z.of_nat (length buf)) (DATA_SIZE - p_off (m_end b))
              (head_id b) (firstn E (flat (m_blocks b)))
              (skipn E (flat (m_blocks b))))
    as (r & Er & Hpost); try rewrite app_nil_r; try assumption; try lia.
  - now rewrite firstn_skipn.
  - rewrite length_skipn. unfold E. nia.
  - rewrite Er.
    destruct r as [b1 n1 all' bid' ne buf' size'|b1 n1 all' bid'];
      cbn [addBack_loop_post] in Hpost.
    + destruct Hpost as (Q1 & Q2 & Q3 & Q4 & Q5 & Q6 & Q7 & Q8 & Q9 &
                         Q10 & Q11 & Q12).
      subst ne.
      destruct (memcpy2_chain (head_id b) b1 n1 (mkPtr (bid' - 1) 0) buf' Q3)
        as (b1' & n1' & E1 & E2 & E3 & E4 & E5 & E6);
        cbn [p_block p_off]; try lia.
      rewrite E1. eexists. split; [reflexivity|].
      assert (Hh : forall x y z u v,
                 head_id (mkBuffer (b1' ++ n1') x y z u v) = head_id b).
      { intros. unfold head_id. cbn [m_blocks]. apply hd_id_app; [|lia].
        congruence. }
      pose proof (chain_flat_length _ _ Q3) as HF1.
      rewrite Q5, !length_app, length_firstn, repeat_length in HF1.
      rewrite length_firstn in HF1. cbn [length] in Q11.
      assert (Hidx : index (head_id b) (mkPtr (bid' - 1) 0)
                     = Z.of_nat (length (firstn E (flat (m_blocks b)) ++
                                 firstn (length buf - length buf') buf))).
      { unfold index. cbn [p_block p_off]. rewrite length_app in Q4.
        rewrite !length_app, !length_firstn. lia. }
      assert (HG : exists G, flat (b1' ++ n1')
                             = firstn E (flat (m_blocks b)) ++ buf ++ G).
      { eexists. rewrite E6, Q5, app_assoc, Hidx, splice_tail.
        rewrite <- !app_assoc. f_equal. rewrite app_assoc. f_equal.
        rewrite Q6 at 2. apply firstn_skipn. }
      cbn [addBack_post]. rewrite Hh. fold E.
      repeat split; try rewrite Hh;
        unfold nblocks, ptr_add, lin;
        cbn [m_blocks m_blockId m_end m_begin m_iterators m_all p_block p_off];
        try exact HG;
        try rewrite !length_app in *; try assumption; try lia; try apply W.
      * nia.
      * cbn [length] in Q12. lia.
    + destruct Hpost as (Q1 & Q2 & Q3 & Q4 & Q5 & Q6).
      rewrite Blocks_dtor_spec. eexists. split; [reflexivity|].
      cbn [addBack_post m_blocks m_blockId m_end m_begin m_iterators m_all].
      fold E. rewrite length_app in *. cbn [length] in Q6.
      repeat split; try assumption; try lia.
      rewrite length_firstn, Nat.min_l in Q5 by lia.
      rewrite flat_app, firstn_app in Q5.
      apply chain_app in Q3 as [Q3 _].
      pose proof (chain_flat_length _ _ Q3) as HF1.
      replace (E - length (flat b1))%nat with 0%nat in Q5 by nia.
      cbn [firstn] in Q5. now rewrite app_nil_r in Q5.
Qed.


Lemma addBack_total (b : Buffer) (buf : list char) :
  wf b ->
  exists o, addBack DATA_SIZE b buf = Some o /\
            addBack_post DATA_SIZE b buf o.
Proof.
  intros W.
  destruct (Z_gt_le_dec (DATA_SIZE - p_off (m_end b)) (Z.of_nat (length buf)))
    as [F|S].
  - destruct (addBack_fast b buf W F) as (b' & E & H). eauto.
  - apply addBack_slow; assumption.
Qed.

Lemma firstn_skipn_agree (A : Type) (E a c : nat) (F F' : list A) :
  firstn E F' = firstn E F -> (a + c <= E)%nat ->
  firstn c (skipn a F') = firstn c (skipn a F).
Proof.
  intros H Hle. rewrite !firstn_skipn_comm. f_equal.
  rewrite <- (Nat.min_l (a + c) E) by assumption.
  rewrite <- !firstn_firstn. now rewrite H.
Qed.

Lemma wf_begin_le_end (b : Buffer) :
  wf b -> lin (m_begin b) <= lin (m_end b).
Proof.
  intros W. unfold lin.
  rewrite (wf_end_block _ _ W), (wf_begin_block _ _ W), (wf_blockId _ _ W).
  pose proof (wf_order _ _ W). pose proof (wf_nonempty _ _ W).
  pose proof (wf_end_off _ _ W). pose proof (wf_begin_off _ _ W).
  destruct (Z.eq_dec (nblocks b) 1) as [E|E].
  - rewrite E. specialize (H E). lia.
  - nia.
Qed.

Lemma contents_agree (b b' : Buffer) :
  wf b -> m_begin b' = m_begin b -> m_end b' = m_end b ->
  head_id b' = head_id b ->
  firstn (Z.to_nat (index (head_id b) (m_end b))) (flat (m_blocks b'))
  = firstn (Z.to_nat (index (head_id b) (m_end b))) (flat (m_blocks b)) ->
  contents DATA_SIZE b' = contents DATA_SIZE b.
Proof.
  intros W Hb He Hh HF. unfold contents, byte_count. rewrite Hb, He, Hh.
  eapply firstn_skipn_agree; [exact HF|].
  pose proof (wf_begin_le_end b W). pose proof (wf_begin_off _ _ W).
  unfold index, lin in *. rewrite (wf_begin_block _ _ W) in *.
  lia.
Qed.


Lemma begin_end_agree (b b' : Buffer) :
  map id (m_blocks b') = map id (m_blocks b) ->
  m_begin b' = m_begin b -> m_end b' = m_end b ->
  option_map fst (begin_ b') = option_map fst (begin_ b) /\
  option_map fst (end_ b') = option_map fst (end_ b).
Proof.
  intros Hid Hb He. unfold begin_, end_, first_block, last_block.
  rewrite Hb, He. split.
  - destruct (m_blocks b') as [|x l], (m_blocks b) as [|y l'];
      try discriminate; [reflexivity|]. cbn [map] in Hid.
    injection Hid as Hxy _. cbn. now rewrite Hxy.
  - apply (f_equal (@rev _)) in Hid. rewrite <- !map_rev in Hid.
    destruct (rev (m_blocks b')) as [|x l], (rev (m_blocks b)) as [|y l'];
      try discriminate; [reflexivity|]. cbn [map] in Hid.
    injection Hid as Hxy _. cbn. now rewrite Hxy.
Qed.

(** C1.  If [addBack] throws (an allocation fails part-way through a
    multi-block append), the buffer is observably unchanged: [begin()] and
    [end()] are the positions they were, the block count, the block ids,
    the registry, the pool and the byte contents are the same, and
    [m_blockId], which had advanced by one per block allocated into the
    transient list, is rolled back by exactly that number. *)
Theorem addBack_strong_exception_safety (b b' : Buffer) (buf : list char) :
  wf b -> addBack DATA_SIZE b buf = Some (Threw b') ->
  (option_map fst (begin_ b') = option_map fst (begin_ b) /\
   option_map fst (end_ b') = option_map fst (end_ b)) /\
  m_begin b' = m_begin b /\ m_end b' = m_end b /\
  nblocks b' = nblocks b /\ map id (m_blocks b') = map id (m_blocks b) /\
  m_blockId b' = m_blockId b /\ m_iterators b' = m_iterators b /\
  m_all b' = m_all b /\ contents DATA_SIZE b' = contents DATA_SIZE b /\
  exists blocks1 new_blocks all1 blockId1,
    addBack_loop DATA_SIZE (S (Z.to_nat (Z.of_nat (length buf)))) (m_blocks b)
      [] (m_all b) (m_blockId b) (m_end b) buf (Z.of_nat (length buf))
      (DATA_SIZE - p_off (m_end b))
    = Some (LoopThrew blocks1 new_blocks all1 blockId1) /\
    blockId1 = m_blockId b + Z.of_nat (length new_blocks) /\
    snd (Blocks_dtor new_blocks all1 blockId1)
    = blockId1 - Z.of_nat (length new_blocks).
Proof.
  intros W H.
  destruct (addBack_total b buf W) as (o & Eo & Hpost).
  rewrite Eo in H. injection H as ->. cbn [addBack_post] in Hpost.
  destruct Hpost as (P1 & P2 & P3 & P4 & P5 & P6 & P7).
  split; [apply begin_end_agree; assumption|].
  repeat split; try assumption.
  - unfold nblocks. now rewrite (length_map_id _ _ P3).
  - apply contents_agree; try assumption. now apply head_id_map.
  - unfold addBack in Eo.
    destruct (last_block (m_blocks b)) as [last|]; [|discriminate].
    unfold ptr_diff, Block_end in Eo. cbn [p_off] in Eo.
    destruct (DATA_SIZE - p_off (m_end b) >? Z.of_nat (length buf)).
    + destruct (store _ _ _ _); discriminate.
    + destruct (addBack_loop _ _ _ _ _ _ _ _ _ _) as [[b1 n1 a1 i1 ne bf sz|b1 n1 a1 i1]|];
        try discriminate.
      * destruct (memcpy2 _ _ _ _ _) as [[? ?]|]; discriminate.
      * exists b1, n1, a1, i1. rewrite Blocks_dtor_spec in *.
        injection Eo as Eb. split; [reflexivity|].
        apply (f_equal m_blockId) in Eb. cbn [m_blockId snd] in *.
        rewrite P4 in Eb. split; [lia|reflexivity].
Qed.


(** ** get *)

Lemma get_loop_spec (h : Z) (blocks : list Block) (rest : list Block) :
  forall (pre : list Block) (cur : Block) (pos : ptr) (size : Z),
    chain h blocks -> blocks = pre ++ cur :: rest ->
    p_block pos = id cur -> 0 <= p_off pos <= DATA_SIZE -> 0 <= size ->
    index h pos + size <= Z.of_nat (length blocks) * DATA_SIZE ->
    get_loop DATA_SIZE blocks cur rest pos (DATA_SIZE - p_off pos) size
    = Some (firstn (Z.to_nat size)
              (skipn (Z.to_nat (index h pos)) (flat blocks))).
Proof.
  induction rest as [|nb rest IH]; intros pre cur pos size Hc Hb Hp Ho Hs Hcap;
    pose proof Hc as Hc'; rewrite Hb in Hc'; apply chain_app in Hc' as [_ Hc'];
    cbn [chain] in Hc'; destruct Hc' as (Hid & _ & Hrest);
    pose proof (f_equal (@length _) Hb) as Hlen;
    rewrite length_app in Hlen; cbn [length] in Hlen;
    assert (Hidx : index h pos = Z.of_nat (length pre) * DATA_SIZE + p_off pos)
      by (unfold index; rewrite Hp, Hid; f_equal; f_equal; lia);
    cbn [get_loop]; (destruct (Z.gtb_spec size 0) as [G|G];
      [|replace size with 0 by lia; reflexivity]);
    (rewrite (load_chain h) by (assumption || lia));
    (destruct (Z.eqb_spec (size - Z.min size (DATA_SIZE - p_off pos)) 0)
      as [Z0|Z0]; [f_equal; f_equal; lia|]).
  - exfalso. rewrite Hlen, Hidx in Hcap. lia.
  - cbn [chain] in Hrest. destruct Hrest as (Hid' & _).
    replace (Z.min size (DATA_SIZE - p_off pos)) with (DATA_SIZE - p_off pos)
      by lia.
    pose proof (IH (pre ++ [cur]) nb (Block_begin nb)
                  (size - (DATA_SIZE - p_off pos)) Hc) as IH'.
    cbn [Block_begin p_off] in IH'. rewrite Z.sub_0_r in IH'.
    rewrite IH'; try assumption; try (cbn [Block_begin p_off p_block]; lia).
    + cbn [option_map]. f_equal.
      replace (Z.to_nat (index h (Block_begin nb)))
        with (Z.to_nat (DATA_SIZE - p_off pos) + Z.to_nat (index h pos))%nat.
      * rewrite <- skipn_skipn, firstn_firstn_skipn. f_equal. lia.
      * unfold index in *. cbn [Block_begin p_off p_block]. rewrite Hid'.
        rewrite Hp, Hid in *. nia.
    + rewrite <- app_assoc. exact Hb.
    + unfold index in *. cbn [Block_begin p_off p_block]. rewrite Hid'.
      rewrite Hp, Hid in *. nia.
Qed.


Lemma get_spec (b : Buffer) (i : iterator) (size : Z) :
  wf b -> p_block (m_position i) = m_block i ->
  head_id b <= m_block i < m_blockId b ->
  0 <= p_off (m_position i) <= DATA_SIZE -> 0 <= size ->
  index (head_id b) (m_position i) + size <= nblocks b * DATA_SIZE ->
  get DATA_SIZE b i size
  = Some (firstn (Z.to_nat size)
            (skipn (Z.to_nat (index (head_id b) (m_position i)))
               (flat (m_blocks b)))).
Proof.
  intros W Hp Hb Ho Hs Hcap. unfold get.
  destruct (blocks_from_chain (head_id b) (m_block i) (m_blocks b))
    as (cur & rest & E1 & E2 & _ & E4).
  - apply W.
  - rewrite (wf_blockId _ _ W) in Hb. exact Hb.
  - rewrite E1. unfold ptr_diff, Block_end. cbn [p_off].
    eapply get_loop_spec; try eassumption; try apply W. congruence.
Qed.

Lemma Buffer_ctor_wf (all : allocator) (b : Buffer) :
  Buffer_ctor DATA_SIZE all = Returned (Some b) ->
  wf b /\ m_begin b = m_end b /\ m_iterators b = [].
Proof.
  unfold Buffer_ctor, newBlock. destruct (allocate all); [|discriminate].
  intros [= <-]. repeat split; unfold nblocks, head_id;
    cbn [m_blocks m_blockId m_end m_begin app length Block_begin id p_block
         p_off chain data];
    try rewrite repeat_length; lia.
Qed.

Lemma addBack_get_at_old_end (b : Buffer) (s : list char) :
  wf b -> s <> [] ->
  (exists o, addBack DATA_SIZE b s = Some o) /\
  (forall b' e,
      addBack DATA_SIZE b s = Some (Returned b') ->
      option_map fst (end_ b) = Some e ->
      get DATA_SIZE b' e (Z.of_nat (length s)) = Some s) /\
  (forall b' i,
      m_begin b = m_end b ->
      addBack DATA_SIZE b s = Some (Returned b') ->
      option_map fst (begin_ b') = Some i ->
      get DATA_SIZE b' i (Z.of_nat (length s)) = Some s).
Proof.
  intros W Hs.
  destruct (addBack_total b s W) as (o & Eo & Hpost).
  pose proof (wf_chain _ _ W) as Hc. pose proof (wf_nonempty _ _ W) as Hn.
  pose proof (wf_end_block _ _ W) as Heb.
  pose proof (wf_end_off _ _ W) as Heo.
  pose proof (wf_blockId _ _ W) as Hbid.
  pose proof (index_end b W) as HE.
  pose proof (chain_flat_length _ _ Hc) as HF.
  assert (Hread : forall b' i,
             addBack DATA_SIZE b s = Some (Returned b') ->
             m_block i = p_block (m_end b) -> m_position i = m_end b ->
             get DATA_SIZE b' i (Z.of_nat (length s)) = Some s).
  { intros b' i Hb' Hib Hip. rewrite Eo in Hb'. injection Hb' as ->.
    cbn [addBack_post] in Hpost.
    destruct Hpost as (W' & Hh & Hbg & Hit & Hlin & (G & HG) & Hnb & _).
    pose proof (chain_flat_length _ _ (wf_chain _ _ W')) as HF'.
    pose proof (wf_blockId _ _ W') as Hbid'.
    assert (Hlen : length (firstn (Z.to_nat (index (head_id b) (m_end b)))
                             (flat (m_blocks b)))
                   = Z.to_nat (index (head_id b) (m_end b)))
      by (rewrite length_firstn; unfold nblocks in *; nia).
    rewrite get_spec; try assumption; rewrite ?Hip, ?Hib, ?Hh;
      try congruence; try lia.
    - f_equal. rewrite HG. rewrite skipn_app, Hlen, Nat.sub_diag.
      rewrite skipn_all2 by lia. cbn [skipn app].
      rewrite firstn_app, Nat2Z.id, firstn_all, Nat.sub_diag.
      cbn [firstn]. apply app_nil_r.
    - rewrite HG, !length_app, Hlen in HF'. unfold nblocks in *. nia. }
  split; [eauto|]. split.
  - intros b' e Hb' He. unfold end_ in He.
    destruct (last_block_chain _ _ Hc) as (last & El & Hlast);
      [unfold nblocks in *; lia|].
    rewrite El in He. cbn in He. injection He as <-.
    apply Hread; [assumption| |reflexivity]. cbn [m_block].
    unfold nblocks in *. lia.
  - intros b' i Hempty Hb' Hi. pose proof Hb' as Hb''.
    rewrite Eo in Hb''. injection Hb'' as ->. cbn [addBack_post] in Hpost.
    destruct Hpost as (W' & Hh & Hbg & _).
    unfold begin_, first_block in Hi. pose proof (wf_nonempty _ _ W') as Hn'.
    unfold nblocks, head_id in *.
    destruct (m_blocks b') as [|x l]; [cbn [length] in Hn'; lia|].
    cbn in Hi. injection Hi as <-.
    apply Hread; [assumption| |cbn [m_position]; congruence].
    cbn [m_block]. rewrite <- Hempty, (wf_begin_block _ _ W). exact Hh.
Qed.

(** C5.  Round trip.  On a well-formed buffer [addBack(s)] with [s]
    non-empty either throws or returns, and when it returns, reading [|s|]
    bytes with [get] from the iterator that marked the old end yields [s],
    however many blocks the append spanned.  When the buffer was empty
    ([m_begin == m_end]) that iterator is [begin()], so
    [get(begin(), out, |s|)] yields [s]; in particular on a freshly
    constructed buffer. *)
Theorem addBack_get_roundtrip :
  (forall b s, wf b -> s <> [] ->
     (exists o, addBack DATA_SIZE b s = Some o) /\
     (forall b' e,
         addBack DATA_SIZE b s = Some (Returned b') ->
         option_map fst (end_ b) = Some e ->
         get DATA_SIZE b' e (Z.of_nat (length s)) = Some s) /\
     (forall b' i,
         m_begin b = m_end b ->
         addBack DATA_SIZE b s = Some (Returned b') ->
         option_map fst (begin_ b') = Some i ->
         get DATA_SIZE b' i (Z.of_nat (length s)) = Some s)) /\
  (forall all b0 s b' i,
      Buffer_ctor DATA_SIZE all = Returned (Some b0) -> s <> [] ->
      addBack DATA_SIZE b0 s = Some (Returned b') ->
      option_map fst (begin_ b') = Some i ->
      get DATA_SIZE b' i (Z.of_nat (length s)) = Some s).
Proof.
  split; [exact addBack_get_at_old_end|].
  intros all b0 s b' i Hctor Hs Hadd Hi.
  destruct (Buffer_ctor_wf _ _ Hctor) as (W & Hempty & _).
  destruct (addBack_get_at_old_end b0 s W Hs) as (_ & _ & H).
  now apply (H b' i).
Qed.


(** ** Copies inside data areas keep the block list's shape *)

Lemma store_ids (bs bs' : list Block) (p : ptr) (bytes : list char) :
  store DATA_SIZE bs p bytes = Some bs' -> map id bs' = map id bs.
Proof.
  revert bs'. induction bs as [|x bs IH]; intros bs'; cbn [store];
    [discriminate|].
  destruct (id x =? p_block p).
  - destruct (in_area _ _ _); [|discriminate]. now intros [= <-].
  - destruct (store _ bs p bytes) as [r|]; [|discriminate].
    intros [= <-]. cbn [map]. now rewrite (IH r).
Qed.

Lemma memmove_ids (bs bs' : list Block) (dst src : ptr) (n : Z) :
  memmove DATA_SIZE bs dst src n = Some bs' -> map id bs' = map id bs.
Proof.
  unfold memmove. destruct (load _ _ _ _); [|discriminate]. apply store_ids.
Qed.

Lemma insert_loop_ids (fuel : nat) :
  forall itr bs sb db src dst ls ld cs bs',
    insert_loop DATA_SIZE fuel itr bs sb db src dst ls ld cs = Some bs' ->
    map id bs' = map id bs.
Proof.
  induction fuel as [|f IH]; intros itr bs sb db src dst ls ld cs bs';
    cbn [insert_loop]; [discriminate|].
  destruct (memmove _ bs dst src cs) as [bs1|] eqn:E; [|discriminate].
  apply memmove_ids in E. rewrite <- E.
  destruct (ld >? ls).
  - destruct (sb =? m_block itr); [now intros [= <-]|].
    destruct (prev_block bs1 sb); [|discriminate]. apply IH.
  - destruct (prev_block bs1 db); [|discriminate]. apply IH.
Qed.

Lemma release_loop_ids (fuel : nat) :
  forall last bs sb db src dst ls ld cs bs',
    release_loop DATA_SIZE fuel last bs sb db src dst ls ld cs = Some bs' ->
    map id bs' = map id bs.
Proof.
  induction fuel as [|f IH]; intros last bs sb db src dst ls ld cs bs';
    cbn [release_loop]; [discriminate|].
  destruct (memmove _ bs dst src cs) as [bs1|] eqn:E; [|discriminate].
  apply memmove_ids in E. rewrite <- E.
  destruct (ld >? ls).
  - destruct (sb =? last); [now intros [= <-]|].
    destruct (next_block bs1 sb); [|discriminate]. apply IH.
  - destruct (next_block bs1 db); [|discriminate]. apply IH.
Qed.

Lemma set_loop_ids (rest : list Block) :
  forall bs cur pos left buf size bs',
    set_loop DATA_SIZE bs cur rest pos left buf size = Some bs' ->
    map id bs' = map id bs.
Proof.
  induction rest as [|nb rest IH]; intros bs cur pos left buf size bs';
    cbn [set_loop]; (destruct (size >? 0); [|now intros [= <-]]);
    (destruct (store _ bs pos _) as [bs1|] eqn:E; [|discriminate]);
    apply store_ids in E; rewrite <- E;
    (destruct (_ =? 0); [now intros [= <-]|]); [discriminate|].
  apply IH.
Qed.

Lemma last_block_ids (bs bs' : list Block) :
  map id bs' = map id bs ->
  option_map id (last_block bs') = option_map id (last_block bs).
Proof.
  intros H. unfold last_block.
  apply (f_equal (@rev _)) in H. rewrite <- !map_rev in H.
  destruct (rev bs'), (rev bs); try discriminate; [reflexivity|].
  cbn in *. congruence.
Qed.

Lemma tail_has_room_ids (b b' : Buffer) :
  map id (m_blocks b') = map id (m_blocks b) -> m_end b' = m_end b ->
  tail_has_room DATA_SIZE b -> tail_has_room DATA_SIZE b'.
Proof.
  intros Hid He (last & Hl & Hp & Ho). apply last_block_ids in Hid.
  rewrite Hl in Hid. destruct (last_block (m_blocks b')) as [l'|] eqn:E;
    [|discriminate].
  exists l'. rewrite He. cbn in Hid. split; [assumption|].
  split; [congruence|assumption].
Qed.

Lemma wf_tail_has_room (b : Buffer) : wf b -> tail_has_room DATA_SIZE b.
Proof.
  intros W.
  destruct (last_block_chain _ _ (wf_chain _ _ W)) as (last & El & Hlast).
  - pose proof (wf_nonempty _ _ W). unfold nblocks in *. lia.
  - exists last. split; [assumption|]. split; [|apply W].
    rewrite (wf_end_block _ _ W), (wf_blockId _ _ W). unfold nblocks. lia.
Qed.


(** ** The tail block keeps a free byte *)

Lemma last_block_app (l1 l2 : list Block) (x : Block) :
  last_block l2 = Some x -> last_block (l1 ++ l2) = Some x.
Proof.
  unfold last_block. rewrite rev_app_distr.
  destruct (rev l2); [discriminate|]. now intros [= <-].
Qed.

Lemma advance_loop_end (fuel : nat) :
  forall nb all bid size left nb' all' bid' ne size',
    advance_loop DATA_SIZE fuel nb all bid size left
    = Some (AdvDone nb' all' bid' ne size') ->
    left <= size ->
    exists last, last_block nb' = Some last /\ ne = Block_begin last /\
                 0 <= size' < DATA_SIZE.
Proof.
  induction fuel as [|f IH]; intros nb all bid size left nb' all' bid' ne size';
    cbn [advance_loop]; [discriminate|].
  unfold newBlock. destruct (allocate all) as [a|]; [|discriminate].
  destruct (Z.geb_spec (size - left) DATA_SIZE) as [G|G].
  - intros H Hle. apply IH in H; [assumption|lia].
  - intros [= <- <- <- <- <-] Hle. eexists. rewrite last_block_snoc.
    split; [reflexivity|]. split; [reflexivity|lia].
Qed.

Lemma advance_tail_has_room (b b' : Buffer) (size : Z) :
  tail_has_room DATA_SIZE b -> 0 <= size ->
  (advance DATA_SIZE b size = Some (Returned b') \/
   advance DATA_SIZE b size = Some (Threw b')) ->
  tail_has_room DATA_SIZE b'.
Proof.
  intros (last & Hl & Hp & Ho) Hs. unfold advance. rewrite Hl.
  unfold ptr_diff, Block_end. cbn [p_off].
  destruct (Z.gtb_spec (DATA_SIZE - p_off (m_end b)) size) as [G|G].
  - intros [[= <-]|[=]]. exists last. cbn. repeat split; try assumption; lia.
  - destruct (advance_loop _ _ _ _ _ _ _)
      as [[nb' all' bid' ne size'|nb' all' bid']|] eqn:E.
    + intros [[= <-]|[=]]. apply advance_loop_end in E; [|assumption].
      destruct E as (l' & E1 & -> & E3). exists l'.
      cbn [m_blocks m_end ptr_add Block_begin p_block p_off].
      split; [now apply last_block_app|]. split; [reflexivity|lia].
    + rewrite Blocks_dtor_spec. intros [[=]|[= <-]]. exists last.
      cbn. repeat split; try assumption; lia.
    + intros [[=]|[=]].
Qed.

Lemma dropBack_loop_end (ndebug : bool) (its : list iterator)
  (rb : list Block) :
  forall all bid e size left rb' all' bid' e' size' block,
    dropBack_loop DATA_SIZE ndebug its rb all bid e size left
    = Some (rb', all', bid', e', size') ->
    hd_error rb = Some block -> p_block e = id block -> left = p_off e ->
    p_off e <= DATA_SIZE -> 0 < size ->
    exists block', hd_error rb' = Some block' /\ p_block e' = id block' /\
                   0 <= p_off e' - size' < DATA_SIZE.
Proof.
  induction rb as [|x prevs IH];
    intros all bid e size left rb' all' bid' e' size' block;
    cbn [dropBack_loop]; [discriminate|].
  destruct (Z.gtb_spec size left) as [G|G].
  - destruct prevs as [|tmp prevs']; [discriminate|].
    destruct (assert ndebug (last_not_in its tmp)); [|discriminate].
    intros H _ _ _ _ _. eapply IH in H; try reflexivity; try eassumption;
      cbn [Block_end p_off]; lia.
  - intros [= <- <- <- <- <-] [= <-] Hp Hl Ho Hs. exists x.
    split; [reflexivity|]. split; [assumption|lia].
Qed.

Lemma dropBack_tail_has_room (ndebug : bool) (b b' : Buffer) (k : Z) :
  tail_has_room DATA_SIZE b -> 0 < k ->
  dropBack DATA_SIZE ndebug b k = Some b' -> tail_has_room DATA_SIZE b'.
Proof.
  intros (last & Hl & Hp & Ho) Hk H.
  destruct (dropBack_inv _ _ _ _ H)
    as (rb' & all' & bid' & e' & size' & E & _ & _ & ->).
  unfold last_block in Hl.
  eapply dropBack_loop_end in E; try reflexivity; try eassumption; try lia.
  destruct E as (block' & E1 & E2 & E3). exists block'.
  unfold last_block.
  cbn [m_blocks m_end ptr_add p_block p_off]. rewrite rev_involutive.
  split; [assumption|]. split; [assumption|lia].
Qed.

Lemma last_block_cons (x : Block) (l : list Block) :
  l <> [] -> last_block (x :: l) = last_block l.
Proof.
  unfold last_block. cbn [rev]. intros H.
  destruct (rev l) eqn:E; [|reflexivity].
  apply (f_equal (@rev _)) in E. rewrite rev_involutive in E. contradiction.
Qed.

Lemma dropFront_loop_last (bs : list Block) :
  forall all bg size left bs' all' bg' size',
    dropFront_loop DATA_SIZE bs all bg size left = Some (bs', all', bg', size') ->
    last_block bs' = last_block bs.
Proof.
  induction bs as [|x nexts IH]; intros all bg size left bs' all' bg' size';
    cbn [dropFront_loop]; [discriminate|].
  destruct (size >? left).
  - destruct nexts as [|tmp nexts'] eqn:En; [discriminate|].
    intros H. apply IH in H. rewrite H. symmetry. now apply last_block_cons.
  - now intros [= <- <- <- <-].
Qed.

Lemma dropFront_tail_has_room (b b' : Buffer) (k : Z) :
  tail_has_room DATA_SIZE b ->
  dropFront DATA_SIZE b k = Some b' -> tail_has_room DATA_SIZE b'.
Proof.
  intros (last & Hl & Hp & Ho). unfold dropFront.
  destruct (m_blocks b) as [|block nexts] eqn:Eb; [discriminate|].
  destruct (dropFront_loop _ _ _ _ _ _) as [[[[bs' all'] bg'] size']|] eqn:E;
    [|discriminate].
  intros [= <-]. apply dropFront_loop_last in E. exists last.
  cbn [m_blocks m_end]. rewrite E. auto.
Qed.


Lemma insert_tail_has_room (b b' : Buffer) (itr : iterator) (size : Z) :
  tail_has_room DATA_SIZE b -> 0 <= size ->
  (insert DATA_SIZE b itr size = Some (Returned b') \/
   insert DATA_SIZE b itr size = Some (Threw b')) ->
  tail_has_room DATA_SIZE b'.
Proof.
  intros T Hs. unfold insert.
  destruct (last_block (m_blocks b)) as [sb|]; [|intros [[=]|[=]]].
  destruct (advance DATA_SIZE b size) as [[b1|b1]|] eqn:Ea;
    [| |intros [[=]|[=]]].
  - assert (T1 : tail_has_room DATA_SIZE b1)
      by (eapply advance_tail_has_room; eauto).
    destruct (last_block (m_blocks b1)) as [db|]; [|intros [[=]|[=]]].
    destruct (if _ >? _ then _ else _) as [src dst].
    destruct (insert_loop _ _ _ _ _ _ _ _ _ _ _) as [blocks'|] eqn:El;
      [|intros [[=]|[=]]].
    destruct (shift_iterators _ _ _) as [ritrs|]; [|intros [[=]|[=]]].
    intros [[= <-]|[=]]. apply insert_loop_ids in El.
    eapply tail_has_room_ids; [| |exact T1]; [exact El|reflexivity].
  - intros [[=]|[= <-]]. eapply advance_tail_has_room; eauto.
Qed.

Lemma release_tail_has_room (ndebug : bool) (b b' : Buffer) (itr : iterator)
  (size : Z) :
  tail_has_room DATA_SIZE b -> 0 < size ->
  release DATA_SIZE ndebug b itr size = Some b' -> tail_has_room DATA_SIZE b'.
Proof.
  intros T Hs. unfold release.
  destruct (blocks_from _ _) as [|cur rest]; [discriminate|].
  destruct (last_block (m_blocks b)) as [lb|]; [|discriminate].
  destruct (locate_loop _ _ _ _ _) as [[src_block src]|]; [|discriminate].
  destruct (release_loop _ _ _ _ _ _ _ _ _ _ _) as [blocks'|] eqn:El;
    [|discriminate].
  destruct (shift_iterators _ _ _) as [ritrs|]; [|discriminate].
  apply release_loop_ids in El.
  apply dropBack_tail_has_room; [|assumption].
  eapply tail_has_room_ids; [| |exact T]; [exact El|reflexivity].
Qed.

Lemma set_frame (b b' : Buffer) (itr : iterator) (buf : list char) (size : Z) :
  set DATA_SIZE b itr buf size = Some b' ->
  map id (m_blocks b') = map id (m_blocks b) /\
  m_begin b' = m_begin b /\ m_end b' = m_end b /\
  m_iterators b' = m_iterators b /\ m_blockId b' = m_blockId b /\
  m_all b' = m_all b.
Proof.
  unfold set. destruct (blocks_from _ _) as [|block rest]; [discriminate|].
  destruct (set_loop _ _ _ _ _ _ _ _) as [bs'|] eqn:E; [|discriminate].
  intros [= <-]. apply set_loop_ids in E.
  cbn; repeat split; try reflexivity; exact E.
Qed.

Lemma set_T_frame (b b' : Buffer) (itr : iterator) (t : list char) :
  set_T DATA_SIZE b itr t = Some b' ->
  map id (m_blocks b') = map id (m_blocks b) /\
  m_begin b' = m_begin b /\ m_end b' = m_end b /\
  m_iterators b' = m_iterators b /\ m_blockId b' = m_blockId b /\
  m_all b' = m_all b.
Proof.
  unfold set_T. destruct (_ <=? _); [|apply set_frame].
  destruct (store _ _ _ _) as [bs'|] eqn:E; [|discriminate].
  intros [= <-]. apply store_ids in E.
  cbn; repeat split; try reflexivity; exact E.
Qed.

Lemma flush_tail_has_room (order : operand_order) (b b' : Buffer) :
  tail_has_room DATA_SIZE b ->
  flush DATA_SIZE order b = Some b' -> tail_has_room DATA_SIZE b'.
Proof.
  intros T. unfold flush. destruct (flush_distance _ _); [|discriminate].
  destruct (_ >? 0).
  - now apply dropFront_tail_has_room.
  - now intros [= <-].
Qed.

(** C9.  [m_end] always lies strictly before the end of the tail block's
    data area: this holds of a freshly constructed buffer and is kept by
    every operation that returns or throws and touches the state ([get],
    [has] and [getIOV] do not; [resize] with equal sizes is a [release] of
    nothing and is left out), with or without [NDEBUG] and whichever
    operand [flush] evaluates first.  Consequently an [addBack] whose size
    reaches or exceeds the room left in the tail block, an exact fit
    included, allocates, and [m_end] ends up in a block appended by the
    call. *)
Theorem tail_block_never_full :
  (forall all b, Buffer_ctor DATA_SIZE all = Returned (Some b) ->
                 tail_has_room DATA_SIZE b) /\
  (forall b buf, wf b ->
     exists o, addBack DATA_SIZE b buf = Some o /\
               forall b', o = Returned b' \/ o = Threw b' ->
                          tail_has_room DATA_SIZE b') /\
  (forall b buf b', wf b ->
     DATA_SIZE - p_off (m_end b) <= Z.of_nat (length buf) ->
     addBack DATA_SIZE b buf = Some (Returned b') ->
     nblocks b < nblocks b' /\ m_blockId b <= p_block (m_end b') /\
     0 <= p_off (m_end b') < DATA_SIZE) /\
  (forall b size b', tail_has_room DATA_SIZE b -> 0 <= size ->
     advance DATA_SIZE b size = Some (Returned b') \/
     advance DATA_SIZE b size = Some (Threw b') ->
     tail_has_room DATA_SIZE b') /\
  (forall ndebug b k b', tail_has_room DATA_SIZE b -> 0 < k ->
     dropBack DATA_SIZE ndebug b k = Some b' ->
     tail_has_room DATA_SIZE b') /\
  (forall b k b', tail_has_room DATA_SIZE b ->
     dropFront DATA_SIZE b k = Some b' -> tail_has_room DATA_SIZE b') /\
  (forall b itr size b', tail_has_room DATA_SIZE b -> 0 <= size ->
     insert DATA_SIZE b itr size = Some (Returned b') \/
     insert DATA_SIZE b itr size = Some (Threw b') ->
     tail_has_room DATA_SIZE b') /\
  (forall ndebug b itr size b', tail_has_room DATA_SIZE b -> 0 < size ->
     release DATA_SIZE ndebug b itr size = Some b' ->
     tail_has_room DATA_SIZE b') /\
  (forall b itr buf size b', tail_has_room DATA_SIZE b ->
     set DATA_SIZE b itr buf size = Some b' -> tail_has_room DATA_SIZE b') /\
  (forall b itr t b', tail_has_room DATA_SIZE b ->
     set_T DATA_SIZE b itr t = Some b' -> tail_has_room DATA_SIZE b') /\
  (forall order b b', tail_has_room DATA_SIZE b ->
     flush DATA_SIZE order b = Some b' -> tail_has_room DATA_SIZE b') /\
  (forall ndebug b itr size new_size b', tail_has_room DATA_SIZE b ->
     size <> new_size ->
     resize DATA_SIZE ndebug b itr size new_size = Some (Returned b') \/
     resize DATA_SIZE ndebug b itr size new_size = Some (Threw b') ->
     tail_has_room DATA_SIZE b') /\
  (forall b data size rnd_size b', wf b -> 0 <= size <= rnd_size ->
     addBack_CStr DATA_SIZE b data size rnd_size = Some (Returned b') \/
     addBack_CStr DATA_SIZE b data size rnd_size = Some (Threw b') ->
     tail_has_room DATA_SIZE b') /\
  (forall b i b', tail_has_room DATA_SIZE b ->
     begin_ b = Some (i, b') \/ end_ b = Some (i, b') ->
     tail_has_room DATA_SIZE b').
Proof.
  assert (HaddBack : forall b buf o b', wf b ->
            addBack DATA_SIZE b buf = Some o ->
            o = Returned b' \/ o = Threw b' -> tail_has_room DATA_SIZE b').
  { intros b buf o b' W Ho Hb'.
    destruct (addBack_total b buf W) as (o' & Eo & Hpost).
    rewrite Eo in Ho. injection Ho as ->.
    destruct Hb' as [-> | ->]; cbn [addBack_post] in Hpost.
    - apply wf_tail_has_room. apply Hpost.
    - destruct Hpost as (_ & He & Hid & _).
      eapply tail_has_room_ids; [exact Hid|exact He|].
      now apply wf_tail_has_room. }
  split; [|split; [|split; [|split; [|split; [|split; [|split; [|split;
    [|split; [|split; [|split; [|split; [|split]]]]]]]]]]]].
  - intros all b H. apply wf_tail_has_room. apply (Buffer_ctor_wf _ _ H).
  - intros b buf W. destruct (addBack_total b buf W) as (o & Eo & Hpost).
    exists o. split; [assumption|]. intros b' [-> | ->];
      cbn [addBack_post] in Hpost.
    + apply wf_tail_has_room. apply Hpost.
    + destruct Hpost as (_ & He & Hid & _).
      eapply tail_has_room_ids; [exact Hid|exact He|].
      now apply wf_tail_has_room.
  - intros b buf b' W Hfit Hb'.
    destruct (addBack_total b buf W) as (o & Eo & Hpost).
    rewrite Eo in Hb'. injection Hb' as ->. cbn [addBack_post] in Hpost.
    destruct Hpost as (W' & Hh & _ & _ & _ & _ & _ & Hnew).
    destruct (Hnew Hfit) as [Hn _]. split; [assumption|].
    rewrite (wf_end_block _ _ W'), (wf_blockId _ _ W'), (wf_blockId _ _ W), Hh.
    split; [lia|apply W'].
  - intros b size b'. apply advance_tail_has_room.
  - intros ndebug b k b'. apply dropBack_tail_has_room.
  - intros b k b'. apply dropFront_tail_has_room.
  - intros b itr size b'. apply insert_tail_has_room.
  - intros ndebug b itr size b'. apply release_tail_has_room.
  - intros b itr buf size b' T H. apply set_frame in H.
    eapply tail_has_room_ids; [| |exact T]; apply H.
  - intros b itr t b' T H. apply set_T_frame in H.
    eapply tail_has_room_ids; [| |exact T]; apply H.
  - intros order b b'. apply flush_tail_has_room.
  - intros ndebug b itr size new_size b' T Hne. unfold resize.
    destruct (Z.gtb_spec new_size size) as [G|G].
    + apply insert_tail_has_room; [assumption|lia].
    + destruct (release _ _ _ _ _) as [r|] eqn:E; cbn [option_map];
        intros [[= <-]|[=]].
      eapply release_tail_has_room; [exact T| |exact E]. lia.
  - intros b data size rnd_size b' W Hs. unfold addBack_CStr.
    destruct (Z.eqb_spec size 0) as [Z0|Z0].
    + intros [[= <-]|[=]]. now apply wf_tail_has_room.
    + pose proof (wf_tail_has_room b W) as (last & Hl & Hp & Ho).
      rewrite Hl. unfold ptr_diff, Block_end. cbn [p_off].
      destruct (Z.gtb_spec (DATA_SIZE - p_off (m_end b)) rnd_size) as [G|G].
      * destruct (store _ _ _ _) as [bs'|] eqn:E; intros [[= <-]|[=]].
        apply store_ids in E. apply last_block_ids in E. rewrite Hl in E.
        cbn [m_blocks set_end] in *.
        destruct (last_block bs') as [l'|] eqn:El; [|discriminate].
        exists l'. unfold set_end, ptr_add.
        cbn [m_blocks m_end p_block p_off] in *.
        cbn [option_map] in E. injection E as E.
        split; [exact El|]. split; [congruence|lia].
      * intros [H|H]; eapply HaddBack; eauto.
  - intros b i b' T. unfold begin_, end_.
    destruct (first_block (m_blocks b)), (last_block (m_blocks b)) eqn:El;
      intros [[= _ <-]|[= _ <-]]; exact T.
Qed.


(** ** get and set *)

Lemma set_loop_total (h : Z) (rest : list Block) :
  forall (blocks : list Block) (cur : Block) (pos : ptr) (buf : list char)
         (size : Z),
    chain h blocks -> chain (id cur) (cur :: rest) -> h <= id cur ->
    id cur + Z.of_nat (length (cur :: rest)) = h + Z.of_nat (length blocks) ->
    p_block pos = id cur -> 0 <= p_off pos <= DATA_SIZE ->
    p_off pos + size <= Z.of_nat (length (cur :: rest)) * DATA_SIZE ->
    exists bs', set_loop DATA_SIZE blocks cur rest pos
                  (DATA_SIZE - p_off pos) buf size = Some bs'.
Proof.
  induction rest as [|nb rest IH];
    intros blocks cur pos buf size Hc Hv Hh Hlen Hp Ho Hcap;
    cbn [set_loop]; cbn [length] in *;
    (destruct (Z.gtb_spec size 0) as [G|G]; [|eauto]);
    (destruct (store_chain h blocks pos
                 (firstn (Z.to_nat (Z.min size (DATA_SIZE - p_off pos))) buf)
                 Hc) as (bs1 & E1 & E2 & E3 & _);
     [lia|lia|rewrite length_firstn; lia|]);
    rewrite E1;
    (destruct (Z.eqb_spec (size - Z.min size (DATA_SIZE - p_off pos)) 0)
      as [Z0|Z0]; [eauto|]).
  - exfalso. lia.
  - cbn [chain] in Hv. destruct Hv as (_ & _ & Hid & Hl & Hv).
    pose proof (IH bs1 nb (Block_begin nb)
                  (skipn (Z.to_nat (Z.min size (DATA_SIZE - p_off pos))) buf)
                  (size - Z.min size (DATA_SIZE - p_off pos)) E2) as IH'.
    cbn [Block_begin p_off p_block chain] in IH'. rewrite Z.sub_0_r in IH'.
    apply IH'; try lia; try (rewrite Hid; auto);
      try rewrite (length_map_id _ _ E3); cbn [length]; lia.
Qed.


Lemma frame_of_parts (b b' : Buffer) :
  map id (m_blocks b') = map id (m_blocks b) /\
  m_begin b' = m_begin b /\ m_end b' = m_end b /\
  m_iterators b' = m_iterators b /\ m_blockId b' = m_blockId b /\
  m_all b' = m_all b ->
  frame DATA_SIZE b b'.
Proof.
  intros (H1 & H2 & H3 & H4 & H5 & H6). unfold frame, byte_count, nblocks.
  rewrite H2, H3, (length_map_id _ _ H1). tauto.
Qed.

(** C8.  For a live iterator [i] with at least [size] bytes between it and
    [m_end], [get(i, buf, size)] and its typed form return the same [size]
    bytes (they are functions of the state and cannot change it), and
    [set(i, buf, size)] and its typed form return a buffer whose cursors
    and byte count, registry (every iterator's position), block list
    shape, id counter and pool are what they were: nothing is allocated
    or deallocated. *)
Theorem get_set_frame (b : Buffer) (i : iterator) (buf : list char) (size : Z) :
  wf b -> live b i -> 0 <= size -> Z.of_nat (length buf) = size ->
  lin (m_position i) + size <= lin (m_end b) ->
  (exists out, get DATA_SIZE b i size = Some out /\
               get_T DATA_SIZE b i size = Some out /\
               Z.of_nat (length out) = size) /\
  (exists b', set DATA_SIZE b i buf size = Some b' /\ frame DATA_SIZE b b') /\
  (exists b', set_T DATA_SIZE b i buf = Some b' /\ frame DATA_SIZE b b').
Proof.
  intros W (Hp & Hb & Ho) Hs Hbuf Hcap.
  pose proof (wf_chain _ _ W) as Hc. pose proof (wf_blockId _ _ W) as Hbid.
  pose proof (wf_end_block _ _ W) as Heb.
  pose proof (wf_end_off _ _ W) as Heo.
  pose proof (chain_flat_length _ _ Hc) as HF.
  unfold lin in Hcap. rewrite Heb, Hp in Hcap. unfold nblocks in *.
  assert (Hk : 0 <= (m_block i - head_id b) * DATA_SIZE)
    by (apply Z.mul_nonneg_nonneg; lia).
  assert (Hcap' : index (head_id b) (m_position i) + size
                  <= Z.of_nat (length (m_blocks b)) * DATA_SIZE)
    by (unfold index; rewrite Hp; nia).
  assert (Hidx : 0 <= index (head_id b) (m_position i))
    by (unfold index; rewrite Hp; lia).
  assert (Hget : get DATA_SIZE b i size
                 = Some (firstn (Z.to_nat size)
                           (skipn (Z.to_nat (index (head_id b) (m_position i)))
                              (flat (m_blocks b)))))
    by (apply get_spec; unfold nblocks; try assumption; lia).
  destruct (blocks_from_chain (head_id b) (m_block i) (m_blocks b) Hc)
    as (cur & rest & E1 & E2 & E3 & E4); [lia|].
  assert (Hlen : id cur + Z.of_nat (length (cur :: rest))
                 = head_id b + Z.of_nat (length (m_blocks b))).
  { apply (f_equal (@length _)) in E4.
    rewrite length_app, length_firstn in E4. lia. }
  assert (Hset : exists bs', set_loop DATA_SIZE (m_blocks b) cur rest
                               (m_position i)
                               (DATA_SIZE - p_off (m_position i)) buf size
                             = Some bs').
  { apply (set_loop_total (head_id b)); try assumption; try lia;
      try (now rewrite E2); nia. }
  assert (Hsetb : exists b', set DATA_SIZE b i buf size = Some b' /\
                             frame DATA_SIZE b b').
  { destruct Hset as (bs' & Hset). unfold set. rewrite E1.
    unfold ptr_diff, Block_end. cbn [p_off]. rewrite Hset.
    eexists. split; [reflexivity|]. apply frame_of_parts.
    apply set_loop_ids in Hset. cbn. tauto. }
  split; [|split].
  - eexists. split; [exact Hget|]. split.
    + unfold get_T, ptr_diff. cbn [p_off].
      destruct (Z.leb_spec size (DATA_SIZE - p_off (m_position i)));
        [|exact Hget].
      apply load_chain; try assumption; lia.
    + rewrite length_firstn, length_skipn. lia.
  - exact Hsetb.
  - unfold set_T, ptr_diff. cbn [p_off]. rewrite Hbuf.
    destruct (Z.leb_spec size (DATA_SIZE - p_off (m_position i)));
      [|exact Hsetb].
    destruct (store_chain (head_id b) (m_blocks b) (m_position i) buf Hc)
      as (bs' & S1 & _ & S3 & _); try lia.
    rewrite S1. eexists. split; [reflexivity|]. apply frame_of_parts.
    cbn. tauto.
Qed.


(** ** Iterator arithmetic *)

Lemma live_lin_inj (b : Buffer) (i j : iterator) :
  live b i -> live b j -> lin (m_position i) = lin (m_position j) -> i = j.
Proof.
  intros (Hp & Hb & Ho) (Hp' & Hb' & Ho') H. unfold lin in H.
  rewrite Hp, Hp' in H.
  assert (m_block i = m_block j) by nia.
  assert (p_off (m_position i) = p_off (m_position j)) by nia.
  destruct i as [bi [pbi poi]], j as [bj [pbj poj]]. cbn in *. congruence.
Qed.

Lemma iter_incr_spec (b : Buffer) (i : iterator) :
  wf b -> live b i ->
  (forall i', iter_incr DATA_SIZE (m_blocks b) i = Some i' ->
              live b i' /\ lin (m_position i') = lin (m_position i) + 1) /\
  (m_block i < m_blockId b - 1 \/ p_off (m_position i) + 1 < DATA_SIZE ->
   exists i', iter_incr DATA_SIZE (m_blocks b) i = Some i').
Proof.
  intros W (Hp & Hb & Ho).
  pose proof (wf_chain _ _ W) as Hc. pose proof (wf_blockId _ _ W) as Hbid.
  unfold nblocks in *.
  destruct (blocks_from_chain (head_id b) (m_block i) (m_blocks b) Hc)
    as (cur & rest & E1 & E2 & E3 & E4); [lia|].
  assert (Hlen : id cur + Z.of_nat (length (cur :: rest))
                 = head_id b + Z.of_nat (length (m_blocks b))).
  { apply (f_equal (@length _)) in E4.
    rewrite length_app, length_firstn in E4. lia. }
  unfold iter_incr, moveForward. rewrite E1.
  unfold live, lin.
  destruct rest as [|nb rest]; cbn [moveForward_loop length] in *;
    unfold ptr_diff, Block_end; cbn [p_off];
    destruct (Z.geb_spec 1 (DATA_SIZE - p_off (m_position i))) as [G|G].
  - split; [discriminate|]. intros [H|H]; lia.
  - split; [|eauto]. intros i' [= <-].
    cbn [m_position m_block ptr_add p_block p_off]. rewrite Hp. lia.
  - destruct E3 as (_ & _ & Hn & _).
    assert (Hstep : moveForward_loop DATA_SIZE nb rest (Block_begin nb)
                      (1 - (DATA_SIZE - p_off (m_position i)))
                    = Some (mkIter (id nb) (mkPtr (id nb) 0))).
    { replace (1 - (DATA_SIZE - p_off (m_position i))) with 0 by lia.
      destruct rest; cbn [moveForward_loop];
        unfold ptr_diff, Block_end, Block_begin, ptr_add; cbn [p_off p_block];
        (destruct (Z.geb_spec 0 (DATA_SIZE - 0)); [lia|]); reflexivity. }
    rewrite Hstep. split; [|eauto]. intros i' [= <-].
    cbn [m_position m_block p_block p_off]. rewrite Hp. lia.
  - split; [|eauto]. intros i' [= <-].
    cbn [m_position m_block ptr_add p_block p_off]. rewrite Hp. lia.
Qed.

Lemma iter_steps_lin (b : Buffer) (n : nat) :
  forall i k, wf b -> live b i ->
    iter_steps DATA_SIZE (m_blocks b) n i = Some k ->
    live b k /\ lin (m_position k) = lin (m_position i) + Z.of_nat n.
Proof.
  induction n as [|n IH]; intros i k W L; cbn [iter_steps].
  - intros [= <-]. split; [assumption|lia].
  - destruct (iter_incr _ _ i) as [i'|] eqn:E; [|discriminate].
    apply (proj1 (iter_incr_spec b i W L)) in E as [L' E'].
    intros H. apply (IH i' k W L') in H. split; [apply H|lia].
Qed.

Lemma iter_steps_reach (b : Buffer) (n : nat) :
  forall i j, wf b -> live b i -> live b j ->
    lin (m_position j) = lin (m_position i) + Z.of_nat n ->
    iter_steps DATA_SIZE (m_blocks b) n i = Some j.
Proof.
  induction n as [|n IH]; intros i j W L Lj Hd; cbn [iter_steps].
  - f_equal. apply (live_lin_inj b); [assumption|assumption|lia].
  - destruct (iter_incr_spec b i W L) as [Hs Hex].
    destruct Hex as (i' & E).
    + destruct L as (Hp & Hb & Ho), Lj as (Hp' & Hb' & Ho').
      unfold lin in Hd. rewrite Hp, Hp' in Hd.
      destruct (Z_lt_le_dec (p_off (m_position i) + 1) DATA_SIZE); [now right|].
      left. nia.
    + rewrite E. destruct (Hs i' E) as [L' E']. apply IH; try assumption. lia.
Qed.


Lemma iter_sub_distance (j i : iterator) :
  0 <= distance DATA_SIZE j i < 2 ^ 64 ->
  iter_sub DATA_SIZE j i = distance DATA_SIZE j i.
Proof.
  intros H. unfold iter_sub, size_t_wrap, ptr_diff, distance in *.
  cbn [p_off]. rewrite !Z.sub_0_r.
  rewrite Zminus_mod_idemp_l, Zplus_mod_idemp_l.
  rewrite Z.mod_small; lia.
Qed.

(** C3.  For live iterators [i <= j] of a well-formed buffer whose data
    areas fit in the range of [size_t], [j - i] is
    [(j.block.id - i.block.id) * DATA_SIZE + (j.offset - j.block.begin)
     - (i.offset - i.block.begin)], and that many applications of [++] take
    [i] to [j]; no other number of applications does. *)
Theorem iterator_distance (b : Buffer) (i j : iterator) :
  wf b -> live b i -> live b j ->
  iter_ltb i j = true \/ iter_eqb i j = true ->
  (m_blockId b - head_id b) * DATA_SIZE < 2 ^ 64 ->
  iter_sub DATA_SIZE j i = distance DATA_SIZE j i /\
  0 <= distance DATA_SIZE j i /\
  iter_steps DATA_SIZE (m_blocks b) (Z.to_nat (distance DATA_SIZE j i)) i
  = Some j /\
  (forall n, iter_steps DATA_SIZE (m_blocks b) n i = Some j ->
             Z.of_nat n = iter_sub DATA_SIZE j i).
Proof.
  intros W Li Lj Hle Hfit.
  pose proof Li as (Hp & Hb & Ho). pose proof Lj as (Hp' & Hb' & Ho').
  assert (Hd : 0 <= distance DATA_SIZE j i).
  { unfold distance. destruct Hle as [H|H].
    - unfold iter_ltb in H. apply orb_prop in H as [H|H].
      + apply Z.ltb_lt in H. nia.
      + apply andb_prop in H as [H1 H2].
        apply Z.eqb_eq in H1. apply Z.ltb_lt in H2. rewrite H1. lia.
    - unfold iter_eqb, ptr_eqb in H. apply andb_prop in H as [H1 H2].
      apply Z.eqb_eq in H1, H2. rewrite <- Hp, <- Hp', H1, H2. lia. }
  assert (Hlt : distance DATA_SIZE j i < 2 ^ 64) by (unfold distance; nia).
  assert (Hsub : iter_sub DATA_SIZE j i = distance DATA_SIZE j i)
    by (apply iter_sub_distance; lia).
  assert (Hlin : lin (m_position j)
                 = lin (m_position i) + distance DATA_SIZE j i)
    by (unfold lin, distance; rewrite Hp, Hp'; ring).
  repeat split; try assumption.
  - apply (iter_steps_reach b); try assumption. lia.
  - intros n Hn. apply (iter_steps_lin b n i j W Li) in Hn as [_ Hn]. lia.
Qed.


(** ** getIOV, continued *)

Lemma getIOV_loop_spans (start end' : iterator) (max_size : Z)
  (rest : list Block) :
  forall (cur : Block) (c : nat),
    chain (id cur) (cur :: rest) ->
    id cur = m_block start + Z.of_nat c ->
    id cur <= m_block end' < id cur + Z.of_nat (length (cur :: rest)) ->
    let m := Z.to_nat (Z.min max_size (m_block end' - m_block start + 1)
                       - Z.of_nat c) in
    getIOV_loop DATA_SIZE cur rest (m_block end') (m_position end')
      (iov_base (span_of DATA_SIZE start end' c)) (Z.of_nat c) max_size
    = Some (map (span_of DATA_SIZE start end') (seq c m), Z.of_nat (c + m)).
Proof.
  induction rest as [|nb rest IH]; intros cur c Hc Hid Hr m;
    cbn [getIOV_loop length] in *;
    (destruct (Z.ltb_spec (Z.of_nat c) max_size) as [L|L];
     [|assert (Hm : m = 0%nat) by (subst m; lia); rewrite Hm; cbn [seq map];
       do 2 f_equal; lia]);
    destruct (Z.eqb_spec (id cur) (m_block end')) as [E|E]; try lia.
  - assert (Hm : m = 1%nat) by (subst m; lia). rewrite Hm. cbn [seq map].
    unfold span_of, ptr_diff. cbn [iov_base]. rewrite <- Hid.
    destruct (Z.eqb_spec (id cur) (m_block end')); [|lia].
    f_equal; f_equal; try reflexivity; lia.
  - assert (Hm : m = 1%nat) by (subst m; lia). rewrite Hm. cbn [seq map].
    unfold span_of, ptr_diff. cbn [iov_base]. rewrite <- Hid.
    destruct (Z.eqb_spec (id cur) (m_block end')); [|lia].
    f_equal; f_equal; try reflexivity; lia.
  - destruct Hc as (_ & _ & Hn & Hl & Hc).
    assert (Hm : m = S (Z.to_nat (Z.min max_size
                                    (m_block end' - m_block start + 1)
                                  - Z.of_nat (S c)))) by (subst m; lia).
    rewrite Hm.
    assert (Hb : Block_begin nb
                 = iov_base (span_of DATA_SIZE start end' (S c))).
    { unfold span_of, Block_begin. cbn [iov_base]. f_equal. lia. }
    rewrite Hb.
    replace (Z.of_nat c + 1) with (Z.of_nat (S c)) by lia.
    rewrite IH; try (cbn [chain]; tauto); try lia.
    cbn [seq map]. f_equal. f_equal.
    + f_equal. unfold span_of, ptr_diff, Block_end. cbn [iov_base p_off].
      rewrite <- Hid.
      destruct (Z.eqb_spec (id cur) (m_block end')); [lia|]. reflexivity.
    + lia.
    + cbn [chain]. rewrite Hn. tauto.
Qed.


Lemma iov_bytes_spans (h : Z) (blocks : list Block) (start end' : iterator) :
  chain h blocks ->
  p_block (m_position start) = m_block start ->
  p_block (m_position end') = m_block end' ->
  h <= m_block start -> m_block end' < h + Z.of_nat (length blocks) ->
  0 <= p_off (m_position start) <= DATA_SIZE ->
  0 <= p_off (m_position end') <= DATA_SIZE ->
  m_block start < m_block end' \/
  (m_block start = m_block end' /\
   p_off (m_position start) <= p_off (m_position end')) ->
  forall (m c : nat),
    Z.of_nat (c + S m) = m_block end' - m_block start + 1 ->
    let base := iov_base (span_of DATA_SIZE start end' c) in
    iov_bytes DATA_SIZE blocks
      (map (span_of DATA_SIZE start end') (seq c (S m)))
    = Some (firstn (Z.to_nat (lin (m_position end') - lin base))
              (skipn (Z.to_nat (index h base)) (flat blocks))).
Proof.
  intros Hc Hps Hpe Hh He Hso Heo Hle.
  assert (Hbase : forall c, p_block (iov_base (span_of DATA_SIZE start end' c))
                            = m_block start + Z.of_nat c /\
                            0 <= p_off (iov_base (span_of DATA_SIZE start end' c))
                            <= DATA_SIZE /\
                            (c <> 0%nat ->
                             p_off (iov_base (span_of DATA_SIZE start end' c))
                             = 0) /\
                            (c = 0%nat ->
                             p_off (iov_base (span_of DATA_SIZE start end' c))
                             = p_off (m_position start))).
  { intros [|c]; unfold span_of; cbn [iov_base p_block p_off];
      repeat split; intros; try discriminate; lia. }
  assert (Hlen : forall c,
             iov_len (span_of DATA_SIZE start end' c)
             = (if m_block start + Z.of_nat c =? m_block end'
                then p_off (m_position end') else DATA_SIZE)
               - p_off (iov_base (span_of DATA_SIZE start end' c)))
    by reflexivity.
  assert (Hcons : forall v vs,
             iov_bytes DATA_SIZE blocks (v :: vs)
             = match load DATA_SIZE blocks (iov_base v) (iov_len v),
                     iov_bytes DATA_SIZE blocks vs with
               | Some x, Some y => Some (x ++ y)
               | _, _ => None
               end) by reflexivity.
  induction m as [|m IH]; intros c Hcm base; subst base;
    destruct (Hbase c) as (B1 & B2 & B3 & B4);
    rewrite <- cons_seq, map_cons, Hcons, Hlen;
    set (base := iov_base (span_of DATA_SIZE start end' c)) in *.
  - destruct (Z.eqb_spec (m_block start + Z.of_nat c) (m_block end')); [|lia].
    assert (Hn : 0 <= p_off (m_position end') - p_off base)
      by (destruct c;
          [specialize (B4 eq_refl)|specialize (B3 ltac:(discriminate))]; lia).
    rewrite (load_chain h) by (assumption || lia).
    cbn [seq map iov_bytes].
    rewrite app_nil_r. do 2 f_equal. unfold lin. rewrite Hpe, B1. nia.
  - destruct (Z.eqb_spec (m_block start + Z.of_nat c) (m_block end')); [lia|].
    rewrite (load_chain h) by (assumption || lia).
    specialize (IH (S c) ltac:(lia)). cbn zeta in IH.
    rewrite IH. destruct (Hbase (S c)) as (C1 & C2 & C3 & _).
    specialize (C3 ltac:(discriminate)).
    set (base' := iov_base (span_of DATA_SIZE start end' (S c))) in *.
    f_equal.
    replace (Z.to_nat (index h base'))
      with (Z.to_nat (DATA_SIZE - p_off base) + Z.to_nat (index h base))%nat.
    + rewrite <- skipn_skipn, firstn_firstn_skipn. f_equal.
      unfold lin. rewrite Hpe, B1, C1, C3. nia.
    + unfold index. rewrite B1, C1, C3.
      assert (0 <= (m_block start + Z.of_nat c - h) * DATA_SIZE)
        by (apply Z.mul_nonneg_nonneg; lia).
      nia.
Qed.


(** C4.  On a well-formed buffer, for iterators [start <= end] lying in
    the block list, [getIOV(start, end, vecs, max_size)] writes one
    descriptor per block traversed, in order: the first starts at
    [start.m_position], every later one at its block's begin; the one for
    [end]'s block ends at [end.m_position], every earlier one at its
    block's end.  It returns the number written, which is the number of
    blocks from [start] to [end] capped at [max_size].  When the count is
    not capped the spans, concatenated, are the bytes from [start] to
    [end]; for [getIOV(begin(), end(), ...)] they are the buffer's logical
    byte sequence. *)
Theorem getIOV_spans (b : Buffer) :
  wf b ->
  (forall start end' max_size,
      positioned DATA_SIZE b start -> positioned DATA_SIZE b end' ->
      iter_ltb start end' = true \/ iter_eqb start end' = true ->
      0 <= max_size ->
      let nb := m_block end' - m_block start + 1 in
      let n := Z.min max_size nb in
      let vecs := map (span_of DATA_SIZE start end') (seq 0 (Z.to_nat n)) in
      getIOV DATA_SIZE b start end' max_size = Some (vecs, n) /\
      (nb <= max_size ->
       iov_bytes DATA_SIZE (m_blocks b) vecs
       = Some (firstn (Z.to_nat (lin (m_position end')
                                 - lin (m_position start)))
                 (skipn (Z.to_nat (index (head_id b) (m_position start)))
                    (flat (m_blocks b)))))) /\
  (forall bi ei max_size,
      option_map fst (begin_ b) = Some bi ->
      option_map fst (end_ b) = Some ei -> nblocks b <= max_size ->
      exists vecs,
        getIOV DATA_SIZE b bi ei max_size = Some (vecs, nblocks b) /\
        iov_bytes DATA_SIZE (m_blocks b) vecs = Some (contents DATA_SIZE b)).
Proof.
  intros W.
  pose proof (wf_chain _ _ W) as Hc. pose proof (wf_blockId _ _ W) as Hbid.
  pose proof (wf_nonempty _ _ W) as Hne.
  assert (Main : forall start end' max_size,
      positioned DATA_SIZE b start -> positioned DATA_SIZE b end' ->
      iter_ltb start end' = true \/ iter_eqb start end' = true ->
      0 <= max_size ->
      let nb := m_block end' - m_block start + 1 in
      let n := Z.min max_size nb in
      let vecs := map (span_of DATA_SIZE start end') (seq 0 (Z.to_nat n)) in
      getIOV DATA_SIZE b start end' max_size = Some (vecs, n) /\
      (nb <= max_size ->
       iov_bytes DATA_SIZE (m_blocks b) vecs
       = Some (firstn (Z.to_nat (lin (m_position end')
                                 - lin (m_position start)))
                 (skipn (Z.to_nat (index (head_id b) (m_position start)))
                    (flat (m_blocks b)))))).
  { intros start end' max_size (Hp & Hb & Ho) (Hp' & Hb' & Ho') Hle Hmax
           nb n vecs.
    assert (Hord : m_block start < m_block end' \/
                   (m_block start = m_block end' /\
                    p_off (m_position start) <= p_off (m_position end'))).
    { destruct Hle as [H|H].
      - unfold iter_ltb in H. apply orb_prop in H as [H|H].
        + apply Z.ltb_lt in H. now left.
        + apply andb_prop in H as [H1 H2].
          apply Z.eqb_eq in H1. apply Z.ltb_lt in H2. right. lia.
      - unfold iter_eqb, ptr_eqb in H. apply andb_prop in H as [H1 H2].
        apply Z.eqb_eq in H1, H2. right. lia. }
    unfold nblocks in *.
    destruct (blocks_from_chain (head_id b) (m_block start) (m_blocks b) Hc)
      as (cur & rest & E1 & E2 & E3 & E4); [lia|].
    assert (Hlen : id cur + Z.of_nat (length (cur :: rest))
                   = head_id b + Z.of_nat (length (m_blocks b))).
    { apply (f_equal (@length _)) in E4.
      rewrite length_app, length_firstn in E4. lia. }
    split.
    - unfold getIOV. rewrite E1.
      pose proof (getIOV_loop_spans start end' max_size rest cur 0) as H.
      cbn zeta in H. rewrite Z.sub_0_r, Nat.add_0_l, Z2Nat.id in H by lia.
      apply H; [rewrite E2 in *; exact E3|lia|lia].
    - intros Hcap. subst vecs n nb.
      rewrite Z.min_r by lia.
      pose proof (iov_bytes_spans (head_id b) (m_blocks b) start end' Hc Hp Hp')
        as H.
      specialize (H ltac:(lia) ltac:(lia) Ho Ho' Hord
                    (Z.to_nat (m_block end' - m_block start)) 0%nat
                    ltac:(lia)).
      cbn zeta in H.
      replace (Z.to_nat (m_block end' - m_block start + 1))
        with (S (Z.to_nat (m_block end' - m_block start))) by lia.
      exact H. }
  split; [exact Main|].
  intros bi ei max_size Hbi Hei Hcap.
  destruct (last_block_chain _ _ Hc) as (last & El & Hlast);
    [unfold nblocks in *; lia|].
  unfold begin_, end_, first_block in *. rewrite El in Hei.
  unfold nblocks, head_id in *.
  destruct (m_blocks b) as [|f l] eqn:Eb; [cbn [length] in Hne; lia|].
  cbn in Hbi, Hei. injection Hbi as <-. injection Hei as <-.
  pose proof (wf_begin_block _ _ W) as Hbb.
  pose proof (wf_end_block _ _ W) as Heb.
  pose proof (wf_begin_off _ _ W) as Hbo.
  pose proof (wf_end_off _ _ W) as Heo.
  pose proof (wf_order _ _ W) as Hord.
  unfold nblocks, head_id in *. rewrite Eb in *.
  destruct (Main (mkIter (id f) (m_begin b)) (mkIter (id last) (m_end b))
              max_size) as [G1 G2];
    try (unfold positioned, head_id; rewrite Eb;
         cbn [m_block m_position]; lia);
    try (cbn [length] in *; lia).
  - unfold iter_ltb, iter_eqb, ptr_eqb. cbn [m_block m_position].
    destruct (Z.ltb_spec (id f) (id last)) as [L|L]; [now left|].
    assert (Hsame : id f = id last) by (cbn [length] in *; lia).
    specialize (Hord ltac:(cbn [length] in *; lia)).
    destruct (Z.ltb_spec (p_off (m_begin b)) (p_off (m_end b))) as [L'|L'].
    + left. rewrite Hsame, Z.eqb_refl. reflexivity.
    + right. apply andb_true_intro. split; apply Z.eqb_eq; lia.
  - cbn zeta in G1, G2. cbn [m_block m_position] in G1, G2.
    assert (Hnb : id last - id f + 1 = Z.of_nat (length (f :: l))) by lia.
    rewrite Hnb in G1, G2. rewrite Z.min_r in G1, G2 by lia.
    eexists. split; [exact G1|]. rewrite (G2 Hcap).
    unfold contents, byte_count, head_id, index, lin. rewrite Eb.
    do 3 f_equal. lia.
Qed.


(** ** dropFront and flush *)

Lemma dropFront_loop_spec (h : Z) (e : ptr) (blocks : list Block) :
  forall (all : allocator) (bg : ptr) (size : Z),
    chain h blocks -> p_block bg = h -> 0 <= p_off bg <= DATA_SIZE ->
    0 < size ->
    p_block e = h + Z.of_nat (length blocks) - 1 -> p_off e < DATA_SIZE ->
    lin bg + size <= lin e ->
    exists blocks' all' bg' size' pre,
      dropFront_loop DATA_SIZE blocks all bg size (DATA_SIZE - p_off bg)
      = Some (blocks', all', bg', size') /\
      blocks = pre ++ blocks' /\ blocks' <> [] /\
      chain (h + Z.of_nat (length pre)) blocks' /\
      p_block bg' = h + Z.of_nat (length pre) /\
      lin bg' + size' = lin bg + size /\
      0 <= p_off bg' /\ 0 < size' /\ p_off bg' + size' <= DATA_SIZE /\
      all' = (all + length pre)%nat.
Proof.
  revert h. induction blocks as [|x nexts IH];
    intros h all bg size Hc Hp Ho Hs Hep Heo Hcap; cbn [length] in Hep.
  - exfalso. unfold lin in Hcap. rewrite Hp, Hep in Hcap. lia.
  - cbn [dropFront_loop].
    destruct (Z.gtb_spec size (DATA_SIZE - p_off bg)) as [G|G].
    + destruct nexts as [|tmp nexts'].
      * exfalso. unfold lin in Hcap. rewrite Hp, Hep in Hcap.
        cbn [length] in Hcap. nia.
      * destruct Hc as (Hid & Hl & Hc).
        assert (Htmp : id tmp = h + 1) by apply Hc.
        pose proof (IH (h + 1) (deallocate all) (Block_begin tmp)
                      (size - (DATA_SIZE - p_off bg)) Hc) as IH'.
        cbn [Block_begin p_block p_off] in IH'. rewrite Z.sub_0_r in IH'.
        destruct IH' as (bs' & all' & bg' & size' & pre & E1 & E2 & E3 & E4 &
                         E5 & E6 & E7 & E8 & E9 & E10); try lia.
        { unfold lin in *. cbn [Block_begin p_block p_off].
          rewrite Hp in Hcap. rewrite Htmp. lia. }
        rewrite E1.
        exists bs', all', bg', size', (x :: pre).
        split; [reflexivity|]. unfold lin in *.
        cbn [length p_block p_off app] in *. rewrite E2.
        repeat split; try assumption; try lia.
        -- replace (h + Z.of_nat (S (length pre)))
             with (h + 1 + Z.of_nat (length pre)) by lia. assumption.
        -- cbn [Block_begin p_block p_off] in E6. rewrite Htmp in E6.
           rewrite Hp. lia.
        -- unfold deallocate in E10. lia.
    + exists (x :: nexts), all, bg, size, [].
      cbn [length app]. rewrite Z.add_0_r, Nat.add_0_r.
      repeat split; try assumption; try lia; try discriminate; apply Hc.
Qed.


Lemma chain_head_id (h : Z) (bs : list Block) (x y z : ptr) (its : list iterator)
  (bid : Z) (all : allocator) :
  chain h bs -> bs <> [] -> head_id (mkBuffer bs its bid x y all) = h.
Proof.
  unfold head_id. cbn [m_blocks]. destruct bs; [contradiction|].
  intros Hc _. apply Hc.
Qed.

Lemma dropFront_spec (b : Buffer) (k : Z) :
  wf b -> 0 < k <= byte_count DATA_SIZE b ->
  exists b', dropFront DATA_SIZE b k = Some b' /\ wf b' /\
             lin (m_begin b') = lin (m_begin b) + k /\
             0 < p_off (m_begin b') /\
             m_end b' = m_end b /\ m_iterators b' = m_iterators b /\
             m_blockId b' = m_blockId b /\
             byte_count DATA_SIZE b' = byte_count DATA_SIZE b - k /\
             contents DATA_SIZE b'
             = skipn (Z.to_nat k) (contents DATA_SIZE b).
Proof.
  intros W Hk.
  pose proof (wf_chain _ _ W) as Hc. pose proof (wf_blockId _ _ W) as Hbid.
  pose proof (wf_nonempty _ _ W) as Hne.
  pose proof (wf_begin_block _ _ W) as Hbb.
  pose proof (wf_end_block _ _ W) as Heb.
  pose proof (wf_begin_off _ _ W) as Hbo.
  pose proof (wf_end_off _ _ W) as Heo.
  unfold byte_count, nblocks in *.
  destruct (dropFront_loop_spec (head_id b) (m_end b) (m_blocks b) (m_all b)
              (m_begin b) k Hc Hbb Hbo)
    as (bs' & all' & bg' & size' & pre & E1 & E2 & E3 & E4 & E5 & E6 & E7 &
        E8 & E9 & E10); try lia.
  unfold dropFront.
  destruct (m_blocks b) as [|x l] eqn:Eb; [cbn [length] in Hne; lia|].
  unfold ptr_diff, Block_end. cbn [p_off]. rewrite E1.
  eexists. split; [reflexivity|].
  set (b' := mkBuffer bs' (m_iterators b) (m_blockId b) (ptr_add bg' size')
               (m_end b) all').
  assert (Hh : head_id b' = head_id b + Z.of_nat (length pre))
    by (apply chain_head_id; assumption).
  assert (Hlen : length (x :: l) = (length pre + length bs')%nat)
    by (rewrite E2; apply length_app).
  assert (Hlin : lin (m_begin b') = lin (m_begin b) + k)
    by (unfold lin in *; cbn [b' m_begin ptr_add p_block p_off]; lia).
  assert (Hbs' : (0 < length bs')%nat) by (destruct bs'; cbn; [contradiction|lia]).
  assert (W' : wf b').
  { constructor; unfold nblocks; rewrite ?Hh;
      cbn [b' m_blocks m_blockId m_begin m_end ptr_add p_block p_off];
      try assumption; try lia.
    intros H1. unfold lin in *. rewrite Heb, E5 in *.
    cbn [b' m_begin ptr_add p_block p_off] in Hlin.
    assert (head_id b + Z.of_nat (length pre) = m_blockId b - 1) by lia.
    nia. }
  split; [exact W'|]. split; [exact Hlin|].
  split; [cbn [b' m_begin ptr_add p_off]; lia|].
  split; [reflexivity|]. split; [reflexivity|]. split; [reflexivity|].
  split; [rewrite Hlin; cbn [b' m_end]; lia|].
  unfold contents, byte_count. rewrite Hlin, Hh, Eb.
  cbn [b' m_blocks m_end]. rewrite E2, flat_app.
  pose proof Hc as Hpre. rewrite E2 in Hpre.
  apply chain_app in Hpre as [Hpre _].
  pose proof (chain_flat_length _ _ Hpre) as Hfl.
  rewrite skipn_firstn_comm, skipn_skipn.
  f_equal; [lia|].
  replace (Z.to_nat k + Z.to_nat (lin (m_begin b) - head_id b * DATA_SIZE))%nat
    with (length (flat pre) +
          Z.to_nat (lin (m_begin b) + k -
                    (head_id b + Z.of_nat (length pre)) * DATA_SIZE))%nat.
  - rewrite skipn_app, (@skipn_all2 _ _ (flat pre)) by lia.
    cbn [app].
    replace (length (flat pre) + _ - length (flat pre))%nat
      with (Z.to_nat (lin (m_begin b) + k -
                      (head_id b + Z.of_nat (length pre)) * DATA_SIZE)) by lia.
    reflexivity.
  - unfold lin in *. rewrite Hbb, E5 in *. nia.
Qed.


Lemma flush_distance_spec (order : operand_order) (b : Buffer) :
  wf b -> (m_blockId b - head_id b) * DATA_SIZE < 2 ^ 64 ->
  (forall first rest, m_iterators b = first :: rest ->
     live b first /\
     lin (m_begin b) <= lin (m_position first) <= lin (m_end b)) ->
  order = first_then_begin \/ m_iterators b = [] ->
  let target := match m_iterators b with
                | first :: _ => m_position first
                | [] => m_end b
                end in
  flush_distance DATA_SIZE order b = Some (lin target - lin (m_begin b)) /\
  0 <= lin target - lin (m_begin b) <= byte_count DATA_SIZE b.
Proof.
  intros W Hfit Hreg Hord target.
  pose proof (wf_chain _ _ W) as Hc. pose proof (wf_blockId _ _ W) as Hbid.
  pose proof (wf_nonempty _ _ W) as Hne.
  pose proof (wf_begin_block _ _ W) as Hbb.
  pose proof (wf_end_block _ _ W) as Heb.
  pose proof (wf_begin_off _ _ W) as Hbo.
  pose proof (wf_end_off _ _ W) as Heo.
  pose proof (wf_begin_le_end b W) as Hble.
  destruct (last_block_chain _ _ Hc) as (last & El & Hlast);
    [unfold nblocks in *; lia|].
  unfold flush_distance, begin_, end_, first_block, byte_count. rewrite El.
  unfold nblocks, head_id in *.
  destruct (m_blocks b) as [|f l] eqn:Eb; [cbn [length] in Hne; lia|].
  cbn [hd_error]. subst target.
  destruct (m_iterators b) as [|first rest] eqn:Ei.
  - split; [|lia]. f_equal. rewrite iter_sub_distance;
      unfold distance, lin in *; cbn [m_block m_position];
      rewrite ?Hbb, ?Heb in *; nia.
  - destruct Hord as [-> | Hord]; [|discriminate].
    destruct (Hreg first rest eq_refl) as ((Hp & Hb & Ho) & Hr).
    split; [|lia]. f_equal. rewrite iter_sub_distance;
      unfold distance, lin in *; cbn [m_block m_position];
      rewrite ?Hbb, ?Hp in *; nia.
Qed.


(** What [flush()] is written to do, and does when no iterator is
    registered or when [m_iterators.first()] is evaluated before
    [begin()]: it drops exactly the bytes from the head up to the first
    registered iterator, or up to [end()] when the registry is empty, and
    leaves the buffer as it is when that distance is zero. *)
Lemma flush_first_then_begin (order : operand_order) (b : Buffer) :
  wf b -> (m_blockId b - head_id b) * DATA_SIZE < 2 ^ 64 ->
  (forall first rest, m_iterators b = first :: rest ->
     live b first /\
     lin (m_begin b) <= lin (m_position first) <= lin (m_end b)) ->
  order = first_then_begin \/ m_iterators b = [] ->
  let target := match m_iterators b with
                | first :: _ => m_position first
                | [] => m_end b
                end in
  let d := lin target - lin (m_begin b) in
  flush_distance DATA_SIZE order b = Some d /\
  exists b',
    flush DATA_SIZE order b = Some b' /\ (d = 0 -> b' = b) /\ wf b' /\
    contents DATA_SIZE b' = skipn (Z.to_nat d) (contents DATA_SIZE b) /\
    byte_count DATA_SIZE b' = byte_count DATA_SIZE b - d /\
    lin (m_begin b') = lin target /\ m_end b' = m_end b /\
    m_iterators b' = m_iterators b /\
    (forall first rest bi,
        m_iterators b = first :: rest ->
        option_map fst (begin_ b') = Some bi ->
        iter_sub DATA_SIZE first bi = 0 /\
        (p_off (m_position first) <> 0 -> iter_eqb bi first = true)).
Proof.
  intros W Hfit Hreg Hord target d.
  destruct (flush_distance_spec order b W Hfit Hreg Hord) as [Hd Hrange].
  fold target in Hd, Hrange. fold d in Hd, Hrange.
  split; [exact Hd|].
  assert (Hfirst : forall b' first rest bi,
             wf b' -> lin (m_begin b') = lin target ->
             m_iterators b = first :: rest ->
             option_map fst (begin_ b') = Some bi ->
             iter_sub DATA_SIZE first bi = 0 /\
             (p_off (m_position first) <> 0 -> iter_eqb bi first = true)).
  { intros b' first rest bi W' Hl Hi Hbi.
    destruct (Hreg first rest Hi) as ((Hp & Hb & Ho) & Hr).
    subst target. rewrite Hi in Hl.
    pose proof (wf_begin_block _ _ W') as Hbb.
    pose proof (wf_begin_off _ _ W') as Hbo.
    pose proof (wf_nonempty _ _ W') as Hne.
    unfold begin_, first_block, nblocks, head_id in *.
    destruct (m_blocks b') as [|f l]; [cbn [length] in Hne; lia|].
    cbn in Hbi. injection Hbi as <-. unfold lin in Hl.
    rewrite Hbb, Hp in Hl. split.
    - rewrite iter_sub_distance; unfold distance; cbn [m_block m_position];
        lia.
    - intros Hnz. unfold iter_eqb, ptr_eqb. cbn [m_position].
      rewrite Hbb, Hp. apply andb_true_intro.
      assert (id f = m_block first) by nia.
      split; apply Z.eqb_eq; nia. }
  unfold flush. rewrite Hd.
  destruct (Z.gtb_spec d 0) as [G|G].
  - destruct (dropFront_spec b d W) as (b' & E & W' & Hl & _ & He & Hi & _ &
                                         Hbc & Hcont); [lia|].
    exists b'. split; [exact E|]. split; [lia|].
    assert (Hl' : lin (m_begin b') = lin target) by (subst d; lia).
    split; [exact W'|]. split; [exact Hcont|]. split; [exact Hbc|].
    split; [exact Hl'|]. split; [exact He|]. split; [exact Hi|].
    intros first rest bi. now apply Hfirst.
  - assert (d = 0) by lia. exists b. split; [reflexivity|].
    assert (Hl' : lin (m_begin b) = lin target) by (subst d; lia).
    replace d with 0 by lia. cbn [Z.to_nat skipn].
    split; [reflexivity|]. split; [exact W|]. split; [reflexivity|].
    split; [lia|]. split; [exact Hl'|]. split; [reflexivity|].
    split; [reflexivity|].
    intros first rest bi. now apply Hfirst.
Qed.


(** C7 (the code fails it).  In [m_iterators.first() - begin()] the call
    [begin()] registers its temporary at the head of the registry.  When
    it is evaluated before [m_iterators.first()], the minuend is that
    temporary: the distance is 0 and [flush()] drops nothing whenever an
    iterator is registered, however far from the head the first
    registered iterator is. *)
Theorem flush_drops_nothing_when_registered (b : Buffer) :
  m_blocks b <> [] -> m_iterators b <> [] ->
  flush_distance DATA_SIZE begin_then_first b = Some 0 /\
  flush DATA_SIZE begin_then_first b = Some b.
Proof.
  intros Hb Hi.
  assert (Hd : flush_distance DATA_SIZE begin_then_first b = Some 0).
  { unfold flush_distance, begin_, first_block.
    destruct (m_blocks b) as [|f l]; [contradiction|].
    destruct (m_iterators b) as [|first rest]; [contradiction|].
    cbn [hd_error m_iterators]. f_equal.
    rewrite iter_sub_distance; unfold distance; lia. }
  split; [exact Hd|]. unfold flush. rewrite Hd. reflexivity.
Qed.


(** ** has *)

Lemma has_loop_spec (last : Z) (e : ptr) (rest : list Block) :
  forall (cur : Block) (pos : ptr) (size : Z),
    chain (id cur) (cur :: rest) ->
    id cur + Z.of_nat (length (cur :: rest)) = last + 1 ->
    p_block e = last -> 0 <= p_off e < DATA_SIZE -> DATA_SIZE < 2 ^ 64 ->
    p_block pos = id cur ->
    (id cur <> last -> p_off pos = 0) ->
    (id cur = last -> 0 <= p_off pos <= p_off e) ->
    has_loop DATA_SIZE cur rest last e pos size
    = Some (size <=? lin e - lin pos).
Proof.
  induction rest as [|nb rest IH];
    intros cur pos size Hc Hlen He Heo Hfit Hp Hn Hl;
    cbn [has_loop length] in *;
    destruct (Z.eqb_spec (id cur) last) as [E|E]; cbn [negb]; try lia.
  - specialize (Hl E). unfold size_t_wrap, ptr_diff, lin.
    rewrite Z.mod_small by lia. rewrite He, Hp, E. do 2 f_equal. lia.
  - specialize (Hn E). destruct Hc as (_ & _ & Hid & Hl' & Hc).
    assert (Hd : DATA_SIZE <= lin e - lin pos)
      by (unfold lin; rewrite He, Hp, Hn; nia).
    destruct (Z.leb_spec size DATA_SIZE) as [L|L].
    + f_equal. symmetry. apply Z.leb_le. lia.
    + rewrite IH; try (cbn [Block_begin p_block p_off]; lia).
      * f_equal. unfold lin in *. cbn [Block_begin p_block p_off].
        rewrite Hid, Hp. 
        destruct (Z.leb_spec (size - DATA_SIZE)
                    (p_block e * DATA_SIZE + p_off e -
                     ((id cur + 1) * DATA_SIZE + 0)));
          symmetry; [apply Z.leb_le|apply Z.leb_gt]; lia.
      * cbn [chain]. rewrite Hid. tauto.
Qed.

(** X1.  [has(itr, size)] answers whether [size] bytes lie between [itr]
    and [m_end]: for an iterator of the block list at or before [m_end] it
    returns [size <= m_end - itr], whichever of its three exits is taken. *)
Theorem has_spec (b : Buffer) (i : iterator) (size : Z) :
  wf b -> positioned DATA_SIZE b i ->
  lin (m_position i) <= lin (m_end b) ->
  (m_blockId b - head_id b) * DATA_SIZE < 2 ^ 64 ->
  has DATA_SIZE b i size
  = Some (size <=? lin (m_end b) - lin (m_position i)).
Proof.
  intros W (Hp & Hb & Ho) Hle Hfit.
  pose proof (wf_chain _ _ W) as Hc. pose proof (wf_blockId _ _ W) as Hbid.
  pose proof (wf_nonempty _ _ W) as Hne.
  pose proof (wf_end_block _ _ W) as Heb.
  pose proof (wf_end_off _ _ W) as Heo.
  unfold nblocks in *.
  assert (HD : DATA_SIZE < 2 ^ 64) by nia.
  destruct (last_block_chain _ _ Hc) as (lb & El & Hlast); [lia|].
  destruct (blocks_from_chain (head_id b) (m_block i) (m_blocks b) Hc)
    as (cur & rest & E1 & E2 & E3 & E4); [lia|].
  assert (Hlen : id cur + Z.of_nat (length (cur :: rest)) = id lb + 1).
  { apply (f_equal (@length _)) in E4.
    rewrite length_app, length_firstn in E4. lia. }
  unfold has. rewrite E1, El. rewrite <- E2 in E3.
  destruct (Z.eqb_spec (id cur) (id lb)) as [E|E]; cbn [negb].
  - assert (Hoff : 0 <= p_off (m_position i) <= p_off (m_end b)).
    { unfold lin in Hle. rewrite Hp, Heb in Hle.
      assert (m_block i = m_blockId b - 1) by lia. nia. }
    apply has_loop_spec; try assumption; try lia; intros; lia.
  - unfold size_t_wrap, ptr_diff, Block_end. cbn [p_off].
    rewrite Z.mod_small by lia.
    assert (Hd : DATA_SIZE - p_off (m_position i)
                 <= lin (m_end b) - lin (m_position i))
      by (unfold lin; rewrite Heb, Hp; nia).
    destruct (Z.leb_spec size (DATA_SIZE - p_off (m_position i))) as [L|L].
    + f_equal. symmetry. apply Z.leb_le. lia.
    + destruct rest as [|nb rest]; [cbn [length] in Hlen; lia|].
      destruct E3 as (_ & _ & Hid & Hl' & Hc').
      rewrite (has_loop_spec (id lb) (m_end b) rest nb);
        try (cbn [Block_begin p_block p_off length] in *; lia).
      * f_equal. unfold lin in *. cbn [Block_begin p_block p_off].
        rewrite Hid, Hp, E2.
        destruct (Z.leb_spec (size - (DATA_SIZE - p_off (m_position i)))
                    (p_block (m_end b) * DATA_SIZE + p_off (m_end b) -
                     ((m_block i + 1) * DATA_SIZE + 0)));
          symmetry; [apply Z.leb_le|apply Z.leb_gt]; lia.
      * cbn [chain]. rewrite Hid. tauto.
Qed.


(** ** Order of iterators *)

(** X2.  On live iterators [operator<] is the order of logical positions
    and [operator==] is equality of logical positions, which is equality
    of the iterators; exactly one of [i < j], [i == j], [j < i] holds. *)
Theorem iterator_order (b : Buffer) (i j : iterator) :
  live b i -> live b j ->
  (iter_ltb i j = true <-> lin (m_position i) < lin (m_position j)) /\
  (iter_eqb i j = true <-> lin (m_position i) = lin (m_position j)) /\
  (iter_eqb i j = true <-> i = j) /\
  (iter_ltb i j = true /\ iter_eqb i j = false /\ iter_ltb j i = false \/
   iter_ltb i j = false /\ iter_eqb i j = true /\ iter_ltb j i = false \/
   iter_ltb i j = false /\ iter_eqb i j = false /\ iter_ltb j i = true).
Proof.
  intros Li Lj. pose proof Li as (Hp & Hb & Ho). pose proof Lj as (Hp' & Hb' & Ho').
  assert (Hlt : forall x y, live b x -> live b y ->
            (iter_ltb x y = true <-> lin (m_position x) < lin (m_position y))).
  { intros x y (Xp & Xb & Xo) (Yp & Yb & Yo). unfold iter_ltb, lin.
    rewrite Xp, Yp, orb_true_iff, andb_true_iff, !Z.ltb_lt, Z.eqb_eq.
    split; [intros [H|[H1 H2]]; [nia|rewrite H1; lia]|].
    intros H. destruct (Z.eq_dec (m_block x) (m_block y)) as [E|E].
    - right. rewrite E in H. lia.
    - left. nia. }
  assert (Heq : iter_eqb i j = true <-> lin (m_position i) = lin (m_position j)).
  { unfold iter_eqb, ptr_eqb, lin.
    rewrite andb_true_iff, !Z.eqb_eq, Hp, Hp'.
    split; [intros [H1 H2]; rewrite H1, H2; reflexivity|].
    intros H. assert (m_block i = m_block j) by nia. split; [assumption|nia]. }
  split; [apply Hlt; assumption|]. split; [exact Heq|]. split.
  - rewrite Heq. split; [apply (live_lin_inj b); assumption|now intros ->].
  - pose proof (Hlt i j Li Lj) as H1. pose proof (Hlt j i Lj Li) as H2.
    destruct (iter_ltb i j), (iter_eqb i j), (iter_ltb j i);
      try (right; left; easy); try (left; easy); try (right; right; easy);
      exfalso;
      repeat match goal with
             | H : true = true <-> _ |- _ => pose proof (proj1 H eq_refl); clear H
             | H : false = true <-> _ |- _ =>
                 assert (~ _) by (intro X; apply H in X; discriminate); clear H
             end; lia.
Qed.


(** ** moveForward and moveBackward *)

Lemma moveForward_loop_spec (rest : list Block) :
  forall (cur : Block) (pos : ptr) (step : Z),
    chain (id cur) (cur :: rest) -> p_block pos = id cur ->
    0 <= p_off pos <= DATA_SIZE -> 0 <= step ->
    p_off pos + step < Z.of_nat (length (cur :: rest)) * DATA_SIZE ->
    exists i', moveForward_loop DATA_SIZE cur rest pos step = Some i' /\
               p_block (m_position i') = m_block i' /\
               id cur <= m_block i' < id cur + Z.of_nat (length (cur :: rest)) /\
               0 <= p_off (m_position i') < DATA_SIZE /\
               lin (m_position i') = lin pos + step.
Proof.
  induction rest as [|nb rest IH]; intros cur pos step Hc Hp Ho Hs Hcap;
    cbn [moveForward_loop length] in *; unfold ptr_diff, Block_end;
    cbn [p_off];
    destruct (Z.geb_spec step (DATA_SIZE - p_off pos)) as [G|G]; try lia.
  - eexists. split; [reflexivity|]. unfold lin, ptr_add.
    cbn [m_position m_block p_block p_off]. rewrite Hp. lia.
  - destruct Hc as (_ & _ & Hid & Hl & Hc).
    destruct (IH nb (Block_begin nb) (step - (DATA_SIZE - p_off pos)))
      as (i' & E & H1 & H2 & H3 & H4);
      try (cbn [Block_begin p_block p_off]; lia).
    { cbn [chain]. rewrite Hid. tauto. }
    exists i'. split; [exact E|]. split; [exact H1|].
    split; [lia|]. split; [exact H3|].
    rewrite H4. unfold lin. cbn [Block_begin p_block p_off].
    rewrite Hid, Hp. lia.
  - eexists. split; [reflexivity|]. unfold lin, ptr_add.
    cbn [m_position m_block p_block p_off]. rewrite Hp. lia.
Qed.

Lemma moveForward_spec (b : Buffer) (i : iterator) (step : Z) :
  wf b -> live b i -> 0 <= step ->
  lin (m_position i) + step < m_blockId b * DATA_SIZE ->
  exists i', moveForward DATA_SIZE (m_blocks b) i step = Some i' /\
             live b i' /\
             lin (m_position i') = lin (m_position i) + step.
Proof.
  intros W (Hp & Hb & Ho) Hs Hcap.
  pose proof (wf_chain _ _ W) as Hc. pose proof (wf_blockId _ _ W) as Hbid.
  unfold nblocks in *.
  destruct (blocks_from_chain (head_id b) (m_block i) (m_blocks b) Hc)
    as (cur & rest & E1 & E2 & E3 & E4); [lia|].
  assert (Hlen : id cur + Z.of_nat (length (cur :: rest))
                 = head_id b + Z.of_nat (length (m_blocks b))).
  { apply (f_equal (@length _)) in E4.
    rewrite length_app, length_firstn in E4. lia. }
  rewrite <- E2 in E3. unfold moveForward. rewrite E1.
  destruct (moveForward_loop_spec rest cur (m_position i) step E3)
    as (i' & E & H1 & H2 & H3 & H4); try lia.
  { unfold lin in Hcap. rewrite Hp in Hcap. nia. }
  exists i'. split; [exact E|]. split; [|exact H4].
  unfold live. split; [exact H1|]. split; [lia|exact H3].
Qed.


Lemma dchain_app (top : Z) (l1 l2 : list Block) :
  dchain top (l1 ++ l2)
  <-> dchain top l1 /\ dchain (top - Z.of_nat (length l1)) l2.
Proof.
  revert top. induction l1 as [|x l1 IH]; intros top; cbn [app dchain length].
  - rewrite Z.sub_0_r. tauto.
  - rewrite IH.
    replace (top - 1 - Z.of_nat (length l1))
      with (top - Z.of_nat (S (length l1))) by lia. tauto.
Qed.

Lemma dchain_of_chain (h : Z) (l : list Block) :
  chain h l -> dchain (h + Z.of_nat (length l) - 1) (rev l).
Proof.
  revert h. induction l as [|x l IH]; intros h Hc; cbn [rev length];
    [exact I|].
  destruct Hc as (Hid & _ & Hc). apply IH in Hc. apply dchain_app.
  rewrite length_rev. split.
  - replace (h + Z.of_nat (S (length l)) - 1)
      with (h + 1 + Z.of_nat (length l) - 1) by lia. exact Hc.
  - cbn [dchain]. split; [lia|exact I].
Qed.

Lemma blocks_from_dchain (top i : Z) (l : list Block) :
  dchain top l -> top - Z.of_nat (length l) < i <= top ->
  exists cur prevs, blocks_from l i = cur :: prevs /\
                    dchain i (cur :: prevs) /\
                    Z.of_nat (length prevs)
                    = Z.of_nat (length l) - (top - i) - 1.
Proof.
  revert top. induction l as [|x l IH]; intros top Hd Hi;
    cbn [length blocks_from] in *; [lia|].
  destruct Hd as (Hid & Hd).
  destruct (Z.eqb_spec (id x) i) as [E|E].
  - exists x, l. subst i. split; [reflexivity|]. split; [|lia].
    cbn [dchain]. split; [reflexivity|]. rewrite Hid. exact Hd.
  - destruct (IH (top - 1) Hd) as (cur & prevs & E1 & E2 & E3); [lia|].
    exists cur, prevs. split; [exact E1|]. split; [exact E2|]. lia.
Qed.

Lemma moveBackward_loop_spec (prevs : list Block) :
  forall (cur : Block) (pos : ptr) (step : Z),
    dchain (id cur) (cur :: prevs) -> p_block pos = id cur ->
    0 <= p_off pos <= DATA_SIZE -> 0 <= step ->
    step <= p_off pos + Z.of_nat (length prevs) * DATA_SIZE ->
    0 < step \/ p_off pos < DATA_SIZE ->
    exists i', moveBackward_loop DATA_SIZE cur prevs pos step = Some i' /\
               p_block (m_position i') = m_block i' /\
               id cur - Z.of_nat (length prevs) <= m_block i' <= id cur /\
               0 <= p_off (m_position i') < DATA_SIZE /\
               lin (m_position i') = lin pos - step.
Proof.
  induction prevs as [|pb prevs IH]; intros cur pos step Hd Hp Ho Hs Hcap Hn;
    cbn [moveBackward_loop length] in *; unfold ptr_diff, Block_begin;
    cbn [p_off];
    destruct (Z.gtb_spec step (p_off pos - 0)) as [G|G]; try lia.
  - eexists. split; [reflexivity|]. unfold lin, ptr_add.
    cbn [m_position m_block p_block p_off]. rewrite Hp. lia.
  - destruct Hd as (_ & Hid & Hd).
    destruct (IH pb (Block_end DATA_SIZE pb) (step - (p_off pos - 0)))
      as (i' & E & H1 & H2 & H3 & H4);
      try (cbn [Block_end p_block p_off]; lia).
    { cbn [dchain]. split; [reflexivity|]. rewrite Hid. exact Hd. }
    exists i'. split; [exact E|]. split; [exact H1|].
    split; [lia|]. split; [exact H3|].
    rewrite H4. unfold lin. cbn [Block_end p_block p_off].
    rewrite Hid, Hp. lia.
  - eexists. split; [reflexivity|]. unfold lin, ptr_add.
    cbn [m_position m_block p_block p_off]. rewrite Hp. lia.
Qed.

Lemma moveBackward_spec (b : Buffer) (i : iterator) (step : Z) :
  wf b -> live b i -> 0 <= step ->
  head_id b * DATA_SIZE <= lin (m_position i) - step ->
  exists i', moveBackward DATA_SIZE (m_blocks b) i step = Some i' /\
             live b i' /\
             lin (m_position i') = lin (m_position i) - step.
Proof.
  intros W (Hp & Hb & Ho) Hs Hcap.
  pose proof (wf_chain _ _ W) as Hc. pose proof (wf_blockId _ _ W) as Hbid.
  unfold nblocks in *.
  pose proof (dchain_of_chain _ _ Hc) as Hd.
  destruct (blocks_from_dchain _ (m_block i) _ Hd)
    as (cur & prevs & E1 & E2 & E3); [rewrite length_rev; lia|].
  rewrite length_rev in E3.
  assert (Hid : id cur = m_block i) by apply E2.
  rewrite <- Hid in E2. unfold moveBackward. rewrite E1.
  destruct (moveBackward_loop_spec prevs cur (m_position i) step E2)
    as (i' & E & H1 & H2 & H3 & H4); try lia.
  { unfold lin in Hcap. rewrite Hp in Hcap. nia. }
  exists i'. split; [exact E|]. split; [|exact H4].
  unfold live. split; [exact H1|]. split; [lia|exact H3].
Qed.

(** X3.  [i += step] moves a live iterator [step] bytes forward, across
    block boundaries, to a live iterator, provided the target lies in the
    block list; moving the result [step] bytes backward (as [release]
    does) gives [i] back. *)
Theorem moveForward_moveBackward (b : Buffer) (i : iterator) (step : Z) :
  wf b -> live b i -> 0 <= step ->
  lin (m_position i) + step < m_blockId b * DATA_SIZE ->
  exists i', moveForward DATA_SIZE (m_blocks b) i step = Some i' /\
             live b i' /\
             lin (m_position i') = lin (m_position i) + step /\
             moveBackward DATA_SIZE (m_blocks b) i' step = Some i.
Proof.
  intros W L Hs Hcap.
  destruct (moveForward_spec b i step W L Hs Hcap) as (i' & E & L' & Hl).
  exists i'. split; [exact E|]. split; [exact L'|]. split; [exact Hl|].
  destruct (moveBackward_spec b i' step W L' Hs) as (i'' & E' & L'' & Hl').
  - destruct L as (Hp & Hb & Ho). unfold lin in *. rewrite Hp in *. nia.
  - rewrite E'. f_equal. apply (live_lin_inj b); try assumption. lia.
Qed.


(** ** What addBack and dropBack do to the byte sequence *)

Lemma contents_as_skipn_firstn (b : Buffer) :
  wf b ->
  contents DATA_SIZE b
  = skipn (Z.to_nat (index (head_id b) (m_begin b)))
      (firstn (Z.to_nat (index (head_id b) (m_end b))) (flat (m_blocks b))).
Proof.
  intros W. unfold contents, byte_count.
  pose proof (wf_begin_le_end b W) as Hle.
  pose proof (wf_begin_block _ _ W) as Hbb.
  pose proof (wf_begin_off _ _ W) as Hbo.
  rewrite firstn_skipn_comm. unfold index, lin in *. rewrite Hbb in *.
  f_equal; [f_equal; lia|]. f_equal. lia.
Qed.

Lemma addBack_appends_aux (b : Buffer) (s : list char) :
  wf b ->
  (exists o, addBack DATA_SIZE b s = Some o) /\
  (forall b', addBack DATA_SIZE b s = Some (Returned b') ->
     wf b' /\
     contents DATA_SIZE b' = contents DATA_SIZE b ++ s /\
     byte_count DATA_SIZE b' = byte_count DATA_SIZE b + Z.of_nat (length s) /\
     m_begin b' = m_begin b /\ m_iterators b' = m_iterators b).
Proof.
  intros W. destruct (addBack_total b s W) as (o & Eo & Hpost).
  split; [eauto|]. intros b' Hb'. rewrite Eo in Hb'. injection Hb' as ->.
  cbn [addBack_post] in Hpost.
  destruct Hpost as (W' & Hh & Hbg & Hit & Hlin & (G & HG) & _).
  split; [exact W'|]. split; [|split; [|split; assumption]].
  - rewrite (contents_as_skipn_firstn b' W'), (contents_as_skipn_firstn b W).
    rewrite Hh, Hbg, HG.
    pose proof (wf_begin_le_end b W) as Hle.
    pose proof (wf_begin_block _ _ W) as Hbb.
    pose proof (wf_begin_off _ _ W) as Hbo.
    pose proof (wf_end_block _ _ W) as Heb.
    pose proof (wf_end_block _ _ W') as Heb'.
    pose proof (index_end b W) as HE.
    pose proof (chain_flat_length _ _ (wf_chain _ _ W)) as HF.
    pose proof (wf_nonempty _ _ W) as Hne.
    pose proof (wf_end_off _ _ W) as Heo.
    set (E := Z.to_nat (index (head_id b) (m_end b))) in *.
    set (P := firstn E (flat (m_blocks b))).
    assert (HP : length P = E)
      by (unfold P; rewrite length_firstn; unfold E, nblocks in *; nia).
    assert (HE' : Z.to_nat (index (head_id b) (m_end b'))
                  = (length P + length s)%nat).
    { rewrite HP. unfold E, index, lin in *. rewrite Heb in *.
      unfold nblocks in *. nia. }
    rewrite HE'. rewrite app_assoc, firstn_app, firstn_all2
      by (rewrite length_app; lia).
    rewrite length_app.
    replace (length P + length s - (length P + length s))%nat with 0%nat by lia.
    cbn [firstn]. rewrite app_nil_r, skipn_app.
    replace (Z.to_nat (index (head_id b) (m_begin b)) - length P)%nat
      with 0%nat.
    + cbn [skipn]. reflexivity.
    + rewrite HP. unfold E, index, lin in *. rewrite Hbb, Heb in *. nia.
  - unfold byte_count. rewrite Hbg, Hlin. lia.
Qed.



Lemma dropBack_loop_spec (its : list iterator) (rb : list Block) :
  forall (top : Z) (all : allocator) (bid : Z) (e : ptr) (size : Z),
    dchain top rb -> p_block e = top -> 0 <= p_off e <= DATA_SIZE ->
    0 < size ->
    size <= p_off e + (Z.of_nat (length rb) - 1) * DATA_SIZE ->
    exists rb' all' bid' e' size' pre,
      dropBack_loop DATA_SIZE true its rb all bid e size (p_off e)
      = Some (rb', all', bid', e', size') /\
      rb = pre ++ rb' /\ rb' <> [] /\
      dchain (top - Z.of_nat (length pre)) rb' /\
      p_block e' = top - Z.of_nat (length pre) /\
      lin e' - size' = lin e - size /\
      0 < size' <= p_off e' /\ p_off e' <= DATA_SIZE /\
      all' = (all + length pre)%nat /\ bid' = bid - Z.of_nat (length pre).
Proof.
  induction rb as [|x prevs IH]; intros top all bid e size Hd Hp Ho Hs Hcap;
    cbn [length] in Hcap.
  - exfalso. lia.
  - cbn [dropBack_loop].
    destruct (Z.gtb_spec size (p_off e)) as [G|G].
    + destruct prevs as [|tmp prevs'].
      * exfalso. cbn [length] in Hcap. lia.
      * cbn [assert orb]. destruct Hd as (Hid & Hd).
        assert (Htmp : id tmp = top - 1) by apply Hd.
        pose proof (IH (top - 1) (deallocate all) (bid - 1)
                      (Block_end DATA_SIZE tmp) (size - p_off e) Hd) as IH'.
        cbn [Block_end p_block p_off] in IH'.
        destruct IH' as (rb' & all' & bid' & e' & size' & pre & E1 & E2 &
                         E3 & E4 & E5 & E6 & E7 & E8 & E9 & E10); try lia.
        rewrite E1. exists rb', all', bid', e', size', (x :: pre).
        split; [reflexivity|]. cbn [length app]. rewrite E2.
        split; [reflexivity|]. split; [assumption|].
        replace (top - Z.of_nat (S (length pre)))
          with (top - 1 - Z.of_nat (length pre)) by lia.
        split; [assumption|]. split; [assumption|].
        split; [|split; [assumption|split; [assumption|]]].
        -- rewrite E6. unfold lin. cbn [Block_end p_block p_off].
           rewrite Htmp, Hp. lia.
        -- unfold deallocate in E9. lia.
    + exists (x :: prevs), all, bid, e, size, [].
      cbn [length app]. rewrite Z.sub_0_r, Nat.add_0_r.
      repeat split; try assumption; try lia; try discriminate; apply Hd.
Qed.


(** With the last registered iterator out of the blocks the loop goes
    through, its assertion never fails. *)
Lemma dropBack_loop_checked (its : list iterator) (rb : list Block) :
  forall (top : Z) (all : allocator) (bid : Z) (e : ptr) (size left : Z)
         rb' all' bid' e' size',
    dchain top rb ->
    dropBack_loop DATA_SIZE true its rb all bid e size left
    = Some (rb', all', bid', e', size') ->
    (forall l, last_iterator its = Some l ->
               length rb' = length rb \/
               m_block l < top - (Z.of_nat (length rb) - Z.of_nat (length rb'))
               \/ top <= m_block l) ->
    dropBack_loop DATA_SIZE false its rb all bid e size left
    = Some (rb', all', bid', e', size').
Proof.
  induction rb as [|block prevs IH];
    intros top all bid e size left rb' all' bid' e' size' Hd;
    cbn [dropBack_loop]; [discriminate|].
  destruct (size >? left); [|trivial].
  destruct prevs as [|tmp prevs']; [discriminate|].
  cbn [assert orb]. intros H Hl.
  pose proof (dropBack_loop_counts _ _ _ _ _ _ _ _ _ _ _ _ _ H)
    as (_ & Hlen & _ & _).
  destruct Hd as (Hid & Hd). assert (Htmp : id tmp = top - 1) by apply Hd.
  cbn [length] in *.
  assert (Hchk : last_not_in its tmp = true).
  { unfold last_not_in. destruct (last_iterator its) as [l|]; [|reflexivity].
    apply negb_true_iff, Z.eqb_neq.
    destruct (Hl l eq_refl) as [A|[A|A]]; lia. }
  rewrite Hchk. apply (IH (top - 1)); [exact Hd|exact H|].
  intros l El. destruct (Hl l El) as [A|[A|A]]; lia.
Qed.

(** When the loop returns and the closing checks hold, [dropBack] returns
    what the loop left. *)
Lemma dropBack_eval (ndebug : bool) (b : Buffer) (k : Z) (block : Block)
  (prevs : list Block) all' bid' e' size' :
  0 < k -> m_blocks b <> [] ->
  dropBack_loop DATA_SIZE ndebug (m_iterators b) (rev (m_blocks b))
    (m_all b) (m_blockId b) (m_end b) k (p_off (m_end b))
  = Some (block :: prevs, all', bid', e', size') ->
  assert ndebug (dropBack_sanity (m_iterators b) (block :: prevs) block
                   (m_begin b) (ptr_add e' (- size'))) = true ->
  dropBack DATA_SIZE ndebug b k
  = Some (mkBuffer (rev (block :: prevs)) (m_iterators b) bid' (m_begin b)
            (ptr_add e' (- size')) all').
Proof.
  intros Hk Hb El Hs. unfold dropBack.
  replace (negb (k =? 0)) with true
    by (symmetry; apply negb_true_iff, Z.eqb_neq; lia).
  unfold assert at 1. rewrite orb_true_r.
  destruct (rev (m_blocks b)) as [|x l] eqn:Er.
  { exfalso. apply Hb. rewrite <- (rev_involutive (m_blocks b)), Er.
    reflexivity. }
  unfold ptr_diff, Block_begin. cbn [p_off]. rewrite Z.sub_0_r, El, Hs.
  reflexivity.
Qed.

Lemma dropBack_correct (ndebug : bool) (b : Buffer) (k : Z) :
  wf b -> 0 < k <= byte_count DATA_SIZE b ->
  dropBack_asserts DATA_SIZE ndebug b k ->
  exists b', dropBack DATA_SIZE ndebug b k = Some b' /\ wf b' /\
             lin (m_end b') = lin (m_end b) - k /\
             m_begin b' = m_begin b /\ m_iterators b' = m_iterators b /\
             (exists dropped, m_blocks b = m_blocks b' ++ dropped /\
                              m_all b' = (m_all b + length dropped)%nat) /\
             byte_count DATA_SIZE b' = byte_count DATA_SIZE b - k /\
             contents DATA_SIZE b'
             = firstn (Z.to_nat (byte_count DATA_SIZE b - k))
                 (contents DATA_SIZE b).
Proof.
  intros W Hk Hpre.
  pose proof (wf_chain _ _ W) as Hc. pose proof (wf_blockId _ _ W) as Hbid.
  pose proof (wf_nonempty _ _ W) as Hne.
  pose proof (wf_begin_block _ _ W) as Hbb.
  pose proof (wf_end_block _ _ W) as Heb.
  pose proof (wf_begin_off _ _ W) as Hbo.
  pose proof (wf_end_off _ _ W) as Heo.
  pose proof (dchain_of_chain _ _ Hc) as Hd.
  unfold byte_count, nblocks in *.
  destruct (dropBack_loop_spec (m_iterators b) (rev (m_blocks b)) _ (m_all b)
              (m_blockId b) (m_end b) k Hd)
    as (rb' & all' & bid' & e' & size' & pre & E1 & E2 & E3 & E4 & E5 & E6 &
        E7 & E8 & E9 & E10); try lia.
  { rewrite length_rev. unfold lin in Hk. rewrite Heb, Hbb, Hbid in Hk. nia. }
  assert (Hblocks : m_blocks b = rev rb' ++ rev pre).
  { rewrite <- (rev_involutive (m_blocks b)), E2. apply rev_app_distr. }
  assert (Heval : dropBack DATA_SIZE ndebug b k
                  = Some (mkBuffer (rev rb') (m_iterators b) bid' (m_begin b)
                            (ptr_add e' (- size')) all')).
  { pose proof (dropBack_loop_counts _ _ _ _ _ _ _ _ _ _ _ _ _ E1)
      as (_ & _ & Hsame & _).
    destruct rb' as [|block' prevs']; [contradiction|].
    assert (Hb' : id block' = p_block e') by (rewrite E5; apply E4).
    apply dropBack_eval; try lia.
    - intros H0. rewrite H0 in Hne. cbn in Hne. lia.
    - destruct Hpre as [-> | Hreg]; [exact E1|].
      destruct ndebug; [exact E1|].
      apply (dropBack_loop_checked _ _ _ _ _ _ _ _ _ _ _ _ _ Hd E1).
      intros l El. rewrite E2, length_app.
      destruct (Hreg l El) as [A|(A1 & _)].
      + right. left. rewrite <- E6 in A. unfold lin in A.
        replace (Z.of_nat (length pre + length (block' :: prevs'))
                 - Z.of_nat (length (block' :: prevs')))
          with (Z.of_nat (length pre)) by lia.
        rewrite <- E5. nia.
      + left. destruct (Hsame A1) as (Hrb & _). rewrite E2 in Hrb.
        apply (f_equal (@length _)) in Hrb. rewrite length_app in Hrb. lia.
    - destruct Hpre as [-> | Hreg]; [reflexivity|].
      destruct ndebug; [reflexivity|]. cbn [assert orb].
      unfold dropBack_sanity. cbn [ptr_add p_off].
      apply andb_true_intro. split; [apply andb_true_intro; split|].
      + apply Z.leb_le. lia.
      + destruct (last_iterator (m_iterators b)) as [l|] eqn:El;
          [|reflexivity].
        destruct (Z.eqb_spec (m_block l) (id block')) as [G|G];
          [|reflexivity].
        apply Z.leb_le. destruct (Hreg l eq_refl) as [A|(A1 & A2 & A3)].
        * rewrite <- E6 in A. unfold lin in A. rewrite G, Hb' in A. nia.
        * destruct (Hsame A1) as (_ & -> & ->). lia.
      + unfold first_block.
        destruct (rev (block' :: prevs')) as [|f fs] eqn:Ef; [reflexivity|].
        cbn [hd_error].
        destruct (Z.eqb_spec (id f) (id block')) as [G|G]; [|reflexivity].
        apply Z.leb_le.
        assert (Hf : head_id b = id f)
          by (unfold head_id; rewrite Hblocks; reflexivity).
        unfold lin in *. rewrite Hbb, Hf, G, Hb' in Hk.
        rewrite Heb in Hk. rewrite Heb in E6. nia. }
  exists (mkBuffer (rev rb') (m_iterators b) bid' (m_begin b)
            (ptr_add e' (- size')) all').
  split; [exact Heval|]. clear Heval.
  set (b' := mkBuffer (rev rb') (m_iterators b) bid' (m_begin b)
               (ptr_add e' (- size')) all').
  assert (Hn : length (m_blocks b) = (length rb' + length pre)%nat)
    by (rewrite Hblocks, length_app, !length_rev; reflexivity).
  assert (Hrb' : (0 < length rb')%nat)
    by (destruct rb'; cbn; [contradiction|lia]).
  assert (Hc' : chain (head_id b) (rev rb'))
    by (rewrite Hblocks in Hc; apply chain_app in Hc; apply Hc).
  assert (Hh : head_id b' = head_id b).
  { assert (Hnn : rev rb' <> []).
    { intros H. apply (f_equal (@length _)) in H. rewrite length_rev in H.
      cbn in H. lia. }
    apply chain_head_id; assumption. }
  assert (Hlin : lin (m_end b') = lin (m_end b) - k)
    by (unfold lin in *; cbn [b' m_end ptr_add p_block p_off]; lia).
  assert (W' : wf b').
  { constructor; unfold nblocks; rewrite ?Hh;
      cbn [b' m_blocks m_blockId m_begin m_end ptr_add p_block p_off];
      rewrite ?length_rev; try assumption; try lia.
    intros H1. unfold lin in *. rewrite Hbb, E5, Heb in *.
    cbn [b' m_end ptr_add p_block p_off] in Hlin.
    assert (m_blockId b - 1 - Z.of_nat (length pre) = head_id b) by lia.
    nia. }
  split; [exact W'|]. split; [exact Hlin|].
  split; [reflexivity|]. split; [reflexivity|].
  split; [exists (rev pre); split; [exact Hblocks|]; cbn [b' m_all];
          rewrite length_rev; exact E9|].
  split; [rewrite Hlin; cbn [b' m_begin]; lia|].
  rewrite (contents_as_skipn_firstn b' W'), (contents_as_skipn_firstn b W).
  rewrite Hh. cbn [b' m_begin m_blocks]. fold b'.
  rewrite firstn_skipn_comm, firstn_firstn, Hblocks, flat_app.
  pose proof (chain_flat_length _ _ Hc') as HF'. rewrite length_rev in HF'.
  pose proof (wf_end_block _ _ W') as Heb'.
  pose proof (wf_end_off _ _ W') as Heo'.
  pose proof (wf_blockId _ _ W') as Hbid'.
  unfold nblocks in Hbid'. cbn [b' m_blocks] in Hbid'. fold b' in Hbid'.
  rewrite length_rev in Hbid'.
  assert (HE : Z.to_nat (index (head_id b) (m_end b'))
               = Init.Nat.min
                   (Z.to_nat (index (head_id b) (m_begin b)) +
                    Z.to_nat (lin (m_end b) - lin (m_begin b) - k))
                   (Z.to_nat (index (head_id b) (m_end b)))).
  { unfold index, lin in *. rewrite Hbb, Heb, Heb', Hbid', Hh in *. nia. }
  rewrite <- HE. f_equal. rewrite firstn_app.
  replace (Z.to_nat (index (head_id b) (m_end b')) - length (flat (rev rb')))%nat
    with 0%nat.
  - cbn [firstn]. now rewrite app_nil_r.
  - unfold index. rewrite Heb', Hbid', Hh. nia.
Qed.

(** A returning loop that freed a block has seen every assertion hold,
    the last one on the block it stops at. *)
Lemma dropBack_loop_last (its : list iterator) (l : iterator)
  (rb : list Block) :
  last_iterator its = Some l ->
  forall (all : allocator) (bid : Z) (e : ptr) (size left : Z)
         rb' all' bid' e' size' x,
    dropBack_loop DATA_SIZE false its rb all bid e size left
    = Some (rb', all', bid', e', size') ->
    (length rb' < length rb)%nat -> hd_error rb' = Some x ->
    m_block l <> id x.
Proof.
  intros El. induction rb as [|block prevs IH];
    intros all bid e size left rb' all' bid' e' size' x;
    cbn [dropBack_loop]; [discriminate|].
  destruct (Z.gtb_spec size left) as [G|G].
  - destruct prevs as [|tmp prevs']; [discriminate|]. cbn [assert orb].
    destruct (last_not_in its tmp) eqn:Hchk; [|discriminate].
    intros H Hlen Hx.
    pose proof (dropBack_loop_counts _ _ _ _ _ _ _ _ _ _ _ _ _ H)
      as (_ & _ & Hsame & Hless).
    destruct (Z.le_gt_cases (size - left) DATA_SIZE) as [L|L].
    + destruct (Hsame L) as (-> & _). injection Hx as <-.
      unfold last_not_in in Hchk. rewrite El in Hchk.
      now apply negb_true_iff, Z.eqb_neq in Hchk.
    + apply (IH _ _ _ _ _ _ _ _ _ _ _ H); [|exact Hx]. apply Hless. lia.
  - intros [= <- <- <- <- <-] Hlen. lia.
Qed.

(** With assertions on, [dropBack] aborts when it frees a block while the
    last registered iterator is in the block that becomes the tail. *)
Lemma dropBack_aborts (b b' : Buffer) (k : Z) (l : iterator) (x : Block) :
  dropBack DATA_SIZE true b k = Some b' -> m_blockId b' < m_blockId b ->
  last_iterator (m_iterators b) = Some l ->
  last_block (m_blocks b') = Some x -> m_block l = id x ->
  dropBack DATA_SIZE false b k = None.
Proof.
  intros Ht Hfreed El Hx Hl.
  destruct (dropBack DATA_SIZE false b k) as [b2|] eqn:E; [|reflexivity].
  exfalso. pose proof (dropBack_ndebug _ _ _ _ E) as E'.
  rewrite Ht in E'. injection E' as <-.
  destruct (dropBack_inv _ _ _ _ E)
    as (rb' & all' & bid' & e' & size' & Eloop & _ & _ & ->).
  cbn [m_blockId m_blocks] in *.
  pose proof (dropBack_loop_counts _ _ _ _ _ _ _ _ _ _ _ _ _ Eloop)
    as (Hbid & Hlen & _ & _).
  unfold last_block in Hx. rewrite rev_involutive in Hx.
  apply (dropBack_loop_last _ _ _ El _ _ _ _ _ _ _ _ _ _ x Eloop);
    [lia|exact Hx|exact Hl].
Qed.

(** X5.  [dropBack(k)] with [0 < k <= ] the byte count.  When its
    assertions hold (the build has none, or the registry is empty or ends
    with an iterator clear of the drop) it returns a well-formed buffer
    whose byte sequence is the old one without its last [k] bytes;
    [m_begin] and the registry are untouched, the block list is a prefix
    of the old one, and each block dropped goes back to the pool.  With
    assertions on it aborts whenever it frees a block while the last
    registered iterator is in the block that becomes the tail, even if
    that iterator lies before the new end: the assertion inside the loop
    tests the block [delBlockAndPrev] returned. *)
Theorem dropBack_spec (ndebug : bool) (b : Buffer) (k : Z) :
  wf b -> 0 < k <= byte_count DATA_SIZE b ->
  (dropBack_asserts DATA_SIZE ndebug b k ->
   exists b', dropBack DATA_SIZE ndebug b k = Some b' /\ wf b' /\
              lin (m_end b') = lin (m_end b) - k /\
              m_begin b' = m_begin b /\ m_iterators b' = m_iterators b /\
              (exists dropped, m_blocks b = m_blocks b' ++ dropped /\
                               m_all b' = (m_all b + length dropped)%nat) /\
              byte_count DATA_SIZE b' = byte_count DATA_SIZE b - k /\
              contents DATA_SIZE b'
              = firstn (Z.to_nat (byte_count DATA_SIZE b - k))
                  (contents DATA_SIZE b)) /\
  (forall b' l x,
      dropBack DATA_SIZE true b k = Some b' -> m_blockId b' < m_blockId b ->
      last_iterator (m_iterators b) = Some l ->
      last_block (m_blocks b') = Some x -> m_block l = id x ->
      dropBack DATA_SIZE false b k = None).
Proof.
  intros W Hk. split.
  - exact (dropBack_correct ndebug b k W Hk).
  - intros b' l x. apply dropBack_aborts.
Qed.


(** ** No chunk is lost *)

Lemma memcpy2_lengths (blocks nb b1 n1 : list Block) (p : ptr)
  (bytes : list char) :
  memcpy2 DATA_SIZE blocks nb p bytes = Some (b1, n1) ->
  length b1 = length blocks /\ length n1 = length nb.
Proof.
  unfold memcpy2. destruct (store _ nb p bytes) as [x|] eqn:E.
  - intros [= <- <-]. apply store_ids, length_map_id in E. auto.
  - destruct (store _ blocks p bytes) as [x|] eqn:E'; [|discriminate].
    intros [= <- <-]. apply store_ids, length_map_id in E'. auto.
Qed.

Lemma addBack_loop_pool (fuel : nat) :
  forall blocks nb all bid ne buf size left r,
    addBack_loop DATA_SIZE fuel blocks nb all bid ne buf size left = Some r ->
    match r with
    | LoopDone b1 n1 all' _ _ _ _ | LoopThrew b1 n1 all' _ =>
        length b1 = length blocks /\
        (all' + length n1 = all + length nb)%nat
    end.
Proof.
  induction fuel as [|f IH]; intros blocks nb all bid ne buf size left r;
    cbn [addBack_loop]; [discriminate|].
  destruct (memcpy2 _ _ _ _ _) as [[b1 n1]|] eqn:E; [|discriminate].
  apply memcpy2_lengths in E as [E1 E2]. unfold newBlock.
  destruct all as [|all']; cbn [allocate].
  - intros [= <-]. split; [assumption|lia].
  - destruct (_ >=? _).
    + intros H. apply IH in H.
      destruct r; rewrite length_app in H; cbn [length] in H; lia.
    + intros [= <-]. rewrite length_app. cbn [length]. lia.
Qed.

Lemma advance_loop_pool (fuel : nat) :
  forall nb all bid size left r,
    advance_loop DATA_SIZE fuel nb all bid size left = Some r ->
    match r with
    | AdvDone n1 all' _ _ _ | AdvThrew n1 all' _ =>
        (all' + length n1 = all + length nb)%nat
    end.
Proof.
  induction fuel as [|f IH]; intros nb all bid size left r;
    cbn [advance_loop]; [discriminate|].
  unfold newBlock. destruct all as [|all']; cbn [allocate].
  - intros [= <-]. lia.
  - destruct (_ >=? _).
    + intros H. apply IH in H.
      destruct r; rewrite length_app in H; cbn [length] in H; lia.
    + intros [= <-]. rewrite length_app. cbn [length]. lia.
Qed.

Lemma addBack_chunks (b b' : Buffer) (buf : list char) :
  addBack DATA_SIZE b buf = Some (Returned b') \/
  addBack DATA_SIZE b buf = Some (Threw b') ->
  chunks b' = chunks b.
Proof.
  unfold addBack, chunks.
  destruct (last_block (m_blocks b)) as [last|]; [|intros [[=]|[=]]].
  destruct (_ >? _).
  - destruct (store _ _ _ _) as [bs|] eqn:E; intros [[= <-]|[=]].
    apply store_ids, length_map_id in E. cbn. lia.
  - destruct (addBack_loop _ _ _ _ _ _ _ _ _ _) as [r|] eqn:E;
      [|intros [[=]|[=]]].
    apply addBack_loop_pool in E.
    destruct r as [b1 n1 all' bid' ne buf' size'|b1 n1 all' bid'].
    + destruct (memcpy2 _ _ _ _ _) as [[b2 n2]|] eqn:E'; intros [[= <-]|[=]].
      apply memcpy2_lengths in E'. cbn [m_all m_blocks length] in *.
      rewrite length_app. lia.
    + rewrite Blocks_dtor_spec. intros [[=]|[= <-]].
      cbn [m_all m_blocks length] in *. lia.
Qed.

Lemma advance_chunks (b b' : Buffer) (size : Z) :
  advance DATA_SIZE b size = Some (Returned b') \/
  advance DATA_SIZE b size = Some (Threw b') ->
  chunks b' = chunks b.
Proof.
  unfold advance, chunks.
  destruct (last_block (m_blocks b)) as [last|]; [|intros [[=]|[=]]].
  destruct (_ >? _).
  - intros [[= <-]|[=]]. reflexivity.
  - destruct (advance_loop _ _ _ _ _ _ _) as [r|] eqn:E; [|intros [[=]|[=]]].
    apply advance_loop_pool in E.
    destruct r as [n1 all' bid' ne size'|n1 all' bid'].
    + intros [[= <-]|[=]]. cbn [m_all m_blocks length] in *.
      rewrite length_app. lia.
    + rewrite Blocks_dtor_spec. intros [[=]|[= <-]].
      cbn [m_all m_blocks length] in *. lia.
Qed.

Lemma dropBack_loop_pool (ndebug : bool) (its : list iterator)
  (rb : list Block) :
  forall all bid e size left rb' all' bid' e' size',
    dropBack_loop DATA_SIZE ndebug its rb all bid e size left
    = Some (rb', all', bid', e', size') ->
    (all' + length rb' = all + length rb)%nat.
Proof.
  induction rb as [|x prevs IH]; intros all bid e size left rb' all' bid' e' size';
    cbn [dropBack_loop]; [discriminate|].
  destruct (_ >? _).
  - destruct prevs as [|tmp prevs']; [discriminate|].
    destruct (assert ndebug (last_not_in its tmp)); [|discriminate].
    intros H. apply IH in H. unfold deallocate in H. cbn [length] in *. lia.
  - intros [= <- <- <- <- <-]. reflexivity.
Qed.

Lemma dropFront_loop_pool (bs : list Block) :
  forall all bg size left bs' all' bg' size',
    dropFront_loop DATA_SIZE bs all bg size left = Some (bs', all', bg', size') ->
    (all' + length bs' = all + length bs)%nat.
Proof.
  induction bs as [|x nexts IH]; intros all bg size left bs' all' bg' size';
    cbn [dropFront_loop]; [discriminate|].
  destruct (_ >? _).
  - destruct nexts as [|tmp nexts']; [discriminate|].
    intros H. apply IH in H. unfold deallocate in H. cbn [length] in *. lia.
  - intros [= <- <- <- <-]. reflexivity.
Qed.

Lemma dropBack_chunks (ndebug : bool) (b b' : Buffer) (k : Z) :
  dropBack DATA_SIZE ndebug b k = Some b' -> chunks b' = chunks b.
Proof.
  intros H. destruct (dropBack_inv _ _ _ _ H)
    as (rb' & all' & bid' & e' & size' & E & _ & _ & ->).
  unfold chunks. apply dropBack_loop_pool in E.
  cbn [m_all m_blocks]. rewrite length_rev in *. exact E.
Qed.

Lemma dropFront_chunks (b b' : Buffer) (k : Z) :
  dropFront DATA_SIZE b k = Some b' -> chunks b' = chunks b.
Proof.
  unfold dropFront, chunks.
  destruct (m_blocks b) as [|block nexts] eqn:Eb; [discriminate|].
  destruct (dropFront_loop _ _ _ _ _ _) as [[[[bs' all'] bg'] size']|] eqn:E;
    [|discriminate].
  intros [= <-]. apply dropFront_loop_pool in E. exact E.
Qed.


Lemma Buffer_dtor_loop_spec (blocks : list Block) (all : allocator) :
  Buffer_dtor_loop blocks all = (all + length blocks)%nat.
Proof.
  revert all. induction blocks as [|x l IH]; intros all;
    cbn [Buffer_dtor_loop length]; [lia|].
  rewrite IH. unfold deallocate. lia.
Qed.

(** X6.  Chunks are neither lost nor invented: the constructor takes one
    chunk from the pool, and every operation that returns or throws leaves
    the number of chunks held by the buffer plus the number left in the
    pool as it was, with or without [NDEBUG] and whichever operand
    [flush] evaluates first; the destructor hands every chunk back. *)
Theorem no_chunk_lost :
  (forall all b, Buffer_ctor DATA_SIZE all = Returned (Some b) ->
                 chunks b = all) /\
  (forall b buf b',
      addBack DATA_SIZE b buf = Some (Returned b') \/
      addBack DATA_SIZE b buf = Some (Threw b') -> chunks b' = chunks b) /\
  (forall b size b',
      advance DATA_SIZE b size = Some (Returned b') \/
      advance DATA_SIZE b size = Some (Threw b') -> chunks b' = chunks b) /\
  (forall ndebug b k b',
      dropBack DATA_SIZE ndebug b k = Some b' -> chunks b' = chunks b) /\
  (forall b k b', dropFront DATA_SIZE b k = Some b' -> chunks b' = chunks b) /\
  (forall b itr size b',
      insert DATA_SIZE b itr size = Some (Returned b') \/
      insert DATA_SIZE b itr size = Some (Threw b') -> chunks b' = chunks b) /\
  (forall ndebug b itr size b',
      release DATA_SIZE ndebug b itr size = Some b' ->
      chunks b' = chunks b) /\
  (forall b itr buf size b',
      set DATA_SIZE b itr buf size = Some b' -> chunks b' = chunks b) /\
  (forall order b b',
      flush DATA_SIZE order b = Some b' -> chunks b' = chunks b) /\
  (forall b, Buffer_dtor b = chunks b).
Proof.
  split; [|split; [|split; [|split; [|split; [|split; [|split; [|split;
    [|split]]]]]]]].
  - intros all b. unfold Buffer_ctor, newBlock, chunks.
    destruct all as [|a]; cbn [allocate]; [discriminate|].
    intros [= <-]. cbn. lia.
  - intros b buf b'. apply addBack_chunks.
  - intros b size b'. apply advance_chunks.
  - intros ndebug b k b'. apply dropBack_chunks.
  - intros b k b'. apply dropFront_chunks.
  - intros b itr size b'. unfold insert.
    destruct (last_block (m_blocks b)) as [sb|]; [|intros [[=]|[=]]].
    destruct (advance DATA_SIZE b size) as [[b1|b1]|] eqn:Ea;
      [| |intros [[=]|[=]]].
    + assert (C1 : chunks b1 = chunks b) by (eapply advance_chunks; eauto).
      destruct (last_block (m_blocks b1)) as [db|]; [|intros [[=]|[=]]].
      destruct (if _ >? _ then _ else _) as [src dst].
      destruct (insert_loop _ _ _ _ _ _ _ _ _ _ _) as [blocks'|] eqn:El;
        [|intros [[=]|[=]]].
      destruct (shift_iterators _ _ _) as [ritrs|]; [|intros [[=]|[=]]].
      intros [[= <-]|[=]]. apply insert_loop_ids, length_map_id in El.
      unfold chunks in *. cbn [m_all m_blocks]. lia.
    + intros [[=]|[= <-]]. eapply advance_chunks; eauto.
  - intros ndebug b itr size b'. unfold release.
    destruct (blocks_from _ _) as [|cur rest]; [discriminate|].
    destruct (last_block (m_blocks b)) as [lb|]; [|discriminate].
    destruct (locate_loop _ _ _ _ _) as [[src_block src]|]; [|discriminate].
    destruct (release_loop _ _ _ _ _ _ _ _ _ _ _) as [blocks'|] eqn:El;
      [|discriminate].
    destruct (shift_iterators _ _ _) as [ritrs|]; [|discriminate].
    intros H. apply dropBack_chunks in H.
    apply release_loop_ids, length_map_id in El.
    unfold chunks in *. cbn [m_all m_blocks] in H. lia.
  - intros b itr buf size b' H. apply set_frame in H.
    destruct H as (H1 & _ & _ & _ & _ & H6). apply length_map_id in H1.
    unfold chunks. lia.
  - intros order b b'. unfold flush.
    destruct (flush_distance _ _ _); [|discriminate].
    destruct (_ >? 0); [apply dropFront_chunks|now intros [= <-]].
  - intros b. apply Buffer_dtor_loop_spec.
Qed.


Lemma chain_ids (h : Z) (l l' : list Block) :
  chain h l -> chain h l' -> length l = length l' -> map id l = map id l'.
Proof.
  revert h l'. induction l as [|x l IH]; intros h [|y l'] Hc Hc' Hl;
    try discriminate; [reflexivity|].
  destruct Hc as (Hx & _ & Hc), Hc' as (Hy & _ & Hc').
  cbn [map]. f_equal; [congruence|].
  apply (IH (h + 1)); try assumption. now injection Hl.
Qed.

Lemma addBack_dropBack_restores (ndebug : bool) (b b1 : Buffer)
  (s : list char) :
  wf b -> s <> [] -> addBack DATA_SIZE b s = Some (Returned b1) ->
  dropBack_asserts DATA_SIZE ndebug b1 (Z.of_nat (length s)) ->
  exists b2, dropBack DATA_SIZE ndebug b1 (Z.of_nat (length s)) = Some b2 /\
             wf b2 /\
             m_begin b2 = m_begin b /\ m_end b2 = m_end b /\
             m_blockId b2 = m_blockId b /\
             map id (m_blocks b2) = map id (m_blocks b) /\
             m_all b2 = m_all b /\ m_iterators b2 = m_iterators b /\
             contents DATA_SIZE b2 = contents DATA_SIZE b.
Proof.
  intros W Hs H1 Hpre.
  destruct (addBack_appends_aux b s W) as (_ & Happ).
  destruct (Happ b1 H1) as (W1 & Hc1 & Hbc1 & Hbg1 & Hit1).
  assert (Hlen : 0 < Z.of_nat (length s)) by (destruct s; cbn; [easy|lia]).
  pose proof (wf_begin_le_end b W) as Hle. unfold byte_count in *.
  destruct (dropBack_correct ndebug b1 (Z.of_nat (length s)) W1)
    as (b2 & E & W2 & Hlin & Hbg & Hit & _ & Hbc & Hcont);
    [unfold byte_count; lia|exact Hpre|].
  exists b2. split; [exact E|]. split; [exact W2|].
  assert (Hh1 : head_id b1 = head_id b).
  { rewrite <- (wf_begin_block _ _ W1), <- (wf_begin_block _ _ W). congruence. }
  assert (Hh2 : head_id b2 = head_id b).
  { rewrite <- (wf_begin_block _ _ W2), <- (wf_begin_block _ _ W). congruence. }
  assert (He : m_end b2 = m_end b).
  { pose proof (wf_end_off _ _ W) as Ho. pose proof (wf_end_off _ _ W2) as Ho2.
    assert (Hl : lin (m_end b2) = lin (m_end b))
      by (rewrite Hbg1 in Hbc1; lia).
    unfold lin in Hl.
    assert (p_block (m_end b2) = p_block (m_end b)) by nia.
    assert (p_off (m_end b2) = p_off (m_end b)) by nia.
    destruct (m_end b2), (m_end b). cbn in *. congruence. }
  assert (Hid : m_blockId b2 = m_blockId b).
  { pose proof (wf_end_block _ _ W) as H. pose proof (wf_end_block _ _ W2) as H2.
    rewrite He in H2. lia. }
  assert (Hn : length (m_blocks b2) = length (m_blocks b)).
  { pose proof (wf_blockId _ _ W) as H. pose proof (wf_blockId _ _ W2) as H2.
    unfold nblocks in *. lia. }
  assert (Hids : map id (m_blocks b2) = map id (m_blocks b)).
  { apply (chain_ids (head_id b)); [|apply W|exact Hn].
    rewrite <- Hh2. apply W2. }
  split; [congruence|]. split; [exact He|]. split; [exact Hid|].
  split; [exact Hids|]. split; [|split; [congruence|]].
  - pose proof (addBack_chunks b b1 s (or_introl H1)) as C1.
    pose proof (dropBack_chunks _ b1 b2 _ E) as C2. unfold chunks in *. lia.
  - rewrite Hcont, Hc1. unfold byte_count. rewrite Hbc1.
    replace (Z.to_nat (lin (m_end b) - lin (m_begin b) + Z.of_nat (length s)
                       - Z.of_nat (length s)))
      with (length (contents DATA_SIZE b) + 0)%nat.
    + rewrite firstn_app_2. cbn [firstn]. apply app_nil_r.
    + unfold contents, byte_count. rewrite length_firstn, length_skipn.
      pose proof (chain_flat_length _ _ (wf_chain _ _ W)) as HF.
      pose proof (wf_begin_block _ _ W) as Hbb.
      pose proof (wf_end_block _ _ W) as Heb.
      pose proof (wf_blockId _ _ W) as Hb.
      pose proof (wf_end_off _ _ W) as Ho.
      pose proof (wf_begin_off _ _ W) as Hbo.
      unfold lin, nblocks in *. rewrite Hbb, Heb, Hb in *. nia.
Qed.

(** X7.  An append undone.  After [addBack(s)] returns, [dropBack(|s|)],
    when its assertions hold, gives back the cursors, the id counter, the
    block ids, the pool, the registry and the byte sequence the buffer had
    before the append.  With assertions on, when the append allocated and
    the last registered iterator is in the old tail block, the
    [dropBack(|s|)] aborts instead. *)
Theorem addBack_dropBack (ndebug : bool) (b b1 : Buffer) (s : list char) :
  wf b -> s <> [] -> addBack DATA_SIZE b s = Some (Returned b1) ->
  (dropBack_asserts DATA_SIZE ndebug b1 (Z.of_nat (length s)) ->
   exists b2, dropBack DATA_SIZE ndebug b1 (Z.of_nat (length s)) = Some b2 /\
              m_begin b2 = m_begin b /\ m_end b2 = m_end b /\
              m_blockId b2 = m_blockId b /\
              map id (m_blocks b2) = map id (m_blocks b) /\
              m_all b2 = m_all b /\ m_iterators b2 = m_iterators b /\
              contents DATA_SIZE b2 = contents DATA_SIZE b) /\
  (forall l, m_blockId b < m_blockId b1 ->
             last_iterator (m_iterators b) = Some l ->
             m_block l = m_blockId b - 1 ->
             dropBack DATA_SIZE false b1 (Z.of_nat (length s)) = None).
Proof.
  intros W Hs H1. split.
  - intros Hpre.
    destruct (addBack_dropBack_restores ndebug b b1 s W Hs H1 Hpre)
      as (b2 & E & _ & R). exists b2. split; [exact E|exact R].
  - intros l Hnew El Hl.
    destruct (addBack_dropBack_restores true b b1 s W Hs H1 (or_introl eq_refl))
      as (b2 & E & W2 & _ & _ & Hid & _ & _ & Hit & _).
    destruct (addBack_appends_aux b s W) as (_ & Happ).
    destruct (Happ b1 H1) as (_ & _ & _ & _ & Hit1).
    pose proof (wf_nonempty _ _ W2) as Hne. unfold nblocks in Hne.
    destruct (last_block_chain _ _ (wf_chain _ _ W2)) as (x & Ex & Hx);
      [lia|].
    apply (dropBack_aborts b1 b2 _ l x E); try assumption.
    + lia.
    + rewrite Hit1. exact El.
    + pose proof (wf_blockId _ _ W2) as Hb2. unfold nblocks in Hb2. lia.
Qed.


(** ** dropFront, as its callers see it *)



(** ** set, then get *)

Lemma splice_splice (F buf : list char) (idx : Z) (c : nat) :
  0 <= idx <= Z.of_nat (length F) -> (c <= length buf)%nat ->
  splice (splice F idx (firstn c buf)) (idx + Z.of_nat c) (skipn c buf)
  = splice F idx buf.
Proof.
  intros Hi Hc.
  rewrite <- (firstn_skipn (Z.to_nat idx) F).
  set (P := firstn (Z.to_nat idx) F). set (R := skipn (Z.to_nat idx) F).
  assert (HP : idx = Z.of_nat (length P))
    by (unfold P; rewrite length_firstn; lia).
  rewrite HP, !splice_tail.
  assert (Hl : length (firstn c buf) = c) by (rewrite length_firstn; lia).
  rewrite Hl, app_assoc.
  replace (Z.of_nat (length P) + Z.of_nat c)
    with (Z.of_nat (length (P ++ firstn c buf)))
    by (rewrite length_app, Hl; lia).
  rewrite splice_tail, skipn_skipn, <- !app_assoc. f_equal.
  rewrite app_assoc, firstn_skipn. f_equal. f_equal.
  rewrite length_skipn. lia.
Qed.

Lemma set_loop_spec (h : Z) (rest : list Block) :
  forall (blocks : list Block) (cur : Block) (pos : ptr) (buf : list char),
    chain h blocks -> chain (id cur) (cur :: rest) -> h <= id cur ->
    id cur + Z.of_nat (length (cur :: rest)) = h + Z.of_nat (length blocks) ->
    p_block pos = id cur -> 0 <= p_off pos <= DATA_SIZE ->
    p_off pos + Z.of_nat (length buf)
    <= Z.of_nat (length (cur :: rest)) * DATA_SIZE ->
    exists bs', set_loop DATA_SIZE blocks cur rest pos
                  (DATA_SIZE - p_off pos) buf (Z.of_nat (length buf))
                = Some bs' /\
                chain h bs' /\
                flat bs' = splice (flat blocks) (index h pos) buf.
Proof.
  induction rest as [|nb rest IH];
    intros blocks cur pos buf Hc Hv Hh Hlen Hp Ho Hcap;
    pose proof (chain_flat_length _ _ Hc) as HF;
    assert (Hidx : 0 <= index h pos)
      by (unfold index; rewrite Hp;
          assert (0 <= (id cur - h) * DATA_SIZE)
            by (apply Z.mul_nonneg_nonneg; lia); lia);
    cbn [set_loop]; cbn [length] in Hlen, Hcap;
    (destruct (Z.gtb_spec (Z.of_nat (length buf)) 0) as [G|G];
     [|destruct buf; [|cbn [length] in G; lia];
       exists blocks; split; [reflexivity|]; split; [assumption|];
       unfold splice; cbn [app length]; rewrite Nat.add_0_r;
       symmetry; apply firstn_skipn]);
    set (c := Z.min (Z.of_nat (length buf)) (DATA_SIZE - p_off pos));
    (destruct (store_chain h blocks pos (firstn (Z.to_nat c) buf) Hc)
       as (bs1 & E1 & E2 & E3 & E4);
     [lia|lia|rewrite length_firstn; lia|]);
    rewrite E1;
    destruct (Z.eqb_spec (Z.of_nat (length buf) - c) 0) as [Z0|Z0].
  - exists bs1. split; [reflexivity|]. split; [assumption|].
    rewrite E4, firstn_all2 by lia. reflexivity.
  - exfalso. lia.
  - exists bs1. split; [reflexivity|]. split; [assumption|].
    rewrite E4, firstn_all2 by lia. reflexivity.
  - cbn [chain] in Hv. destruct Hv as (_ & _ & Hid & Hl & Hv).
    assert (Hc' : c = DATA_SIZE - p_off pos) by lia.
    pose proof (IH bs1 nb (Block_begin nb) (skipn (Z.to_nat c) buf) E2) as IH'.
    cbn [Block_begin p_block p_off chain] in IH'. rewrite Z.sub_0_r in IH'.
    rewrite length_skipn in IH'.
    replace (Z.of_nat (length buf - Z.to_nat c))
      with (Z.of_nat (length buf) - c) in IH' by lia.
    destruct IH' as (bs' & F1 & F2 & F3);
      try lia; try (rewrite Hid; auto);
      try (rewrite (length_map_id _ _ E3); cbn [length]; lia);
      try (cbn [length]; lia).
    exists bs'. split; [exact F1|]. split; [exact F2|].
    rewrite F3, E4.
    replace (index h (Block_begin nb))
      with (index h pos + Z.of_nat (Z.to_nat c))
      by (unfold index; cbn [Block_begin p_block p_off]; rewrite Hid, Hp; lia).
    apply splice_splice; [|lia].
    unfold index in *. rewrite Hp in *. nia.
Qed.


Lemma skipn_splice (F buf : list char) (idx : Z) (a : nat) :
  Z.of_nat a <= idx <= Z.of_nat (length F) ->
  skipn a (splice F idx buf) = splice (skipn a F) (idx - Z.of_nat a) buf.
Proof.
  intros H. unfold splice.
  rewrite skipn_app, length_firstn, firstn_skipn_comm, skipn_skipn.
  replace (a - Init.Nat.min (Z.to_nat idx) (length F))%nat with 0%nat by lia.
  cbn [skipn].
  replace (a + Z.to_nat (idx - Z.of_nat a))%nat with (Z.to_nat idx) by lia.
  replace (Z.to_nat (idx - Z.of_nat a) + length buf + a)%nat
    with (Z.to_nat idx + length buf)%nat by lia.
  reflexivity.
Qed.

Lemma firstn_splice (G buf : list char) (j : Z) (n : nat) :
  0 <= j <= Z.of_nat (length G) -> j + Z.of_nat (length buf) <= Z.of_nat n ->
  firstn n (splice G j buf) = splice (firstn n G) j buf.
Proof.
  intros Hj Hn. unfold splice.
  rewrite firstn_app, length_firstn, !firstn_firstn.
  rewrite (Nat.min_r n) by lia. rewrite (Nat.min_l (Z.to_nat j) n) by lia.
  f_equal. rewrite (Nat.min_l (Z.to_nat j)) by lia.
  rewrite firstn_app, (@firstn_all2 _ _ buf) by lia.
  f_equal. rewrite skipn_firstn_comm. f_equal. lia.
Qed.

Lemma splice_read_back (F buf : list char) (idx : Z) :
  0 <= idx <= Z.of_nat (length F) ->
  firstn (length buf) (skipn (Z.to_nat idx) (splice F idx buf)) = buf.
Proof.
  intros H. unfold splice.
  rewrite skipn_app, length_firstn, skipn_all2 by (rewrite length_firstn; lia).
  replace (Z.to_nat idx - Init.Nat.min (Z.to_nat idx) (length F))%nat
    with 0%nat by lia.
  cbn [skipn app]. rewrite firstn_app, firstn_all, Nat.sub_diag.
  cbn [firstn]. apply app_nil_r.
Qed.


Lemma set_correct (b : Buffer) (i : iterator) (buf : list char) :
  wf b -> live b i -> lin (m_begin b) <= lin (m_position i) ->
  lin (m_position i) + Z.of_nat (length buf) <= lin (m_end b) ->
  exists b', set DATA_SIZE b i buf (Z.of_nat (length buf)) = Some b' /\
             wf b' /\ frame DATA_SIZE b b' /\
             get DATA_SIZE b' i (Z.of_nat (length buf)) = Some buf /\
             contents DATA_SIZE b'
             = splice (contents DATA_SIZE b)
                 (lin (m_position i) - lin (m_begin b)) buf.
Proof.
  intros W (Hp & Hb & Ho) Hlo Hcap.
  pose proof (wf_chain _ _ W) as Hc. pose proof (wf_blockId _ _ W) as Hbid.
  pose proof (wf_nonempty _ _ W) as Hne.
  pose proof (wf_begin_block _ _ W) as Hbb.
  pose proof (wf_end_block _ _ W) as Heb.
  pose proof (wf_begin_off _ _ W) as Hbo.
  pose proof (wf_end_off _ _ W) as Heo.
  pose proof (chain_flat_length _ _ Hc) as HF.
  unfold nblocks in *.
  destruct (blocks_from_chain (head_id b) (m_block i) (m_blocks b) Hc)
    as (cur & rest & E1 & E2 & E3 & E4); [lia|].
  assert (Hlen : id cur + Z.of_nat (length (cur :: rest))
                 = head_id b + Z.of_nat (length (m_blocks b))).
  { apply (f_equal (@length _)) in E4.
    rewrite length_app, length_firstn in E4. lia. }
  rewrite <- E2 in E3.
  assert (Hk : 0 <= (m_block i - head_id b) * DATA_SIZE)
    by (apply Z.mul_nonneg_nonneg; lia).
  assert (Hidx : 0 <= index (head_id b) (m_position i)
                 /\ index (head_id b) (m_position i) + Z.of_nat (length buf)
                    <= Z.of_nat (length (flat (m_blocks b))))
    by (unfold index, lin in *; rewrite Hp, Heb in *; nia).
  destruct (set_loop_spec (head_id b) rest (m_blocks b) cur (m_position i) buf
              Hc E3) as (bs' & S1 & S2 & S3); try lia.
  { unfold lin in Hcap. rewrite Hp, Heb in Hcap. nia. }
  unfold set. rewrite E1. unfold ptr_diff, Block_end. cbn [p_off].
  rewrite S1. cbn [option_map]. eexists. split; [reflexivity|].
  set (b' := with_blocks b bs').
  assert (Hids : map id bs' = map id (m_blocks b))
    by (apply set_loop_ids in S1; exact S1).
  assert (Hh : head_id b' = head_id b) by (apply head_id_map; exact Hids).
  assert (W' : wf b').
  { constructor; unfold nblocks; rewrite ?Hh;
      cbn [b' with_blocks m_blocks m_blockId m_begin m_end];
      rewrite ?(length_map_id _ _ Hids); try assumption; apply W. }
  split; [exact W'|]. split; [apply frame_of_parts; cbn; tauto|]. split.
  - rewrite get_spec; try assumption; rewrite ?Hh; try lia.
    + cbn [b' with_blocks m_blocks]. rewrite S3. f_equal.
      rewrite Nat2Z.id. apply splice_read_back. lia.
    + cbn [b' with_blocks m_blockId]. lia.
    + unfold nblocks. cbn [b' with_blocks m_blocks].
      rewrite (length_map_id _ _ Hids). lia.
  - unfold contents, byte_count. rewrite Hh.
    cbn [b' with_blocks m_blocks m_begin m_end]. rewrite S3.
    assert (Hbi : lin (m_begin b) - head_id b * DATA_SIZE
                  = index (head_id b) (m_begin b))
      by (unfold index, lin; rewrite Hbb; lia).
    rewrite Hbi.
    assert (Hb0 : 0 <= index (head_id b) (m_begin b))
      by (unfold index; rewrite Hbb; lia).
    rewrite skipn_splice by (unfold index, lin in *; rewrite Hbb, Hp in *; lia).
    rewrite firstn_splice.
    + f_equal. unfold index, lin. rewrite Hbb, Hp. lia.
    + rewrite length_skipn. unfold index, lin in *. rewrite Hbb, Hp in *. lia.
    + unfold index, lin in *. rewrite Hbb, Hp, Heb in *. lia.
Qed.

(** X9.  [set(i, buf, n)] followed by [get(i, out, n)] reads [buf] back.
    The write replaces exactly the [n] bytes of the byte sequence that
    start at [i] and leaves the bytes before and after them, the cursors,
    the registry and the block list as they were. *)
Theorem set_get_roundtrip (b : Buffer) (i : iterator) (buf : list char) :
  wf b -> live b i -> lin (m_begin b) <= lin (m_position i) ->
  lin (m_position i) + Z.of_nat (length buf) <= lin (m_end b) ->
  exists b', set DATA_SIZE b i buf (Z.of_nat (length buf)) = Some b' /\
             wf b' /\ frame DATA_SIZE b b' /\
             get DATA_SIZE b' i (Z.of_nat (length buf)) = Some buf /\
             contents DATA_SIZE b'
             = splice (contents DATA_SIZE b)
                 (lin (m_position i) - lin (m_begin b)) buf.
Proof. exact (set_correct b i buf). Qed.


(** X10.  The typed forms agree with the raw ones: for a live iterator
    and an object of at least one byte, [set(itr, t)] leaves the state
    [set(itr, &t, sizeof t)] leaves, and [get<T>(itr)] reads what
    [get(itr, buf, sizeof(T))] reads, whether or not the object fits in
    the iterator's block (the single-[memcpy] path or the loop). *)
Theorem typed_forms_agree (b : Buffer) (i : iterator) :
  wf b -> live b i ->
  (forall t, t <> [] ->
     set_T DATA_SIZE b i t = set DATA_SIZE b i t (Z.of_nat (length t))) /\
  (forall n, 0 < n -> get_T DATA_SIZE b i n = get DATA_SIZE b i n).
Proof.
  intros W (Hp & Hb & Ho).
  pose proof (wf_chain _ _ W) as Hc. pose proof (wf_blockId _ _ W) as Hbid.
  unfold nblocks in *.
  destruct (blocks_from_chain (head_id b) (m_block i) (m_blocks b) Hc)
    as (cur & rest & E1 & E2 & E3 & E4); [lia|].
  split.
  - intros t Ht. unfold set_T, set. rewrite E1.
    unfold ptr_diff, Block_end. cbn [p_off].
    assert (Hl : 0 < Z.of_nat (length t)) by (destruct t; cbn; [easy|lia]).
    destruct (Z.leb_spec (Z.of_nat (length t))
                (DATA_SIZE - p_off (m_position i))) as [L|L]; [|reflexivity].
    destruct rest; cbn [set_loop];
      (destruct (Z.gtb_spec (Z.of_nat (length t)) 0); [|lia]);
      rewrite Z.min_l by lia; rewrite Nat2Z.id, firstn_all;
      destruct (store _ _ _ _); cbn [option_map]; try reflexivity;
      rewrite Z.sub_diag; reflexivity.
  - intros n Hn. unfold get_T, get. rewrite E1.
    unfold ptr_diff, Block_end. cbn [p_off].
    destruct (Z.leb_spec n (DATA_SIZE - p_off (m_position i))) as [L|L];
      [|reflexivity].
    destruct rest; cbn [get_loop];
      (destruct (Z.gtb_spec n 0); [|lia]);
      rewrite Z.min_l by lia;
      destruct (load _ _ _ _); try reflexivity;
      rewrite Z.sub_diag; reflexivity.
Qed.

(** ** empty *)

(** X11.  [empty()] compares the two cursors: on a well-formed buffer it
    is true exactly when there is no byte and [m_begin] is not resting at
    the end of a block (where [dropFront] may leave it); when it is true
    the byte sequence is empty. *)
Theorem empty_spec (b : Buffer) :
  wf b ->
  (empty b = true <->
   byte_count DATA_SIZE b = 0 /\ p_off (m_begin b) <> DATA_SIZE) /\
  (empty b = true -> contents DATA_SIZE b = []).
Proof.
  intros W.
  pose proof (wf_begin_block _ _ W) as Hbb.
  pose proof (wf_end_block _ _ W) as Heb.
  pose proof (wf_begin_off _ _ W) as Hbo.
  pose proof (wf_end_off _ _ W) as Heo.
  pose proof (wf_blockId _ _ W) as Hbid.
  pose proof (wf_nonempty _ _ W) as Hne.
  assert (H : empty b = true <->
              byte_count DATA_SIZE b = 0 /\ p_off (m_begin b) <> DATA_SIZE).
  { unfold empty, ptr_eqb, byte_count, lin.
    rewrite andb_true_iff, !Z.eqb_eq. split.
    - intros [H1 H2]. rewrite H1, H2. lia.
    - intros [H1 H2].
      assert (p_block (m_begin b) = p_block (m_end b)) by nia.
      split; [assumption|nia]. }
  split; [exact H|]. intros E. apply H in E as [E _].
  unfold contents. rewrite E. reflexivity.
Qed.


(** ** debugSelfCheck *)

Lemma check_blocks_spec (bs : list Block) :
  forall (prev res : Z),
    let '(r, e) := check_blocks bs false (prev + 1) res in
    (r = 0 <-> res = 0 /\ consecutive prev bs) /\
    (forall last, last_block bs = Some last -> e = id last + 1) /\
    (bs = [] -> e = prev + 1).
Proof.
  induction bs as [|x l IH]; intros prev res; cbn [check_blocks consecutive].
  - split; [tauto|]. split; [discriminate|reflexivity].
  - set (res' := if negb (id x =? prev + 1) then Z.lor res 1 else res).
    specialize (IH (id x) res').
    destruct (check_blocks l false (id x + 1) res') as [r e].
    destruct IH as (I1 & I2 & I3).
    assert (Hres : res' = 0 <-> res = 0 /\ id x = prev + 1).
    { unfold res'. destruct (Z.eqb_spec (id x) (prev + 1)); cbn [negb].
      - tauto.
      - rewrite Z.lor_eq_0_iff. split; [intros [_ H]; discriminate|tauto]. }
    split; [rewrite I1, Hres; tauto|]. split; [|discriminate].
    intros last Hl. destruct l as [|y l'].
    + cbn in Hl. injection Hl as <-. now apply I3.
    + apply I2. rewrite <- Hl. symmetry. now apply last_block_cons.
Qed.

Lemma check_iterators_spec (its : list iterator) :
  forall res, check_iterators DATA_SIZE its res = 0
              <-> res = 0 /\ Forall (in_block DATA_SIZE) its.
Proof.
  induction its as [|i l IH]; intros res; cbn [check_iterators].
  - split; [intros H; split; [assumption|constructor]|tauto].
  - rewrite IH, Forall_cons_iff. unfold in_block at 2.
    destruct (Z.geb_spec (p_off (m_position i)) DATA_SIZE) as [G|G],
             (Z.ltb_spec (p_off (m_position i)) 0) as [L|L];
      rewrite ?Z.lor_eq_0_iff; split; intros K; try lia;
      repeat match goal with
             | H : _ /\ _ |- _ => destruct H
             end; try discriminate; try lia; tauto.
Qed.

(** X12.  [debugSelfCheck()] returns 0 exactly when the block ids go up
    by one from block to block, the id counter is the tail block's id plus
    one, and every registered iterator's position is inside a data area,
    before its end.  The first block's id is not compared with anything.
    A well-formed buffer whose iterators are live passes. *)
Theorem debugSelfCheck_spec (b : Buffer) :
  (debugSelfCheck DATA_SIZE b = 0 <->
   ids_consecutive (m_blocks b) /\
   (forall last, last_block (m_blocks b) = Some last ->
                 m_blockId b = id last + 1) /\
   Forall (in_block DATA_SIZE) (m_iterators b)) /\
  (wf b -> Forall (live b) (m_iterators b) -> debugSelfCheck DATA_SIZE b = 0).
Proof.
  assert (Hiff : debugSelfCheck DATA_SIZE b = 0 <->
                 ids_consecutive (m_blocks b) /\
                 (forall last, last_block (m_blocks b) = Some last ->
                               m_blockId b = id last + 1) /\
                 Forall (in_block DATA_SIZE) (m_iterators b)).
  { unfold debugSelfCheck, ids_consecutive.
    destruct (m_blocks b) as [|x l]; cbn [check_blocks].
    - rewrite Z.eqb_refl. cbn [negb]. rewrite check_iterators_spec.
      split; [intros [_ H]; repeat split; [discriminate|assumption]|tauto].
    - pose proof (check_blocks_spec l (id x) 0) as H.
      destruct (check_blocks l false (id x + 1) 0) as [r e].
      destruct H as (H1 & H2 & H3).
      rewrite check_iterators_spec.
      assert (He : e = m_blockId b <->
                   forall last, last_block (x :: l) = Some last ->
                                m_blockId b = id last + 1).
      { destruct l as [|y l'].
        - rewrite (H3 eq_refl). cbn. split.
          + intros E last [= <-]. lia.
          + intros E. specialize (E x eq_refl). lia.
        - rewrite last_block_cons by discriminate.
          destruct (last_block (y :: l')) as [z|] eqn:El.
          + rewrite (H2 z eq_refl). split.
            * intros E last [= <-]. lia.
            * intros E. specialize (E z eq_refl). lia.
          + exfalso. unfold last_block in El. cbn [rev] in El.
            destruct (rev l'); discriminate. }
      destruct (Z.eqb_spec e (m_blockId b)) as [E|E]; cbn [negb].
      + rewrite H1. tauto.
      + rewrite Z.lor_eq_0_iff. split; [intros [[_ H] _]; discriminate|].
        intros (_ & H & _). apply He in H. contradiction. }
  split; [exact Hiff|]. intros W Hl. apply Hiff.
  pose proof (wf_chain _ _ W) as Hc. pose proof (wf_blockId _ _ W) as Hbid.
  pose proof (wf_nonempty _ _ W) as Hne. unfold nblocks in *.
  split; [|split].
  - unfold ids_consecutive, head_id in *.
    destruct (m_blocks b) as [|x l]; [exact I|].
    destruct Hc as (_ & _ & Hc). clear - Hc. revert Hc.
    generalize (id x). induction l as [|y l IH]; intros p Hc; cbn; [exact I|].
    destruct Hc as (H1 & _ & Hc). split; [lia|]. apply IH.
    now rewrite H1.
  - intros last Hlast.
    destruct (last_block_chain _ _ Hc) as (l' & E & Hid); [lia|].
    rewrite E in Hlast. injection Hlast as <-. lia.
  - eapply Forall_impl; [|exact Hl]. intros i (_ & _ & H). exact H.
Qed.


(** ** addBack(wrap::Advance) *)

Lemma advance_loop_spec (h0 : Z) (fuel : nat) :
  forall (nb : list Block) (all : allocator) (bid size left : Z),
    0 < left <= DATA_SIZE -> left <= size -> size - left < Z.of_nat fuel ->
    chain h0 nb -> bid = h0 + Z.of_nat (length nb) ->
    exists r,
      advance_loop DATA_SIZE fuel nb all bid size left = Some r /\
      match r with
      | AdvDone n1 all' bid' ne size' =>
          exists extra, n1 = nb ++ extra /\ extra <> [] /\ chain h0 n1 /\
                        bid' = h0 + Z.of_nat (length n1) /\
                        ne = mkPtr (bid' - 1) 0 /\ 0 <= size' < DATA_SIZE /\
                        size - left
                        = (Z.of_nat (length extra) - 1) * DATA_SIZE + size'
      | AdvThrew n1 all' bid' =>
          exists extra, n1 = nb ++ extra /\
                        bid' = bid + Z.of_nat (length extra) /\
                        (all' + length extra = all)%nat
      end.
Proof.
  induction fuel as [|f IH]; intros nb all bid size left Hl Hle Hf Hc Hb;
    [lia|].
  cbn [advance_loop]. unfold newBlock.
  destruct all as [|all']; cbn [allocate].
  - eexists. split; [reflexivity|]. exists []. rewrite app_nil_r.
    cbn [length]. repeat split; lia.
  - set (blk := mkBlock bid (repeat uninit (Z.to_nat DATA_SIZE))).
    assert (Hc' : chain h0 (nb ++ [blk])).
    { apply chain_app. split; [assumption|]. cbn [chain blk id data].
      rewrite repeat_length. lia. }
    destruct (Z.geb_spec (size - left) DATA_SIZE) as [G|G].
    + destruct (IH (nb ++ [blk]) all' (bid + 1) (size - left) DATA_SIZE)
        as (r & E & Hr); try assumption; try lia.
      { rewrite length_app. cbn [length]. lia. }
      rewrite E. exists r. split; [reflexivity|].
      destruct r as [n1 a1 b1 ne s1|n1 a1 b1];
        destruct Hr as (extra & H1 & Hr); exists (blk :: extra);
        rewrite H1, <- app_assoc; cbn [app length];
        (split; [reflexivity|]).
      * destruct Hr as (H2 & H3 & H4 & H5 & H6 & H7).
        rewrite H1, <- app_assoc in H3, H4. cbn [app] in H3, H4.
        repeat split; try assumption; try discriminate; try lia.
      * destruct Hr as [H2 H3]. split; lia.
    + eexists. split; [reflexivity|]. exists [blk].
      split; [reflexivity|]. split; [discriminate|]. split; [assumption|].
      rewrite length_app. unfold Block_begin, blk. cbn [length id].
      repeat split; try lia. f_equal. lia.
Qed.


(** X13.  [addBack(wrap::Advance{size})] reserves [size] bytes at the
    tail: on a well-formed buffer it returns or throws; when it returns,
    the block list is the old one with the new blocks appended, the byte
    count has grown by [size], the old byte sequence is a prefix of the
    new one and the buffer is well formed; when it throws, the buffer is
    exactly what it was. *)
Theorem advance_reserves (b : Buffer) (size : Z) :
  wf b -> 0 < size ->
  exists o, advance DATA_SIZE b size = Some o /\
    match o with
    | Returned b' =>
        wf b' /\ (exists extra, m_blocks b' = m_blocks b ++ extra) /\
        m_begin b' = m_begin b /\ m_iterators b' = m_iterators b /\
        byte_count DATA_SIZE b' = byte_count DATA_SIZE b + size /\
        firstn (Z.to_nat (byte_count DATA_SIZE b)) (contents DATA_SIZE b')
        = contents DATA_SIZE b
    | Threw b' => b' = b
    end.
Proof.
  intros W Hs.
  pose proof (wf_chain _ _ W) as Hc. pose proof (wf_blockId _ _ W) as Hbid.
  pose proof (wf_nonempty _ _ W) as Hne.
  pose proof (wf_begin_block _ _ W) as Hbb.
  pose proof (wf_end_block _ _ W) as Heb.
  pose proof (wf_begin_off _ _ W) as Hbo.
  pose proof (wf_end_off _ _ W) as Heo.
  pose proof (wf_order _ _ W) as Hord.
  pose proof (wf_begin_le_end b W) as Hble.
  pose proof (chain_flat_length _ _ Hc) as HF.
  unfold nblocks in *.
  destruct (last_block_chain _ _ Hc) as (last & El & Hlast); [lia|].
  assert (Hprefix : forall b', wf b' -> m_begin b' = m_begin b ->
            head_id b' = head_id b ->
            (exists extra, m_blocks b' = m_blocks b ++ extra) ->
            lin (m_end b) <= lin (m_end b') ->
            firstn (Z.to_nat (byte_count DATA_SIZE b)) (contents DATA_SIZE b')
            = contents DATA_SIZE b).
  { intros b' W' Hb' Hh' (extra & Hx) Hle.
    unfold contents, byte_count. rewrite Hb', Hh', Hx, flat_app.
    rewrite firstn_firstn, Nat.min_l by lia.
    rewrite skipn_app, firstn_app.
    replace (Z.to_nat (lin (m_end b) - lin (m_begin b)) -
             length (skipn (Z.to_nat (lin (m_begin b) - head_id b * DATA_SIZE))
                       (flat (m_blocks b))))%nat with 0%nat.
    - cbn [firstn]. apply app_nil_r.
    - rewrite length_skipn. unfold lin in *. rewrite Hbb, Heb in *. nia. }
  unfold advance. rewrite El. unfold ptr_diff, Block_end. cbn [p_off].
  destruct (Z.gtb_spec (DATA_SIZE - p_off (m_end b)) size) as [G|G].
  - eexists. split; [reflexivity|].
    set (b' := set_end b (m_blocks b) (ptr_add (m_end b) size)).
    assert (W' : wf b').
    { constructor; unfold nblocks, head_id;
        cbn [b' set_end m_blocks m_blockId m_begin m_end ptr_add p_block p_off];
        fold (head_id b); try assumption; try lia;
        try (intros H; specialize (Hord H); lia). }
    split; [exact W'|]. split; [exists []; cbn; now rewrite app_nil_r|].
    split; [reflexivity|]. split; [reflexivity|].
    split; [unfold byte_count, lin; cbn; lia|].
    apply Hprefix; try assumption; try reflexivity.
    + exists []. cbn. now rewrite app_nil_r.
    + unfold lin. cbn. lia.
  - destruct (advance_loop_spec (m_blockId b) (S (Z.to_nat size)) []
                (m_all b) (m_blockId b) size (DATA_SIZE - p_off (m_end b)))
      as (r & E & Hr); try lia; [exact I|cbn; lia|].
    rewrite E. destruct r as [n1 a1 b1 ne s1|n1 a1 b1].
    + destruct Hr as (extra & H1 & H2 & H3 & H4 & H5 & H6 & H7).
      cbn [app] in H1. subst extra ne.
      eexists. split; [reflexivity|].
      set (b' := mkBuffer (m_blocks b ++ n1) (m_iterators b) b1 (m_begin b)
                   (ptr_add (mkPtr (b1 - 1) 0) s1) a1).
      assert (Hn1 : (0 < length n1)%nat)
        by (destruct n1; cbn; [contradiction|lia]).
      assert (Hh : head_id b' = head_id b).
      { unfold head_id. cbn [b' m_blocks].
        destruct (m_blocks b); [cbn in Hne; lia|reflexivity]. }
      assert (W' : wf b').
      { constructor; unfold nblocks; rewrite ?Hh;
          cbn [b' m_blocks m_blockId m_begin m_end ptr_add p_block p_off];
          rewrite ?length_app; try assumption; try lia.
        apply chain_app. split; [assumption|]. rewrite <- Hbid. exact H3. }
      assert (Hlin : lin (m_end b') = lin (m_end b) + size).
      { unfold lin. cbn [b' m_end ptr_add p_block p_off]. rewrite Heb. nia. }
      split; [exact W'|]. split; [exists n1; reflexivity|].
      split; [reflexivity|]. split; [reflexivity|].
      split; [unfold byte_count; rewrite Hlin; cbn [b' m_begin]; lia|].
      apply Hprefix; try assumption; try reflexivity; [|lia].
      exists n1. reflexivity.
    + destruct Hr as (extra & H1 & H2 & H3). cbn [app] in H1. subst extra.
      rewrite Blocks_dtor_spec. eexists. split; [reflexivity|].
      destruct b as [blocks its bid bg e all]. cbn in *. f_equal; lia.
Qed.


(** ** insert and release inside the tail block *)

Lemma shift_iterators_spec (move : iterator -> option iterator)
  (f : iterator -> iterator) (itr : iterator) (rest : list iterator) :
  forall post : list iterator,
    Forall (fun j => iter_eqb j itr = false /\ move j = Some (f j)) post ->
    iter_eqb itr itr = true ->
    shift_iterators move (post ++ itr :: rest) itr
    = Some (map f post ++ itr :: rest).
Proof.
  induction post as [|j post IH]; intros HF Hi; cbn [app map shift_iterators].
  - now rewrite Hi.
  - apply Forall_cons_iff in HF as [[H1 H2] HF].
    rewrite H1, H2, (IH HF Hi). reflexivity.
Qed.

Lemma iter_eqb_refl (i : iterator) : iter_eqb i i = true.
Proof. unfold iter_eqb, ptr_eqb. now rewrite !Z.eqb_refl. Qed.

Lemma tail_blocks_from (h : Z) (bs : list Block) :
  chain h bs -> (0 < length bs)%nat ->
  exists cur, blocks_from bs (h + Z.of_nat (length bs) - 1) = [cur] /\
              id cur = h + Z.of_nat (length bs) - 1.
Proof.
  intros Hc Hl.
  destruct (blocks_from_chain h (h + Z.of_nat (length bs) - 1) bs Hc)
    as (cur & rest & E1 & E2 & _ & E4); [lia|].
  apply (f_equal (@length _)) in E4.
  rewrite length_app, length_firstn in E4. cbn [length] in E4.
  destruct rest; [|cbn [length] in E4; lia].
  exists cur. split; assumption.
Qed.

Lemma tail_rev_blocks_from (h : Z) (bs : list Block) :
  chain h bs -> (0 < length bs)%nat ->
  exists cur prevs,
    blocks_from (rev bs) (h + Z.of_nat (length bs) - 1) = cur :: prevs /\
    id cur = h + Z.of_nat (length bs) - 1.
Proof.
  intros Hc Hl. pose proof (dchain_of_chain _ _ Hc) as Hd.
  destruct (blocks_from_dchain _ (h + Z.of_nat (length bs) - 1) _ Hd)
    as (cur & prevs & E1 & E2 & _); [rewrite length_rev; lia|].
  exists cur, prevs. split; [exact E1|apply E2].
Qed.


Lemma insert_in_tail_flat (b : Buffer) (itr : iterator) (size : Z)
  (pre post : list iterator) :
  wf b -> in_tail b itr 0 pre post ->
  0 < size < DATA_SIZE - p_off (m_end b) ->
  exists bs',
    insert DATA_SIZE b itr size
    = Some (Returned (mkBuffer bs' (pre ++ itr :: map (shifted size) post)
                        (m_blockId b) (m_begin b) (ptr_add (m_end b) size)
                        (m_all b))) /\
    chain (head_id b) bs' /\ map id bs' = map id (m_blocks b) /\
    flat bs'
    = splice (flat (m_blocks b))
        (index (head_id b) (m_position itr) + size)
        (firstn (Z.to_nat (p_off (m_end b) - p_off (m_position itr)))
           (skipn (Z.to_nat (index (head_id b) (m_position itr)))
              (flat (m_blocks b)))).
Proof.
  intros W (Hreg & Hmb & Hpb & Hoff & Hpost) Hs.
  pose proof (wf_chain _ _ W) as Hc. pose proof (wf_blockId _ _ W) as Hbid.
  pose proof (wf_nonempty _ _ W) as Hne.
  pose proof (wf_end_block _ _ W) as Heb.
  pose proof (wf_end_off _ _ W) as Heo.
  unfold nblocks in *.
  destruct (last_block_chain _ _ Hc) as (last & El & Hlast); [lia|].
  assert (Eadv : advance DATA_SIZE b size
                 = Some (Returned (set_end b (m_blocks b)
                                     (ptr_add (m_end b) size)))).
  { unfold advance. rewrite El. unfold ptr_diff, Block_end. cbn [p_off].
     destruct (Z.gtb_spec (DATA_SIZE - p_off (m_end b)) size); [reflexivity|lia]. }
  assert (Hload : load DATA_SIZE (m_blocks b) (m_position itr) (p_off (m_end b) - p_off (m_position itr))
                  = Some (firstn (Z.to_nat (p_off (m_end b) - p_off (m_position itr)))
                            (skipn (Z.to_nat (index (head_id b) (m_position itr)))
                               (flat (m_blocks b)))))
    by (apply load_chain; try assumption; lia).
  set (bytes := firstn (Z.to_nat (p_off (m_end b) - p_off (m_position itr)))
                  (skipn (Z.to_nat (index (head_id b) (m_position itr)))
                     (flat (m_blocks b)))) in *.
  assert (Hbytes : Z.of_nat (length bytes) = p_off (m_end b) - p_off (m_position itr)).
  { unfold bytes. rewrite length_firstn, length_skipn.
    pose proof (chain_flat_length _ _ Hc) as HF.
    unfold index.  rewrite Hpb, Hbid. nia. }
  set (dst := ptr_add (ptr_add (m_end b) size) (- (p_off (m_end b) - p_off (m_position itr)))).
  destruct (store_chain (head_id b) (m_blocks b) dst bytes Hc)
    as (bs' & S1 & S2 & S3 & S4);
    try (unfold dst, ptr_add; cbn [p_block p_off]; lia).
  exists bs'. split; [|split; [exact S2|split; [exact S3|]]].
  2:{ rewrite S4. f_equal. unfold index, dst, ptr_add. cbn [p_block p_off].
       rewrite Hpb, Heb. lia. }
  assert (Hlen' : length bs' = length (m_blocks b)) by now apply length_map_id.
  unfold insert. rewrite El, Eadv. unfold set_end. cbn [m_blocks m_end].
  rewrite El.
  unfold src_block_begin, begin_of, ptr_diff, ptr_add.
  cbn [p_block p_off m_iterators m_blockId m_begin m_all]. 
  replace (id last =? m_block itr) with true by (symmetry; apply Z.eqb_eq; lia).
  replace (p_off (m_end b) + size - 0 >? p_off (m_end b) - p_off (m_position itr)) with true
    by (symmetry; apply Z.gtb_lt; lia).
  rewrite Z.min_l by lia.
  cbn [insert_loop]. unfold memmove. rewrite Hload.
  unfold dst, ptr_add in S1. cbn [p_block p_off] in S1. 
  rewrite S1.
  replace (p_off (m_end b) + size - 0 >? p_off (m_end b) - p_off (m_position itr)) with true
    by (symmetry; apply Z.gtb_lt; lia).
  replace (id last =? m_block itr) with true by (symmetry; apply Z.eqb_eq; lia).
  rewrite Hreg, rev_app_distr. cbn [rev]. rewrite <- app_assoc. cbn [app].
  rewrite (shift_iterators_spec _ (shifted size) itr (rev pre) (rev post)).
  - do 3 f_equal. rewrite rev_app_distr. cbn [rev].
    rewrite <- map_rev, !rev_involutive, <- app_assoc. reflexivity.
  - apply Forall_rev. eapply Forall_impl; [|exact Hpost].
    intros j (J1 & J2 & J3 & J4). split.
    + unfold iter_eqb, ptr_eqb. 
      destruct (Z.eqb_spec (p_off (m_position j)) (p_off (m_position itr)));
        [lia|].
      apply andb_false_r.
    + destruct (tail_blocks_from (head_id b) bs' S2) as (cur & B1 & B2);
        [lia|].
      unfold moveForward. rewrite J1, Hbid, <- Hlen', B1.
      cbn [moveForward_loop]. unfold ptr_diff, Block_end. cbn [p_off].
      destruct (Z.geb_spec size (DATA_SIZE - p_off (m_position j))); [lia|].
      unfold shifted. do 2 f_equal. rewrite B2, J1, Hbid, Hlen'. reflexivity.
  - apply iter_eqb_refl.
Qed.


Lemma last_iterator_app (pre post : list iterator) (itr l : iterator) :
  last_iterator (pre ++ itr :: post) = Some l -> l = itr \/ In l post.
Proof.
  unfold last_iterator. rewrite rev_app_distr. cbn [rev].
  rewrite <- app_assoc. destruct (rev post) as [|x r] eqn:E; cbn.
  - intros [= <-]. now left.
  - intros [= <-]. right. apply in_rev. rewrite E. now left.
Qed.

Lemma release_in_tail_flat (ndebug : bool) (b : Buffer) (itr : iterator)
  (size : Z) (pre post : list iterator) :
  wf b -> in_tail b itr (p_off (m_position itr) + size) pre post ->
  lin (m_begin b) <= lin (m_position itr) ->
  0 < size -> p_off (m_position itr) + size <= p_off (m_end b) ->
  exists bs',
    release DATA_SIZE ndebug b itr size
    = Some (mkBuffer bs' (pre ++ itr :: map (shifted (- size)) post)
              (m_blockId b) (m_begin b) (ptr_add (m_end b) (- size))
              (m_all b)) /\
    chain (head_id b) bs' /\ map id bs' = map id (m_blocks b) /\
    flat bs'
    = splice (flat (m_blocks b)) (index (head_id b) (m_position itr))
        (firstn (Z.to_nat (DATA_SIZE - (p_off (m_position itr) + size)))
           (skipn (Z.to_nat (index (head_id b) (m_position itr) + size))
              (flat (m_blocks b)))).
Proof.
  intros W (Hreg & Hmb & Hpb & Hoff & Hpost) Hlo Hs Hhole.
  pose proof (wf_chain _ _ W) as Hc. pose proof (wf_blockId _ _ W) as Hbid.
  pose proof (wf_nonempty _ _ W) as Hne.
  pose proof (wf_end_block _ _ W) as Heb.
  pose proof (wf_end_off _ _ W) as Heo.
  pose proof (wf_begin_block _ _ W) as Hbb.
  unfold nblocks in *.
  destruct (last_block_chain _ _ Hc) as (last & El & Hlast); [lia|].
  destruct (tail_blocks_from (head_id b) (m_blocks b) Hc) as (cur & B1 & B2);
    [lia|].
  assert (Hk : 0 <= (m_blockId b - 1 - head_id b) * DATA_SIZE)
    by (apply Z.mul_nonneg_nonneg; lia).
  assert (Hload : load DATA_SIZE (m_blocks b) (ptr_add (m_position itr) size)
                    (DATA_SIZE - (p_off (m_position itr) + size))
                  = Some (firstn (Z.to_nat (DATA_SIZE -
                                            (p_off (m_position itr) + size)))
                            (skipn (Z.to_nat (index (head_id b)
                                                (m_position itr) + size))
                               (flat (m_blocks b))))).
  { rewrite (load_chain (head_id b));
      try assumption; unfold ptr_add; cbn [p_block p_off]; try lia.
    do 3 f_equal. unfold index. cbn [p_block p_off]. lia. }
  set (bytes := firstn (Z.to_nat (DATA_SIZE - (p_off (m_position itr) + size)))
                  (skipn (Z.to_nat (index (head_id b) (m_position itr) + size))
                     (flat (m_blocks b)))) in *.
  assert (Hbytes : Z.of_nat (length bytes)
                   = DATA_SIZE - (p_off (m_position itr) + size)).
  { unfold bytes. rewrite length_firstn, length_skipn.
    pose proof (chain_flat_length _ _ Hc) as HF.
    unfold index. rewrite Hpb, Hbid. nia. }
  destruct (store_chain (head_id b) (m_blocks b) (m_position itr) bytes Hc)
    as (bs' & S1 & S2 & S3 & S4); try lia.
  exists bs'. split; [|split; [exact S2|split; [exact S3|exact S4]]].
  assert (Hlen' : length bs' = length (m_blocks b)) by now apply length_map_id.
  unfold release. rewrite Hmb, Hbid, B1, El.
  cbn [locate_loop]. unfold ptr_diff, Block_end, end_of. cbn [p_off].
  destruct (Z.geb_spec size (DATA_SIZE - p_off (m_position itr))); [lia|].
  unfold ptr_add in Hload |- *. cbn [p_off].
  rewrite Z.min_l by lia.
  cbn [release_loop]. unfold memmove.
  rewrite Hload, S1.
  replace (DATA_SIZE - p_off (m_position itr)
           >? DATA_SIZE - (p_off (m_position itr) + size)) with true
    by (symmetry; apply Z.gtb_lt; lia).
  replace (id cur =? id last) with true by (symmetry; apply Z.eqb_eq; lia).
  rewrite Hreg, rev_app_distr. cbn [rev]. rewrite <- app_assoc. cbn [app].
  rewrite (shift_iterators_spec _ (shifted (- size)) itr (rev pre) (rev post)).
  - rewrite rev_app_distr. cbn [rev].
    rewrite <- map_rev, !rev_involutive, <- app_assoc. cbn [app].
    destruct (last_block_chain _ _ S2) as (x & Ex & Hx); [lia|].
    unfold last_block in Ex.
    destruct (rev bs') as [|x' l] eqn:Er; [discriminate|].
    injection Ex as ->.
    assert (Hbs : bs' = rev (x :: l))
      by (rewrite <- Er; symmetry; apply rev_involutive).
    rewrite (dropBack_eval ndebug _ size x l (m_all b)
               (head_id b + Z.of_nat (length (m_blocks b))) (m_end b) size);
      cbn [m_blocks m_end m_all m_blockId m_begin m_iterators].
    + rewrite <- Hbs. reflexivity.
    + exact Hs.
    + intros H0. rewrite H0 in Er. discriminate.
    + rewrite Er. cbn [dropBack_loop].
      destruct (Z.gtb_spec size (p_off (m_end b))); [lia|]. reflexivity.
    + destruct ndebug; [reflexivity|]. cbn [assert orb].
      unfold dropBack_sanity. cbn [ptr_add p_off].
      apply andb_true_intro. split; [apply andb_true_intro; split|].
      * apply Z.leb_le. lia.
      * destruct (last_iterator _) as [l0|] eqn:E0; [|reflexivity].
        destruct (_ =? _); [|reflexivity]. apply Z.leb_le.
        apply last_iterator_app in E0 as [-> | E0]; [lia|].
        apply in_map_iff in E0 as (j & <- & Hj).
        rewrite Forall_forall in Hpost. apply Hpost in Hj.
        unfold shifted, ptr_add. cbn [m_position p_off]. lia.
      * rewrite <- Hbs. unfold first_block.
        destruct bs' as [|f fs] eqn:Ebs; [reflexivity|]. cbn [hd_error].
        destruct (Z.eqb_spec (id f) (id x)) as [G|G]; [|reflexivity].
        apply Z.leb_le. destruct S2 as (Hf & _).
        unfold lin in Hlo. rewrite Hbb, Hpb, Hbid in Hlo.
        rewrite Hlen' in Hx.
        assert (Z.of_nat (length (m_blocks b)) = 1) by lia.
        replace (head_id b + Z.of_nat (length (m_blocks b)) - 1)
          with (head_id b) in Hlo by lia.
        lia.
  - apply Forall_rev. eapply Forall_impl; [|exact Hpost].
    intros j (J1 & J2 & J3 & J4). split.
    + unfold iter_eqb, ptr_eqb.
      destruct (Z.eqb_spec (p_off (m_position j)) (p_off (m_position itr)));
        [lia|].
      apply andb_false_r.
    + destruct (tail_rev_blocks_from (head_id b) bs' S2)
        as (blk & prevs & R1 & R2); [lia|].
      unfold moveBackward. rewrite J1, Hbid, <- Hlen', R1.
      destruct prevs; cbn [moveBackward_loop];
        unfold ptr_diff, Block_begin; cbn [p_off];
        (destruct (Z.gtb_spec size (p_off (m_position j) - 0)); [lia|]);
        unfold shifted; do 2 f_equal; rewrite R2, J1, Hbid, Hlen';
        reflexivity.
  - apply iter_eqb_refl.
Qed.


(** Opening and closing a gap inside a byte sequence, as the [memmove]s of
    [insert] and [release] do within one block. *)
Lemma open_gap_parts (P M R : list char) (B size : nat) :
  (B <= length P)%nat -> (size <= length (M ++ R))%nat ->
  skipn B (firstn (length P + length M + size)
             (splice (P ++ M ++ R) (Z.of_nat (length P + size)) M))
  = skipn B P ++ firstn size (M ++ R) ++ M.
Proof.
  intros H1 H2. unfold splice. rewrite Nat2Z.id.
  rewrite (firstn_app (length P + size) P).
  rewrite (@firstn_all2 _ _ P) by lia.
  replace (length P + size - length P)%nat with size by lia.
  rewrite <- !app_assoc.
  assert (HG : length (firstn size (M ++ R)) = size)
    by (rewrite length_firstn; lia).
  set (G := firstn size (M ++ R)) in *.
  rewrite firstn_app, (@firstn_all2 _ _ P) by lia.
  rewrite firstn_app, HG.
  rewrite (@firstn_all2 _ _ G) by lia.
  rewrite firstn_app.
  rewrite (@firstn_all2 _ _ M) by lia.
  replace (length P + length M + size - length P - size - length M)%nat
    with 0%nat by lia.
  cbn [firstn]. rewrite app_nil_r.
  rewrite skipn_app. replace (B - length P)%nat with 0%nat by lia.
  reflexivity.
Qed.

Lemma close_gap_parts (P H M R : list char) (B c : nat) :
  (B <= length P)%nat -> (length M <= c)%nat ->
  (c <= length (M ++ R))%nat ->
  skipn B (firstn (length P + length M)
             (splice (P ++ H ++ M ++ R) (Z.of_nat (length P))
                (firstn c (skipn (length P + length H)
                             (P ++ H ++ M ++ R)))))
  = skipn B P ++ M.
Proof.
  intros H1 H2 H3. unfold splice. rewrite Nat2Z.id.
  rewrite (firstn_app (length P) P), firstn_all, Nat.sub_diag.
  cbn [firstn]. rewrite app_nil_r.
  rewrite (app_assoc P H), skipn_app, length_app.
  rewrite (@skipn_all2 _ _ (P ++ H)) by (rewrite length_app; lia).
  rewrite Nat.sub_diag. cbn [skipn app].
  rewrite (firstn_app (length P + length M) P), (@firstn_all2 _ _ P) by lia.
  replace (length P + length M - length P)%nat with (length M) by lia.
  rewrite firstn_app, firstn_firstn, Nat.min_l by lia.
  rewrite firstn_app, firstn_all, Nat.sub_diag. cbn [firstn].
  rewrite app_nil_r, length_firstn.
  replace (length M - Init.Nat.min c (length (M ++ R)))%nat with 0%nat by lia.
  cbn [firstn]. rewrite app_nil_r.
  rewrite skipn_app. replace (B - length P)%nat with 0%nat by lia.
  reflexivity.
Qed.

Lemma window_parts (P M R : list char) (B : nat) :
  (B <= length P)%nat ->
  skipn B (firstn (length P + length M) (P ++ M ++ R)) = skipn B P ++ M.
Proof.
  intros H. rewrite app_assoc, firstn_app, length_app.
  rewrite (@firstn_all2 _ _ (P ++ M)) by (rewrite length_app; lia).
  replace (length P + length M - (length P + length M))%nat with 0%nat by lia.
  cbn [firstn]. rewrite app_nil_r, skipn_app.
  replace (B - length P)%nat with 0%nat by lia. reflexivity.
Qed.

Lemma open_gap_flat (F : list char) (B idx E size : nat) :
  (B <= idx <= E)%nat -> (E + size <= length F)%nat ->
  skipn B (firstn (E + size)
             (splice F (Z.of_nat (idx + size))
                (firstn (E - idx) (skipn idx F))))
  = firstn (idx - B) (skipn B (firstn E F))
    ++ firstn size (skipn idx F)
    ++ skipn (idx - B) (skipn B (firstn E F)).
Proof.
  intros H1 H2.
  assert (ET : skipn idx F
               = firstn (E - idx) (skipn idx F)
                 ++ skipn (E - idx) (skipn idx F))
    by (symmetry; apply firstn_skipn).
  assert (EF : F = firstn idx F ++ skipn idx F)
    by (symmetry; apply firstn_skipn).
  assert (HP : length (firstn idx F) = idx) by (rewrite length_firstn; lia).
  assert (HM : length (firstn (E - idx) (skipn idx F)) = (E - idx)%nat)
    by (rewrite length_firstn, length_skipn; lia).
  assert (HR : (size <= length (skipn (E - idx) (skipn idx F)))%nat)
    by (rewrite !length_skipn; lia).
  set (M := firstn (E - idx) (skipn idx F)) in *.
  rewrite ET. rewrite ET in EF.
  set (R := skipn (E - idx) (skipn idx F)) in *.
  set (P := firstn idx F) in *.
  clearbody M R P. subst F.
  replace (E + size)%nat with (length P + length M + size)%nat by lia.
  replace E with (length P + length M)%nat by lia.
  subst idx.
  rewrite open_gap_parts by (rewrite ?length_app; lia).
  rewrite window_parts by lia.
  generalize (firstn size (M ++ R)). intros G.
  rewrite firstn_app, length_skipn, Nat.sub_diag.
  rewrite (@firstn_all2 _ _ (skipn B P)) by (rewrite length_skipn; lia).
  cbn [firstn]. rewrite app_nil_r.
  rewrite skipn_app, length_skipn, Nat.sub_diag.
  rewrite (@skipn_all2 _ _ (skipn B P)) by (rewrite length_skipn; lia).
  reflexivity.
Qed.

Lemma close_gap_flat (F : list char) (B idx E size c : nat) :
  (B <= idx)%nat -> (idx + size <= E)%nat -> (E <= idx + size + c)%nat ->
  (idx + size + c <= length F)%nat ->
  skipn B (firstn (E - size)
             (splice F (Z.of_nat idx) (firstn c (skipn (idx + size) F))))
  = firstn (idx - B) (skipn B (firstn E F))
    ++ skipn (idx - B + size) (skipn B (firstn E F)).
Proof.
  intros H1 H2 H3 H4.
  assert (EF : F = firstn idx F ++ firstn size (skipn idx F)
                   ++ firstn (E - size - idx) (skipn (idx + size) F)
                   ++ skipn (E - size - idx) (skipn (idx + size) F)).
  { rewrite (firstn_skipn (E - size - idx)).
    replace (idx + size)%nat with (size + idx)%nat by lia.
    rewrite <- (skipn_skipn size idx F).
    rewrite (firstn_skipn size), (firstn_skipn idx). reflexivity. }
  assert (HP : length (firstn idx F) = idx) by (rewrite length_firstn; lia).
  assert (HH : length (firstn size (skipn idx F)) = size)
    by (rewrite length_firstn, length_skipn; lia).
  assert (HM : length (firstn (E - size - idx) (skipn (idx + size) F))
               = (E - size - idx)%nat)
    by (rewrite length_firstn, length_skipn; lia).
  assert (HR : (idx + size + c - E
                <= length (skipn (E - size - idx) (skipn (idx + size) F)))%nat)
    by (rewrite !length_skipn; lia).
  set (P := firstn idx F) in *.
  set (H := firstn size (skipn idx F)) in *.
  set (M := firstn (E - size - idx) (skipn (idx + size) F)) in *.
  set (R := skipn (E - size - idx) (skipn (idx + size) F)) in *.
  clearbody P H M R. subst F.
  replace (E - size)%nat with (length P + length M)%nat by lia.
  replace (idx + size)%nat with (length P + length H)%nat by lia.
  replace E with (length P + length (H ++ M))%nat
    by (rewrite length_app; lia).
  subst idx.
  rewrite close_gap_parts by (rewrite ?length_app; lia).
  rewrite (app_assoc H M R), window_parts by lia.
  rewrite firstn_app, length_skipn, Nat.sub_diag.
  rewrite (@firstn_all2 _ _ (skipn B P)) by (rewrite length_skipn; lia).
  cbn [firstn]. rewrite app_nil_r. f_equal.
  rewrite skipn_app, length_skipn.
  rewrite (@skipn_all2 _ _ (skipn B P)) by (rewrite length_skipn; lia).
  replace (length P - B + size - (length P - B))%nat with (length H) by lia.
  rewrite skipn_app, Nat.sub_diag, skipn_all. reflexivity.
Qed.


Lemma tail_edit_wf (b : Buffer) (bs' : list Block) (its : list iterator)
  (d : Z) :
  wf b -> chain (head_id b) bs' -> map id bs' = map id (m_blocks b) ->
  0 <= p_off (m_end b) + d < DATA_SIZE ->
  (nblocks b = 1 -> p_off (m_begin b) <= p_off (m_end b) + d) ->
  wf (mkBuffer bs' its (m_blockId b) (m_begin b) (ptr_add (m_end b) d)
        (m_all b)).
Proof.
  intros W Hc Hids Hd Ho.
  set (b' := mkBuffer bs' its (m_blockId b) (m_begin b)
               (ptr_add (m_end b) d) (m_all b)).
  assert (Hh : head_id b' = head_id b) by (apply head_id_map; exact Hids).
  constructor; unfold nblocks in *; rewrite ?Hh;
    cbn [b' m_blocks m_blockId m_begin m_end ptr_add p_block p_off];
    rewrite ?(length_map_id _ _ Hids); try assumption; apply W.
Qed.

(** The flat indices of the cursors and of an iterator of the tail block. *)
Lemma tail_indices (b : Buffer) (p : ptr) :
  wf b -> p_block p = m_blockId b - 1 -> 0 <= p_off p <= p_off (m_end b) ->
  lin (m_begin b) <= lin p ->
  index (head_id b) (m_begin b) = p_off (m_begin b) /\
  0 <= index (head_id b) (m_begin b) <= index (head_id b) p /\
  index (head_id b) (m_end b) - index (head_id b) p
  = p_off (m_end b) - p_off p /\
  lin p - lin (m_begin b)
  = index (head_id b) p - index (head_id b) (m_begin b) /\
  index (head_id b) (m_end b) + (DATA_SIZE - p_off (m_end b))
  = Z.of_nat (length (flat (m_blocks b))).
Proof.
  intros W Hp Ho Hlo.
  pose proof (wf_chain _ _ W) as Hc. pose proof (wf_blockId _ _ W) as Hbid.
  pose proof (wf_begin_block _ _ W) as Hbb.
  pose proof (wf_end_block _ _ W) as Heb.
  pose proof (wf_begin_off _ _ W) as Hbo.
  pose proof (chain_flat_length _ _ Hc) as HF.
  unfold nblocks in *. unfold index, lin in *.
  rewrite Hbb, Heb, Hp, Hbid in *. rewrite HF.
  repeat split; try lia.
Qed.

Lemma insert_in_tail_spec (b : Buffer) (itr : iterator) (size : Z)
  (pre post : list iterator) :
  wf b -> in_tail b itr 0 pre post ->
  lin (m_begin b) <= lin (m_position itr) ->
  0 < size < DATA_SIZE - p_off (m_end b) ->
  exists bs',
    let b' := mkBuffer bs' (pre ++ itr :: map (shifted size) post)
                (m_blockId b) (m_begin b) (ptr_add (m_end b) size) (m_all b) in
    insert DATA_SIZE b itr size = Some (Returned b') /\
    wf b' /\ map id bs' = map id (m_blocks b) /\
    contents DATA_SIZE b'
    = firstn (Z.to_nat (lin (m_position itr) - lin (m_begin b)))
        (contents DATA_SIZE b)
      ++ firstn (Z.to_nat size)
           (skipn (Z.to_nat (index (head_id b) (m_position itr)))
              (flat (m_blocks b)))
      ++ skipn (Z.to_nat (lin (m_position itr) - lin (m_begin b)))
           (contents DATA_SIZE b).
Proof.
  intros W T Hlo Hs.
  destruct (insert_in_tail_flat b itr size pre post W T Hs)
    as (bs' & E & Hc' & Hids & HF').
  destruct T as (_ & _ & Hpb & Hoff & _).
  pose proof (wf_end_off _ _ W) as Heo.
  exists bs'. cbn zeta.
  assert (W' : wf (mkBuffer bs' (pre ++ itr :: map (shifted size) post)
                     (m_blockId b) (m_begin b) (ptr_add (m_end b) size)
                     (m_all b)))
    by (apply tail_edit_wf; try assumption; try lia;
        intros H1; pose proof (wf_order _ _ W H1); lia).
  split; [exact E|]. split; [exact W'|]. split; [exact Hids|].
  rewrite (contents_as_skipn_firstn _ W'), (contents_as_skipn_firstn _ W).
  rewrite (head_id_map b) by exact Hids.
  cbn [m_blocks m_begin m_end]. rewrite HF'.
  destruct (tail_indices b (m_position itr) W Hpb Hoff Hlo)
    as (I1 & I2 & I3 & I4 & I5).
  rewrite I4.
  replace (index (head_id b) (ptr_add (m_end b) size))
    with (index (head_id b) (m_end b) + size)
    by (unfold index, ptr_add; cbn [p_block p_off]; lia).
  rewrite <- I3.
  set (En := index (head_id b) (m_end b)) in *.
  set (idx := index (head_id b) (m_position itr)) in *.
  set (B := index (head_id b) (m_begin b)) in *.
  clearbody En idx B.
  replace (Z.to_nat (idx - B)) with (Z.to_nat idx - Z.to_nat B)%nat by lia.
  rewrite <- (open_gap_flat (flat (m_blocks b)) (Z.to_nat B) (Z.to_nat idx)
                (Z.to_nat En) (Z.to_nat size)) by lia.
  f_equal. f_equal; [lia|]. f_equal; [lia|]. f_equal. lia.
Qed.


Lemma release_in_tail_spec (ndebug : bool) (b : Buffer) (itr : iterator)
  (size : Z) (pre post : list iterator) :
  wf b -> in_tail b itr (p_off (m_position itr) + size) pre post ->
  lin (m_begin b) <= lin (m_position itr) ->
  0 < size -> p_off (m_position itr) + size <= p_off (m_end b) ->
  exists bs',
    let b' := mkBuffer bs' (pre ++ itr :: map (shifted (- size)) post)
                (m_blockId b) (m_begin b) (ptr_add (m_end b) (- size))
                (m_all b) in
    release DATA_SIZE ndebug b itr size = Some b' /\
    wf b' /\ map id bs' = map id (m_blocks b) /\
    contents DATA_SIZE b'
    = firstn (Z.to_nat (lin (m_position itr) - lin (m_begin b)))
        (contents DATA_SIZE b)
      ++ skipn (Z.to_nat (lin (m_position itr) - lin (m_begin b) + size))
           (contents DATA_SIZE b).
Proof.
  intros W T Hlo Hs Hhole.
  destruct (release_in_tail_flat ndebug b itr size pre post W T Hlo Hs Hhole)
    as (bs' & E & Hc' & Hids & HF').
  destruct T as (_ & _ & Hpb & Hoff & _).
  pose proof (wf_end_off _ _ W) as Heo.
  pose proof (wf_begin_block _ _ W) as Hbb.
  pose proof (wf_blockId _ _ W) as Hbid.
  exists bs'. cbn zeta.
  assert (W' : wf (mkBuffer bs' (pre ++ itr :: map (shifted (- size)) post)
                     (m_blockId b) (m_begin b) (ptr_add (m_end b) (- size))
                     (m_all b))).
  { apply tail_edit_wf; try assumption; try lia.
    intros H1. unfold lin in Hlo. rewrite Hbb, Hpb, Hbid, H1 in Hlo. lia. }
  split; [exact E|]. split; [exact W'|]. split; [exact Hids|].
  rewrite (contents_as_skipn_firstn _ W'), (contents_as_skipn_firstn _ W).
  rewrite (head_id_map b) by exact Hids.
  cbn [m_blocks m_begin m_end]. rewrite HF'.
  destruct (tail_indices b (m_position itr) W Hpb Hoff Hlo)
    as (I1 & I2 & I3 & I4 & I5).
  rewrite I4.
  replace (index (head_id b) (ptr_add (m_end b) (- size)))
    with (index (head_id b) (m_end b) - size)
    by (unfold index, ptr_add; cbn [p_block p_off]; lia).
  set (En := index (head_id b) (m_end b)) in *.
  set (idx := index (head_id b) (m_position itr)) in *.
  set (B := index (head_id b) (m_begin b)) in *.
  clearbody En idx B.
  replace (Z.to_nat (idx - B)) with (Z.to_nat idx - Z.to_nat B)%nat by lia.
  replace (Z.to_nat (idx - B + size))
    with (Z.to_nat idx - Z.to_nat B + Z.to_nat size)%nat by lia.
  rewrite <- (close_gap_flat (flat (m_blocks b)) (Z.to_nat B) (Z.to_nat idx)
                (Z.to_nat En) (Z.to_nat size)
                (Z.to_nat (DATA_SIZE - (p_off (m_position itr) + size))))
    by lia.
  f_equal. f_equal; [lia|]. f_equal; [lia|]. f_equal. f_equal. lia.
Qed.


Lemma contents_length (b : Buffer) :
  wf b -> Z.of_nat (length (contents DATA_SIZE b)) = byte_count DATA_SIZE b.
Proof.
  intros W. pose proof (wf_begin_le_end b W) as Hle.
  unfold contents, byte_count. rewrite length_firstn, length_skipn.
  pose proof (chain_flat_length _ _ (wf_chain _ _ W)) as HF.
  pose proof (wf_begin_block _ _ W) as Hbb.
  pose proof (wf_end_block _ _ W) as Heb.
  pose proof (wf_blockId _ _ W) as Hb.
  pose proof (wf_end_off _ _ W) as Ho.
  pose proof (wf_begin_off _ _ W) as Hbo.
  unfold lin, nblocks in *. rewrite Hbb, Heb, Hb in *. nia.
Qed.

Lemma shifted_back (size : Z) (l : list iterator) :
  map (shifted (- size)) (map (shifted size) l) = l.
Proof.
  rewrite map_map. rewrite <- (map_id l) at 2. apply map_ext.
  intros [blk [pb po]]. unfold shifted, ptr_add. cbn [m_block m_position
    p_block p_off]. do 2 f_equal. lia.
Qed.

(** X14.  [insert(itr, size)] at an iterator of the tail block, when the
    block has more than [size] free bytes: no block is appended, the bytes
    from [itr] to the end move up by [size], leaving a gap of [size] bytes
    at [itr]; the bytes before [itr] stay; [itr] stays and every iterator
    after it in the registry moves up by [size]. *)
Theorem insert_in_tail_block (b : Buffer) (itr : iterator) (size : Z)
  (pre post : list iterator) :
  wf b -> in_tail b itr 0 pre post ->
  lin (m_begin b) <= lin (m_position itr) ->
  0 < size < DATA_SIZE - p_off (m_end b) ->
  exists b' gap,
    insert DATA_SIZE b itr size = Some (Returned b') /\ wf b' /\
    m_iterators b' = pre ++ itr :: map (shifted size) post /\
    map id (m_blocks b') = map id (m_blocks b) /\
    m_all b' = m_all b /\ m_begin b' = m_begin b /\
    byte_count DATA_SIZE b' = byte_count DATA_SIZE b + size /\
    Z.of_nat (length gap) = size /\
    contents DATA_SIZE b'
    = firstn (Z.to_nat (lin (m_position itr) - lin (m_begin b)))
        (contents DATA_SIZE b)
      ++ gap
      ++ skipn (Z.to_nat (lin (m_position itr) - lin (m_begin b)))
           (contents DATA_SIZE b).
Proof.
  intros W T Hlo Hs.
  destruct (insert_in_tail_spec b itr size pre post W T Hlo Hs)
    as (bs' & E & W' & Hids & Hcont).
  destruct T as (_ & _ & Hpb & Hoff & _).
  destruct (tail_indices b (m_position itr) W Hpb Hoff Hlo)
    as (I1 & I2 & I3 & I4 & I5).
  pose proof (wf_end_off _ _ W) as Heo.
  eexists. exists (firstn (Z.to_nat size)
                     (skipn (Z.to_nat (index (head_id b) (m_position itr)))
                        (flat (m_blocks b)))).
  split; [exact E|]. split; [exact W'|].
  cbn [m_iterators m_blocks m_all m_begin].
  repeat (split; [try reflexivity; try assumption|]); [| |exact Hcont].
  - unfold byte_count, lin, ptr_add. cbn [m_begin m_end p_block p_off]. lia.
  - rewrite length_firstn, length_skipn. lia.
Qed.

(** X15.  [release(itr, size)] at an iterator of the tail block, when the
    [size] bytes after [itr] all lie before [m_end]: the bytes after them
    move down by [size], the block list is unchanged, the byte sequence
    loses exactly those [size] bytes, [itr] stays and every iterator after
    it in the registry moves down by [size].  No block is freed, and the
    assertions of the closing [dropBack] hold: the result is the same with
    and without [NDEBUG]. *)
Theorem release_in_tail_block (ndebug : bool) (b : Buffer) (itr : iterator)
  (size : Z) (pre post : list iterator) :
  wf b -> in_tail b itr (p_off (m_position itr) + size) pre post ->
  lin (m_begin b) <= lin (m_position itr) ->
  0 < size -> p_off (m_position itr) + size <= p_off (m_end b) ->
  exists b',
    release DATA_SIZE ndebug b itr size = Some b' /\ wf b' /\
    m_iterators b' = pre ++ itr :: map (shifted (- size)) post /\
    map id (m_blocks b') = map id (m_blocks b) /\
    m_all b' = m_all b /\ m_begin b' = m_begin b /\
    byte_count DATA_SIZE b' = byte_count DATA_SIZE b - size /\
    contents DATA_SIZE b'
    = firstn (Z.to_nat (lin (m_position itr) - lin (m_begin b)))
        (contents DATA_SIZE b)
      ++ skipn (Z.to_nat (lin (m_position itr) - lin (m_begin b) + size))
           (contents DATA_SIZE b).
Proof.
  intros W T Hlo Hs Hhole.
  destruct (release_in_tail_spec ndebug b itr size pre post W T Hlo Hs Hhole)
    as (bs' & E & W' & Hids & Hcont).
  eexists. split; [exact E|]. split; [exact W'|].
  cbn [m_iterators m_blocks m_all m_begin].
  repeat (split; [try reflexivity; try assumption|]); [|exact Hcont].
  unfold byte_count, lin, ptr_add. cbn [m_begin m_end p_block p_off]. lia.
Qed.


(** X16.  Inside the tail block [release(itr, size)] undoes
    [insert(itr, size)]: the byte sequence, the registry, the cursors, the
    block ids and the pool are what they were before the insertion, with
    and without [NDEBUG]. *)
Theorem insert_release_in_tail_block (ndebug : bool) (b : Buffer)
  (itr : iterator) (size : Z) (pre post : list iterator) :
  wf b -> in_tail b itr 0 pre post ->
  lin (m_begin b) <= lin (m_position itr) ->
  0 < size < DATA_SIZE - p_off (m_end b) ->
  exists b' b'',
    insert DATA_SIZE b itr size = Some (Returned b') /\
    release DATA_SIZE ndebug b' itr size = Some b'' /\ wf b'' /\
    contents DATA_SIZE b'' = contents DATA_SIZE b /\
    m_iterators b'' = m_iterators b /\
    m_begin b'' = m_begin b /\ m_end b'' = m_end b /\
    m_blockId b'' = m_blockId b /\ m_all b'' = m_all b /\
    map id (m_blocks b'') = map id (m_blocks b).
Proof.
  intros W T Hlo Hs.
  destruct (insert_in_tail_spec b itr size pre post W T Hlo Hs)
    as (bs' & E & W' & Hids & Hcont).
  cbn zeta in *.
  set (b' := mkBuffer bs' (pre ++ itr :: map (shifted size) post)
               (m_blockId b) (m_begin b) (ptr_add (m_end b) size)
               (m_all b)) in *.
  pose proof (contents_length b W) as HL.
  destruct T as (Hreg & Hmb & Hpb & Hoff & Hpost).
  destruct (tail_indices b (m_position itr) W Hpb Hoff Hlo)
    as (I1 & I2 & I3 & I4 & I5).
  assert (T' : in_tail b' itr (p_off (m_position itr) + size) pre
                 (map (shifted size) post)).
  { unfold in_tail. cbn [b' m_iterators m_blockId m_end ptr_add p_off].
    repeat (split; [try reflexivity; try assumption; try lia|]).
    apply Forall_map. eapply Forall_impl; [|exact Hpost].
    intros j (J1 & J2 & J3 & J4).
    unfold shifted, ptr_add. cbn [m_block m_position p_block p_off].
    repeat split; try assumption; lia. }
  destruct (release_in_tail_spec ndebug b' itr size pre
              (map (shifted size) post) W' T')
    as (bs'' & E' & W'' & Hids' & Hcont');
    cbn [b' m_begin m_end ptr_add p_off]; try lia.
  cbn zeta in *. cbn [b' m_blockId m_begin m_end m_all m_blocks] in *.
  eexists. eexists. split; [exact E|]. split; [exact E'|].
  split; [exact W''|].
  cbn [m_iterators m_begin m_end m_blockId m_all m_blocks].
  split; [|split; [|split; [reflexivity|split; [|split; [reflexivity|
    split; [reflexivity|congruence]]]]]].
  - rewrite Hcont', Hcont.
    set (n := Z.to_nat (lin (m_position itr) - lin (m_begin b))).
    assert (Hn : (n <= length (contents DATA_SIZE b))%nat)
      by (assert (lin (m_position itr) <= lin (m_end b))
            by (unfold lin; rewrite Hpb, (wf_end_block _ _ W); lia);
          unfold n, byte_count in *; lia).
    assert (H1 : length (firstn n (contents DATA_SIZE b)) = n)
      by (rewrite length_firstn; lia).
    set (X := firstn n (contents DATA_SIZE b)) in *.
    assert (H2 : length (firstn (Z.to_nat size)
                           (skipn (Z.to_nat (index (head_id b)
                                               (m_position itr)))
                              (flat (m_blocks b)))) = Z.to_nat size).
    { rewrite length_firstn, length_skipn.
      pose proof (wf_end_off _ _ W). lia. }
    set (G := firstn (Z.to_nat size) _) in *.
    replace (Z.to_nat (lin (m_position itr) - lin (m_begin b) + size))
      with (length (X ++ G)) by (rewrite length_app; unfold n in *; lia).
    rewrite firstn_app, (@firstn_all2 _ _ X) by lia.
    replace (n - length X)%nat with 0%nat by lia. cbn [firstn].
    rewrite app_nil_r, app_assoc, skipn_app, skipn_all, Nat.sub_diag.
    cbn [skipn app]. apply firstn_skipn.
  - rewrite shifted_back. symmetry. exact Hreg.
  - unfold ptr_add. cbn [p_block p_off]. destruct (m_end b) as [eb eo].
    cbn [p_block p_off]. f_equal. lia.
Qed.


(** X17.  [getIOV(itr, vecs, max_size)] is the four-argument form run up to
    a temporary [end()]: with room for one descriptor per block from
    [itr]'s block to the tail it writes that many, and the spans,
    concatenated, are the buffer's bytes from [itr] on. *)
Theorem getIOV_to_end_bytes (b : Buffer) (itr : iterator) (max_size : Z) :
  wf b -> positioned DATA_SIZE b itr ->
  lin (m_begin b) <= lin (m_position itr) <= lin (m_end b) ->
  m_blockId b - m_block itr <= max_size ->
  exists vecs,
    getIOV_to_end DATA_SIZE b itr max_size
    = Some (vecs, m_blockId b - m_block itr) /\
    iov_bytes DATA_SIZE (m_blocks b) vecs
    = Some (skipn (Z.to_nat (lin (m_position itr) - lin (m_begin b)))
              (contents DATA_SIZE b)).
Proof.
  intros W (Hp & Hb & Ho) (Hlo & Hhi) Hcap.
  pose proof (wf_chain _ _ W) as Hc. pose proof (wf_blockId _ _ W) as Hbid.
  pose proof (wf_nonempty _ _ W) as Hne.
  pose proof (wf_begin_block _ _ W) as Hbb.
  pose proof (wf_end_block _ _ W) as Heb.
  pose proof (wf_begin_off _ _ W) as Hbo.
  pose proof (wf_end_off _ _ W) as Heo.
  unfold nblocks in *.
  destruct (last_block_chain _ _ Hc) as (last & El & Hlast); [lia|].
  destruct (blocks_from_chain (head_id b) (m_block itr) (m_blocks b) Hc)
    as (cur & rest & E1 & E2 & E3 & E4); [lia|].
  assert (Hlen : id cur + Z.of_nat (length (cur :: rest))
                 = head_id b + Z.of_nat (length (m_blocks b))).
  { apply (f_equal (@length _)) in E4.
    rewrite length_app, length_firstn in E4. lia. }
  set (e := mkIter (id last) (m_end b)).
  assert (Hord : m_block itr < m_block e \/
                 (m_block itr = m_block e /\
                  p_off (m_position itr) <= p_off (m_position e))).
  { cbn [e m_block m_position]. unfold lin in Hhi. rewrite Hp, Heb in Hhi.
    destruct (Z.eq_dec (m_block itr) (id last)) as [G|G]; [right|left; lia].
    split; [exact G|]. rewrite G in Hhi.
    replace (m_blockId b - 1) with (id last) in Hhi by lia. lia. }
  assert (Hnb : m_block e - m_block itr + 1 = m_blockId b - m_block itr)
    by (cbn [e m_block]; lia).
  eexists. split.
  - unfold getIOV_to_end, end_. rewrite El. fold e.
    unfold getIOV. cbn [m_blocks]. rewrite E1.
    pose proof (getIOV_loop_spans itr e max_size rest cur 0) as H.
    cbn zeta in H. rewrite Z.sub_0_r, Nat.add_0_l, Z2Nat.id in H by lia.
    rewrite Hnb, Z.min_r in H by lia.
    apply H; [rewrite E2 in *; exact E3|lia|cbn [e m_block]; lia].
  - pose proof (iov_bytes_spans (head_id b) (m_blocks b) itr e Hc Hp) as H.
    specialize (H ltac:(cbn [e m_block m_position]; lia) ltac:(lia)
                  ltac:(cbn [e m_block]; lia) Ho
                  ltac:(cbn [e m_position]; lia) Hord
                  (Z.to_nat (m_block e - m_block itr)) 0%nat
                  ltac:(cbn [e m_block] in *; lia)).
    cbn zeta in H.
    replace (Z.to_nat (m_blockId b - m_block itr))
      with (S (Z.to_nat (m_block e - m_block itr)))
      by (cbn [e m_block] in *; lia).
    rewrite H. f_equal.
    unfold span_of. cbn [iov_base e m_position].
    unfold contents, byte_count.
    rewrite skipn_firstn_comm, skipn_skipn. f_equal; [|f_equal];
      unfold index, lin in *; rewrite ?Hbb, ?Hp in *; lia.
Qed.


Lemma in_tail_weaken (b : Buffer) (itr : iterator) (lo lo' : Z)
  (pre post : list iterator) :
  lo' <= lo -> in_tail b itr lo pre post -> in_tail b itr lo' pre post.
Proof.
  intros Hlo (H1 & H2 & H3 & H4 & H5). repeat split; try assumption; try lia.
  eapply Forall_impl; [|exact H5]. intros j (J1 & J2 & J3 & J4).
  repeat split; try assumption; lia.
Qed.

(** X18.  [resize(itr, size, new_size)] inside the tail block changes the
    number of bytes by [new_size - size], growing through [insert] and
    shrinking through [release]; the iterators registered after [itr] move
    by the same amount.  The build does not matter. *)
Theorem resize_in_tail_block (ndebug : bool) (b : Buffer) (itr : iterator)
  (size new_size : Z) (pre post : list iterator) :
  wf b ->
  in_tail b itr (p_off (m_position itr) + Z.max 0 (size - new_size)) pre post ->
  lin (m_begin b) <= lin (m_position itr) ->
  new_size <> size -> new_size - size < DATA_SIZE - p_off (m_end b) ->
  p_off (m_position itr) + (size - new_size) <= p_off (m_end b) ->
  exists b',
    resize DATA_SIZE ndebug b itr size new_size = Some (Returned b') /\
    wf b' /\
    byte_count DATA_SIZE b' = byte_count DATA_SIZE b + (new_size - size) /\
    m_iterators b'
    = pre ++ itr :: map (shifted (new_size - size)) post /\
    map id (m_blocks b') = map id (m_blocks b).
Proof.
  intros W T Hlo Hne Hgrow Hshrink. unfold resize.
  assert (Hio : 0 <= p_off (m_position itr)) by (destruct T; tauto).
  destruct (Z.gtb_spec new_size size) as [G|G].
  - apply (in_tail_weaken _ _ _ 0) in T; [|lia].
    destruct (insert_in_tail_spec b itr (new_size - size) pre post W T Hlo)
      as (bs' & E & W' & Hids & _); [lia|].
    eexists. split; [exact E|]. split; [exact W'|].
    cbn [m_iterators m_blocks]. split; [|split; [reflexivity|exact Hids]].
    unfold byte_count, lin, ptr_add. cbn [m_begin m_end p_block p_off]. lia.
  - rewrite Z.max_r in T by lia.
    destruct (release_in_tail_spec ndebug b itr (size - new_size) pre post
                W T Hlo)
      as (bs' & E & W' & Hids & _); try lia.
    cbn zeta in E. rewrite E. cbn [option_map].
    eexists. split; [reflexivity|]. split; [exact W'|].
    cbn [m_iterators m_blocks].
    replace (new_size - size) with (- (size - new_size)) by lia.
    split; [|split; [reflexivity|exact Hids]].
    unfold byte_count, lin, ptr_add. cbn [m_begin m_end p_block p_off]. lia.
Qed.


(** X19.  [addBack(CStr)] appends the [size] characters of the literal on
    either path: the short path copies all [rnd_size] padded bytes into
    the tail block but advances [m_end] by [size] only, so the padding
    stays outside the byte sequence. *)
Theorem addBack_CStr_appends (b : Buffer) (data : list char)
  (size rnd_size : Z) :
  wf b -> 0 <= size <= rnd_size -> Z.of_nat (length data) = rnd_size ->
  (exists o, addBack_CStr DATA_SIZE b data size rnd_size = Some o) /\
  (forall b',
     addBack_CStr DATA_SIZE b data size rnd_size = Some (Returned b') ->
     wf b' /\
     contents DATA_SIZE b'
     = contents DATA_SIZE b ++ firstn (Z.to_nat size) data /\
     byte_count DATA_SIZE b' = byte_count DATA_SIZE b + size /\
     m_begin b' = m_begin b /\ m_iterators b' = m_iterators b).
Proof.
  intros W Hs Hd.
  pose proof (wf_chain _ _ W) as Hc. pose proof (wf_blockId _ _ W) as Hbid.
  pose proof (wf_nonempty _ _ W) as Hne.
  pose proof (wf_end_block _ _ W) as Heb.
  pose proof (wf_end_off _ _ W) as Heo.
  unfold nblocks in *. unfold addBack_CStr.
  destruct (Z.eqb_spec size 0) as [Z0|Z0].
  { split; [eauto|]. intros b' E. injection E as <-. subst size.
    cbn [Z.to_nat firstn]. rewrite app_nil_r.
    repeat split; try reflexivity; try apply W. lia. }
  destruct (last_block_chain _ _ Hc) as (last & El & Hlast); [lia|].
  rewrite El. unfold ptr_diff, Block_end. cbn [p_off].
  destruct (Z.gtb_spec (DATA_SIZE - p_off (m_end b)) rnd_size) as [G|G].
  - rewrite firstn_all2 by lia.
    destruct (store_chain (head_id b) (m_blocks b) (m_end b) data Hc)
      as (bs' & S1 & S2 & S3 & S4); try lia.
    rewrite S1. split; [eauto|]. intros b' E. injection E as <-.
    unfold set_end.
    assert (W' : wf (mkBuffer bs' (m_iterators b) (m_blockId b) (m_begin b)
                       (ptr_add (m_end b) size) (m_all b)))
      by (apply tail_edit_wf; try assumption; try lia;
          intros H1; pose proof (wf_order _ _ W H1); lia).
    split; [exact W'|].
    cbn [m_begin m_iterators].
    split; [|split; [|split; reflexivity]].
    + rewrite (contents_as_skipn_firstn _ W'),
        (contents_as_skipn_firstn _ W).
      rewrite (head_id_map b) by exact S3.
      cbn [m_blocks m_begin m_end]. rewrite S4.
      pose proof (wf_begin_le_end b W) as Hle.
      pose proof (wf_begin_block _ _ W) as Hbb.
      pose proof (wf_begin_off _ _ W) as Hbo.
      pose proof (chain_flat_length _ _ Hc) as HF.
      assert (HB : 0 <= index (head_id b) (m_begin b)
                   <= index (head_id b) (m_end b))
        by (unfold index, lin in *; rewrite Hbb in *; lia).
      assert (HE : index (head_id b) (m_end b) + (DATA_SIZE - p_off (m_end b))
                   = Z.of_nat (length (flat (m_blocks b))))
        by (unfold index; rewrite Heb, Hbid, HF; lia).
      replace (index (head_id b) (ptr_add (m_end b) size))
        with (index (head_id b) (m_end b) + size)
        by (unfold index, ptr_add; cbn [p_block p_off]; lia).
      set (En := index (head_id b) (m_end b)) in *.
      set (B := index (head_id b) (m_begin b)) in *.
      clearbody En B. unfold splice.
      assert (HX : length (firstn (Z.to_nat En) (flat (m_blocks b)))
                   = Z.to_nat En) by (rewrite length_firstn; lia).
      set (X := firstn (Z.to_nat En) (flat (m_blocks b))) in *.
      rewrite firstn_app, HX, (@firstn_all2 _ _ X) by lia.
      replace (Z.to_nat (En + size) - Z.to_nat En)%nat
        with (Z.to_nat size) by lia.
      rewrite firstn_app.
      replace (Z.to_nat size - length data)%nat with 0%nat by lia.
      cbn [firstn]. rewrite app_nil_r, skipn_app, HX.
      replace (Z.to_nat B - Z.to_nat En)%nat with 0%nat by lia.
      reflexivity.
    + unfold byte_count, lin, ptr_add. cbn [m_begin m_end p_block p_off]. lia.
  - destruct (addBack_appends_aux b (firstn (Z.to_nat size) data) W)
      as (Ho & Hr).
    split; [exact Ho|]. intros b' E. specialize (Hr b' E).
    rewrite length_firstn in Hr.
    replace (Z.of_nat (Init.Nat.min (Z.to_nat size) (length data)))
      with size in Hr by lia.
    exact Hr.
Qed.

End Properties.

(** * The properties at work on the sample buffers *)

Ltac solve_wf :=
  constructor; vm_compute; repeat split; intros;
  try reflexivity; try discriminate; try easy.

Lemma sample_fresh_wf (all : allocator) : wf 16 (sample_fresh all).
Proof. solve_wf. Defined.

Lemma sample15_wf : wf 16 sample15.
Proof. solve_wf. Defined.

Lemma sample20_wf : wf 16 sample20.
Proof. solve_wf. Defined.

Lemma sample20_it_wf : wf 16 sample20_it.
Proof. solve_wf. Defined.

Lemma sample20_it7_wf : wf 16 sample20_it7.
Proof. solve_wf. Defined.

Lemma sixteen_pos : 0 < 16.
Proof. reflexivity. Defined.

Lemma addBack_strong_exception_safety_witness :
  addBack 16 sample_starved (repeat x61 40%nat) = Some (Threw sample_starved_after) /\
  m_blockId sample_starved_after = m_blockId sample_starved /\
  nblocks sample_starved_after = nblocks sample_starved /\
  contents 16 sample_starved_after = contents 16 sample_starved.
Proof.
  split; [reflexivity|].
  pose proof (addBack_strong_exception_safety 16 sixteen_pos sample_starved
                sample_starved_after (repeat x61 40%nat) (sample_fresh_wf 1%nat)
                eq_refl) as H.
  repeat split; apply H.
Defined.

Lemma dropBack_blockId_fails (ndebug : bool) :
  ~ (forall (b b' : Buffer) (k : Z),
        wf 16 b -> 0 < k <= byte_count 16 b ->
        (forall i, In i (m_iterators b) ->
                   lin 16 (m_position i) <= lin 16 (m_end b) - k) ->
        dropBack 16 ndebug b k = Some b' -> m_blockId b' = m_blockId b).
Proof.
  intros H.
  specialize (H sample20 sample20_dropped 5 sample20_wf).
  assert (E : m_blockId sample20_dropped = m_blockId sample20).
  { apply H.
    - vm_compute. split; [reflexivity|discriminate].
    - intros i [].
    - destruct ndebug; reflexivity. }
  discriminate E.
Qed.

(** C2, as stated, fails in either build: on [sample20] (tail block
    holding 4 bytes, no iterator) [dropBack(5)] frees the tail block and
    [m_blockId] goes from 2 to 1. *)
Lemma dropBack_blockId_counterexample :
  ~ (forall (b b' : Buffer) (k : Z),
        wf 16 b -> 0 < k <= byte_count 16 b ->
        (forall i, In i (m_iterators b) ->
                   lin 16 (m_position i) <= lin 16 (m_end b) - k) ->
        dropBack 16 true b k = Some b' -> m_blockId b' = m_blockId b) /\
  ~ (forall (b b' : Buffer) (k : Z),
        wf 16 b -> 0 < k <= byte_count 16 b ->
        (forall i, In i (m_iterators b) ->
                   lin 16 (m_position i) <= lin 16 (m_end b) - k) ->
        dropBack 16 false b k = Some b' -> m_blockId b' = m_blockId b).
Proof.
  split; apply dropBack_blockId_fails.
Qed.

Lemma dropBack_blockId_witness :
  dropBack 16 false sample20 5 = Some sample20_dropped /\
  dropBack 16 true sample20 5 = Some sample20_dropped /\
  m_blockId sample20_dropped < m_blockId sample20.
Proof.
  split; [reflexivity|]. split; [reflexivity|].
  apply (dropBack_blockId 16 false sample20 sample20_dropped 5 eq_refl).
  reflexivity.
Defined.

Lemma iterator_distance_witness :
  iter_sub 16 (mkIter 1 (mkPtr 1 2)) (mkIter 0 (mkPtr 0 3)) = 15 /\
  iter_steps 16 (m_blocks sample20) 15 (mkIter 0 (mkPtr 0 3))
  = Some (mkIter 1 (mkPtr 1 2)).
Proof.
  pose proof (iterator_distance 16 sixteen_pos sample20
                (mkIter 0 (mkPtr 0 3)) (mkIter 1 (mkPtr 1 2)) sample20_wf) as H.
  destruct H as (H1 & _ & H3 & _).
  - vm_compute. repeat split; intros; discriminate.
  - vm_compute. repeat split; intros; discriminate.
  - left. reflexivity.
  - reflexivity.
  - split; [exact H1|exact H3].
Defined.

Lemma getIOV_spans_witness :
  exists vecs,
    getIOV 16 sample20 (mkIter 0 (mkPtr 0 0)) (mkIter 1 (mkPtr 1 4)) 16
    = Some (vecs, nblocks sample20) /\
    iov_bytes 16 (m_blocks sample20) vecs = Some (contents 16 sample20).
Proof.
  apply (proj2 (getIOV_spans 16 sixteen_pos sample20 sample20_wf)).
  - reflexivity.
  - reflexivity.
  - vm_compute. discriminate.
Defined.

Lemma addBack_get_roundtrip_witness :
  get 16 sample20 (mkIter 0 (mkPtr 0 0)) 20 = Some letters20.
Proof.
  apply (proj2 (addBack_get_roundtrip 16 sixteen_pos) 5%nat
           (sample_fresh 4%nat) letters20 sample20 (mkIter 0 (mkPtr 0 0)));
    try reflexivity.
  discriminate.
Defined.

(** C6 fails on the code: on [sample15] ("ABCDEFGHIJKLMNO", an iterator at
    offset 3) [insert(i, 2)] followed by [release(i, 2)] returns the
    iterators to their positions but leaves "ABCABCDEFGHIJKO" as contents.
    The hole crosses into a new block, and the second chunk of the shift is
    read from [src_block->begin()] instead of [src_block_begin], the
    iterator's position: already after the [insert] the bytes that follow
    the gap are "ABCDEFGHIJKO" instead of "DEFGHIJKLMNO".  That is the
    build with [NDEBUG]; with assertions on, the [release] aborts in its
    closing [dropBack], which frees the new block while the last
    registered iterator is in block 0. *)
Theorem insert_release_damages_contents :
  insert 16 sample15 (mkIter 0 (mkPtr 0 3)) 2
  = Some (Returned sample15_inserted) /\
  release 16 true sample15_inserted (mkIter 0 (mkPtr 0 3)) 2
  = Some sample15_released /\
  contents 16 sample15 = letters15 /\
  contents 16 sample15_released = letters15_damaged /\
  m_iterators sample15_released = m_iterators sample15 /\
  contents 16 sample15_inserted = letters17_inserted /\
  release 16 false sample15_inserted (mkIter 0 (mkPtr 0 3)) 2 = None.
Proof. repeat split; reflexivity. Qed.

(** On [sample20_it7] (twenty bytes, one iterator 7 bytes from the head)
    C7 asks [flush()] to drop 7 bytes; with [begin()] evaluated first it
    drops none. *)
Lemma flush_drops_nothing_when_registered_witness :
  m_iterators sample20_it7 = [mkIter 0 (mkPtr 0 7)] /\
  iter_sub 16 (mkIter 0 (mkPtr 0 7)) (mkIter 0 (m_begin sample20_it7)) = 7 /\
  flush_distance 16 begin_then_first sample20_it7 = Some 0 /\
  flush 16 begin_then_first sample20_it7 = Some sample20_it7 /\
  contents 16 sample20_it7 = letters20.
Proof.
  split; [reflexivity|]. split; [reflexivity|].
  destruct (flush_drops_nothing_when_registered 16 sample20_it7) as [H1 H2];
    try discriminate.
  split; [exact H1|]. split; [exact H2|reflexivity].
Defined.

Lemma get_set_frame_witness :
  (exists out, get 16 sample20 (mkIter 0 (mkPtr 0 3)) 15 = Some out /\
               get_T 16 sample20 (mkIter 0 (mkPtr 0 3)) 15 = Some out /\
               Z.of_nat (length out) = 15) /\
  (exists b', set 16 sample20 (mkIter 0 (mkPtr 0 3)) letters15 15 = Some b' /\
              frame 16 sample20 b') /\
  (exists b', set_T 16 sample20 (mkIter 0 (mkPtr 0 3)) letters15 = Some b' /\
              frame 16 sample20 b').
Proof.
  apply (get_set_frame 16 sixteen_pos sample20 (mkIter 0 (mkPtr 0 3))
           letters15 15 sample20_wf).
  - vm_compute. repeat split; intros; discriminate.
  - discriminate.
  - reflexivity.
  - vm_compute. discriminate.
Defined.

Lemma tail_block_never_full_witness :
  addBack 16 (sample_fresh 4%nat) (repeat x61 16%nat)
  = Some (Returned sample_exact) /\
  nblocks (sample_fresh 4%nat) < nblocks sample_exact /\
  m_blockId (sample_fresh 4%nat) <= p_block (m_end sample_exact) /\
  0 <= p_off (m_end sample_exact) < 16.
Proof.
  split; [reflexivity|].
  destruct (tail_block_never_full 16 sixteen_pos) as (_ & _ & H & _).
  apply (H (sample_fresh 4%nat) (repeat x61 16%nat) sample_exact
           (sample_fresh_wf 4%nat)).
  - vm_compute. discriminate.
  - reflexivity.
Defined.

Lemma getIOV_empty_range_witness :
  getIOV 16 sample20 (mkIter 0 (mkPtr 0 3)) (mkIter 0 (mkPtr 0 3)) 1
  = Some ([mkIov (mkPtr 0 3) 0], 1).
Proof.
  apply (proj1 (getIOV_empty_range 16 sixteen_pos) sample20
           (mkIter 0 (mkPtr 0 3)) (mkIter 0 (mkPtr 0 3)) 1 sample20_wf).
  - vm_compute. repeat split; intros; discriminate.
  - vm_compute. repeat split; intros; discriminate.
  - reflexivity.
  - discriminate.
Defined.

(** ** Further properties on the sample buffers *)

Ltac solve_sample :=
  vm_compute; repeat (split || constructor); intros;
  try reflexivity; try discriminate; try easy.

Lemma sample8_wf : wf 16 sample8.
Proof. solve_wf. Defined.

Lemma has_spec_witness :
  has 16 sample20 (mkIter 0 (mkPtr 0 3)) 17 = Some true /\
  has 16 sample20 (mkIter 0 (mkPtr 0 3)) 18 = Some false.
Proof.
  split.
  - apply (has_spec 16 sixteen_pos sample20 (mkIter 0 (mkPtr 0 3)) 17
             sample20_wf); solve_sample.
  - apply (has_spec 16 sixteen_pos sample20 (mkIter 0 (mkPtr 0 3)) 18
             sample20_wf); solve_sample.
Defined.

Lemma iterator_order_witness :
  iter_ltb (mkIter 0 (mkPtr 0 3)) (mkIter 1 (mkPtr 1 2)) = true <->
  lin 16 (mkPtr 0 3) < lin 16 (mkPtr 1 2).
Proof.
  apply (iterator_order 16 sixteen_pos sample20 (mkIter 0 (mkPtr 0 3))
           (mkIter 1 (mkPtr 1 2))); solve_sample.
Defined.

Lemma moveForward_moveBackward_witness :
  exists i',
    moveForward 16 (m_blocks sample20) (mkIter 0 (mkPtr 0 3)) 15 = Some i' /\
    lin 16 (m_position i') = 18 /\
    moveBackward 16 (m_blocks sample20) i' 15 = Some (mkIter 0 (mkPtr 0 3)).
Proof.
  destruct (moveForward_moveBackward 16 sixteen_pos sample20
              (mkIter 0 (mkPtr 0 3)) 15 sample20_wf)
    as (i' & A & _ & B & C); try solve [solve_sample].
  exists i'. split; [exact A|]. split; [exact B|exact C].
Defined.


(** On [sample20_it7] (four bytes in the tail block, one iterator at byte
    7, in block 0): [dropBack(3)] frees no block and returns in either
    build; [dropBack(5)] frees the tail block and, though the iterator
    lies before the new end, aborts when assertions are on. *)
Lemma dropBack_spec_witness :
  (exists b', dropBack 16 false sample20_it7 3 = Some b' /\
              contents 16 b' = firstn 17 (contents 16 sample20_it7) /\
              m_iterators b' = [mkIter 0 (mkPtr 0 7)]) /\
  (exists b', dropBack 16 true sample20_it7 5 = Some b' /\
              contents 16 b' = firstn 15 (contents 16 sample20_it7) /\
              m_all b' = S (m_all sample20_it7)) /\
  dropBack 16 false sample20_it7 5 = None.
Proof.
  split; [|split].
  - destruct (proj1 (dropBack_spec 16 sixteen_pos false sample20_it7 3
                       sample20_it7_wf ltac:(solve_sample)))
      as (b' & A & _ & _ & _ & B & _ & _ & C).
    + right. intros l [= <-]. left. vm_compute. discriminate.
    + exists b'. split; [exact A|]. split; [exact C|exact B].
  - destruct (proj1 (dropBack_spec 16 sixteen_pos true sample20_it7 5
                       sample20_it7_wf ltac:(solve_sample)))
      as (b' & A & _ & _ & _ & _ & _ & _ & C).
    + left. reflexivity.
    + exists b'. split; [exact A|]. split; [exact C|].
      vm_compute in A. injection A as <-. reflexivity.
  - eapply (proj2 (dropBack_spec 16 sixteen_pos false sample20_it7 5
                     sample20_it7_wf ltac:(solve_sample))).
    + reflexivity.
    + reflexivity.
    + reflexivity.
    + reflexivity.
    + reflexivity.
Defined.

Lemma no_chunk_lost_witness :
  chunks sample20_dropped = chunks sample20 /\
  chunks sample_starved_after = chunks sample_starved.
Proof.
  destruct (no_chunk_lost 16) as (_ & H1 & _ & H2 & _).
  split.
  - exact (H2 false sample20 5 sample20_dropped eq_refl).
  - exact (H1 sample_starved (repeat x61 40%nat) sample_starved_after
             (or_intror eq_refl)).
Defined.

(** On [sample8] (iterators at offsets 3, 5 and 8 of the only block): an
    append of four bytes is undone by [dropBack(4)] in either build; an
    append of ten bytes takes a second block, and with assertions on the
    [dropBack(10)] that would undo it aborts. *)
Lemma addBack_dropBack_witness :
  (exists b2, dropBack 16 false sample8_plus4 4 = Some b2 /\
              m_end b2 = m_end sample8 /\
              m_iterators b2 = m_iterators sample8 /\
              contents 16 b2 = contents 16 sample8) /\
  (exists b2, dropBack 16 true sample8_plus10 10 = Some b2 /\
              m_blockId b2 = m_blockId sample8 /\
              m_all b2 = m_all sample8 /\
              contents 16 b2 = contents 16 sample8) /\
  dropBack 16 false sample8_plus10 10 = None.
Proof.
  split; [|split].
  - destruct (proj1 (addBack_dropBack 16 sixteen_pos false sample8
                       sample8_plus4 [x61; x62; x63; x64] sample8_wf
                       ltac:(discriminate) eq_refl))
      as (b2 & A & _ & B & _ & _ & _ & C & D).
    + right. intros l [= <-]. right. solve_sample.
    + exists b2. repeat split; assumption.
  - destruct (proj1 (addBack_dropBack 16 sixteen_pos true sample8
                       sample8_plus10 (repeat x61 10%nat) sample8_wf
                       ltac:(discriminate) eq_refl))
      as (b2 & A & _ & _ & B & _ & C & _ & D).
    + left. reflexivity.
    + exists b2. repeat split; assumption.
  - apply (proj2 (addBack_dropBack 16 sixteen_pos false sample8
                    sample8_plus10 (repeat x61 10%nat) sample8_wf
                    ltac:(discriminate) eq_refl) (mkIter 0 (mkPtr 0 8)));
      reflexivity.
Defined.


Lemma set_get_roundtrip_witness :
  exists b',
    set 16 sample20 (mkIter 0 (mkPtr 0 14)) [x61; x62; x63; x64] 4 = Some b' /\
    get 16 b' (mkIter 0 (mkPtr 0 14)) 4 = Some [x61; x62; x63; x64] /\
    contents 16 b' = splice (contents 16 sample20) 14 [x61; x62; x63; x64].
Proof.
  destruct (set_get_roundtrip 16 sixteen_pos sample20 (mkIter 0 (mkPtr 0 14))
              [x61; x62; x63; x64] sample20_wf)
    as (b' & A & _ & _ & B & C); try solve [solve_sample].
  exists b'. repeat split; assumption.
Defined.

Lemma typed_forms_agree_witness :
  set_T 16 sample20 (mkIter 0 (mkPtr 0 14)) [x61; x62; x63; x64]
  = set 16 sample20 (mkIter 0 (mkPtr 0 14)) [x61; x62; x63; x64] 4 /\
  get_T 16 sample20 (mkIter 0 (mkPtr 0 14)) 4
  = get 16 sample20 (mkIter 0 (mkPtr 0 14)) 4.
Proof.
  destruct (typed_forms_agree 16 sixteen_pos sample20 (mkIter 0 (mkPtr 0 14))
              sample20_wf) as (A & B); [solve_sample|].
  split; [apply (A [x61; x62; x63; x64]); discriminate|apply B; reflexivity].
Defined.

Lemma empty_spec_witness :
  contents 16 (sample_fresh 4%nat) = [] /\
  (empty sample20_flushed = true <->
   byte_count 16 sample20_flushed = 0 /\
   p_off (m_begin sample20_flushed) <> 16).
Proof.
  split.
  - apply (proj2 (empty_spec 16 sixteen_pos (sample_fresh 4%nat)
                    (sample_fresh_wf 4%nat))).
    reflexivity.
  - apply (proj1 (empty_spec 16 sixteen_pos sample20_flushed
                    ltac:(solve_wf))).
Defined.

Lemma debugSelfCheck_spec_witness : debugSelfCheck 16 sample15 = 0.
Proof.
  apply (proj2 (debugSelfCheck_spec 16 sample15) sample15_wf).
  solve_sample.
Defined.

Lemma advance_reserves_witness :
  exists o, advance 16 (sample_fresh 4%nat) 20 = Some o /\
            match o with
            | Returned b' => byte_count 16 b' = 20
            | Threw b' => b' = sample_fresh 4%nat
            end.
Proof.
  destruct (advance_reserves 16 sixteen_pos (sample_fresh 4%nat) 20
              (sample_fresh_wf 4%nat)) as (o & A & B); [reflexivity|].
  exists o. split; [exact A|].
  destruct o as [b'|b']; [|exact B].
  destruct B as (_ & _ & _ & _ & B & _). exact B.
Defined.

Lemma sample8_in_tail (lo : Z) :
  lo <= 5 ->
  in_tail sample8 (mkIter 0 (mkPtr 0 3)) lo []
    [mkIter 0 (mkPtr 0 5); mkIter 0 (mkPtr 0 8)].
Proof.
  intros H. unfold in_tail. cbn.
  repeat (split || constructor); cbn; try reflexivity; try lia.
Defined.

Lemma insert_in_tail_block_witness :
  exists b' gap,
    insert 16 sample8 (mkIter 0 (mkPtr 0 3)) 2 = Some (Returned b') /\
    m_iterators b'
    = [mkIter 0 (mkPtr 0 3); mkIter 0 (mkPtr 0 7); mkIter 0 (mkPtr 0 10)] /\
    Z.of_nat (length gap) = 2 /\
    contents 16 b'
    = firstn 3 (contents 16 sample8) ++ gap ++ skipn 3 (contents 16 sample8).
Proof.
  destruct (insert_in_tail_block 16 sixteen_pos sample8 (mkIter 0 (mkPtr 0 3))
              2 [] [mkIter 0 (mkPtr 0 5); mkIter 0 (mkPtr 0 8)] sample8_wf
              (sample8_in_tail 0 ltac:(lia)))
    as (b' & gap & A & _ & B & _ & _ & _ & _ & C & D);
    try solve [solve_sample].
  exists b', gap. repeat split; assumption.
Defined.

Lemma release_in_tail_block_witness :
  exists b',
    release 16 false sample8 (mkIter 0 (mkPtr 0 3)) 2 = Some b' /\
    m_iterators b'
    = [mkIter 0 (mkPtr 0 3); mkIter 0 (mkPtr 0 3); mkIter 0 (mkPtr 0 6)] /\
    contents 16 b'
    = firstn 3 (contents 16 sample8) ++ skipn 5 (contents 16 sample8).
Proof.
  destruct (release_in_tail_block 16 sixteen_pos false sample8
              (mkIter 0 (mkPtr 0 3)) 2 []
              [mkIter 0 (mkPtr 0 5); mkIter 0 (mkPtr 0 8)] sample8_wf
              (sample8_in_tail 5 ltac:(lia)))
    as (b' & A & _ & B & _ & _ & _ & _ & C);
    try solve [solve_sample].
  exists b'. repeat split; assumption.
Defined.

Lemma insert_release_in_tail_block_witness :
  exists b' b'',
    insert 16 sample8 (mkIter 0 (mkPtr 0 3)) 2 = Some (Returned b') /\
    release 16 false b' (mkIter 0 (mkPtr 0 3)) 2 = Some b'' /\
    contents 16 b'' = contents 16 sample8 /\
    m_iterators b'' = m_iterators sample8 /\ m_end b'' = m_end sample8.
Proof.
  destruct (insert_release_in_tail_block 16 sixteen_pos false sample8
              (mkIter 0 (mkPtr 0 3)) 2 []
              [mkIter 0 (mkPtr 0 5); mkIter 0 (mkPtr 0 8)] sample8_wf
              (sample8_in_tail 0 ltac:(lia)))
    as (b' & b'' & A & B & _ & C & D & _ & E & _);
    try solve [solve_sample].
  exists b', b''. repeat split; assumption.
Defined.

Lemma getIOV_to_end_bytes_witness :
  exists vecs,
    getIOV_to_end 16 sample20 (mkIter 0 (mkPtr 0 3)) 2 = Some (vecs, 2) /\
    iov_bytes 16 (m_blocks sample20) vecs = Some (skipn 3 letters20).
Proof.
  apply (getIOV_to_end_bytes 16 sixteen_pos sample20 (mkIter 0 (mkPtr 0 3)) 2
           sample20_wf); solve_sample.
Defined.

Lemma resize_in_tail_block_witness :
  (exists b',
      resize 16 false sample8 (mkIter 0 (mkPtr 0 3)) 2 4
      = Some (Returned b') /\
      byte_count 16 b' = 10) /\
  (exists b',
      resize 16 false sample8 (mkIter 0 (mkPtr 0 3)) 2 0
      = Some (Returned b') /\
      byte_count 16 b' = 6).
Proof.
  split.
  - destruct (resize_in_tail_block 16 sixteen_pos false sample8
                (mkIter 0 (mkPtr 0 3)) 2 4 []
                [mkIter 0 (mkPtr 0 5); mkIter 0 (mkPtr 0 8)] sample8_wf
                (sample8_in_tail 3 ltac:(lia)))
      as (b' & A & _ & B & _); try solve [solve_sample].
    exists b'. split; assumption.
  - destruct (resize_in_tail_block 16 sixteen_pos false sample8
                (mkIter 0 (mkPtr 0 3)) 2 0 []
                [mkIter 0 (mkPtr 0 5); mkIter 0 (mkPtr 0 8)] sample8_wf
                (sample8_in_tail 5 ltac:(lia)))
      as (b' & A & _ & B & _); try solve [solve_sample].
    exists b'. split; assumption.
Defined.

Lemma addBack_CStr_appends_witness :
  addBack_CStr 16 (sample_fresh 4%nat) (firstn 8 letters15) 3 8
  = Some (Returned sample_cstr) /\
  contents 16 sample_cstr = [x41; x42; x43] /\
  byte_count 16 sample_cstr = 3.
Proof.
  split; [reflexivity|].
  destruct (proj2 (addBack_CStr_appends 16 sixteen_pos (sample_fresh 4%nat)
                     (firstn 8 letters15) 3 8 (sample_fresh_wf 4%nat)
                     ltac:(lia) eq_refl) sample_cstr eq_refl)
    as (_ & A & B & _).
  split; [exact A|exact B].
Defined.
